(** * LLM Automation Flow Builder: compiler, reconstructor, validator, store

    A shallow embedding of
      - [generateFlowJson] and [restoreFlowFromJson] (utils/flowUtils.ts),
      - the validation block, the handlers, the layout effect and the edge
        colouring of the [App] component,
      - the placeholder check and the variable buttons of the sidebar,
      - the list handling of the delivery dialog,
    together with the properties the design document states about them and
    further properties of the editor.

    Conventions of the embedding.
      - JavaScript numbers that the program only ever uses as integers
        (sequence orders, amounts, retries) are [Z]; the one non-integer the
        code can produce, the [NaN] of a failed [parseInt], is kept
        ([num]).  The program computes in doubles: where it adds,
        subtracts or multiplies, or reads a number from text, the exact
        result is rounded to the nearest double ([double]); integers up to
        2^53 in magnitude are not changed by this.  The printing of a
        number ([String_of_Z]) is the decimal one, which is what the
        program prints for the integers below 2^53 in magnitude
        ([safeInteger]); the statements that depend on printed numbers
        carry that bound.
      - Strings are [string] (8-bit characters): ASCII text, whose white
        space is the ASCII white space.
      - An optional field is an [option]; JavaScript truthiness is spelled
        out ([truthy_str], [truthy_num]).
      - The object [sequenceToIdMap] is a [gmap Z string].
      - Of the canvas data, the positions that the layout effect computes
        and the colours of the edges are modelled; no function modelled
        here reads them. *)

From Stdlib Require Import ZArith List String Ascii Bool Lia.
From Stdlib Require Import Sorting.Sorted Sorting.Permutation.
From Stdlib Require Import DecimalString DecimalZ.
From stdpp Require Import gmap.
Import ListNotations.

#[local] Open Scope Z_scope.
#[local] Open Scope string_scope.

(** ** JavaScript primitives *)

Module Js.

(** A number as the program sees it: an integer, or [NaN]. *)
Inductive num : Type :=
| NaN : num
| Num (z : Z) : num.

Definition num_eq_dec (a b : num) : {a = b} + {a <> b}.
Proof. decide equality; apply Z.eq_dec. Defined.

(** The double nearest to an integer, ties going to the even significand:
    what [+], [-] and [*] of the program, and the reading of a digit
    string, make of an exact integer result.  An integer of magnitude up
    to 2^53 is a double.  (A result of magnitude 2^1024 or more is an
    infinity; see [number].) *)
Definition double (z : Z) : Z :=
  let a := Z.abs z in
  if Z.ltb a (2 ^ 53) then z
  else
    let e := Z.log2 a - 52 in
    let q := a / 2 ^ e in
    let r := a mod 2 ^ e in
    let h := 2 ^ (e - 1) in
    let q' := if Z.ltb r h then q
              else if Z.ltb h r then q + 1
              else if Z.even q then q else q + 1 in
    Z.sgn z * (q' * 2 ^ e).

(** A finite number or an infinity: the results of the layout arithmetic. *)
Inductive ext : Type :=
| Fin (z : Z) : ext
| Inf (negative : bool) : ext.

(** The number that an exact integer result becomes: the nearest double,
    or an infinity from 2^1024 on. *)
Definition number (z : Z) : ext :=
  if Z.ltb (Z.abs (double z)) (2 ^ 1024) then Fin (double z) else Inf (Z.ltb z 0).

(** [x + z] for a finite [z]. *)
Definition plus (x : ext) (z : Z) : ext :=
  match x with
  | Fin a => number (a + z)
  | Inf s => Inf s
  end.

Arguments double : simpl never.

(** [if (s)] on an optional string: present and not empty. *)
Definition truthy_str (o : option string) : bool :=
  match o with
  | Some s => negb (String.eqb s "")
  | None => false
  end.

(** [if (n)] on an optional number: present, not [0], not [NaN]. *)
Definition truthy_num (o : option num) : bool :=
  match o with
  | Some (Num z) => negb (Z.eqb z 0)
  | _ => false
  end.

(** [x || d] on strings. *)
Definition or_str (s d : string) : string :=
  if String.eqb s "" then d else s.

(** [String(n)] and [`${n}`] for an integer: its decimal digits.  This is
    what the program prints for an integer below 2^53 in magnitude. *)
Definition String_of_Z (z : Z) : string :=
  NilZero.string_of_int (Z.to_int z).

(** [`${n}`] for a number. *)
Definition String_of_num (n : num) : string :=
  match n with
  | NaN => "NaN"
  | Num z => String_of_Z z
  end.

(** White space and line terminators, as [trim] and [parseInt] skip them. *)
Definition isWhiteSpace (c : ascii) : bool :=
  match Ascii.N_of_ascii c with
  | 9%N | 10%N | 11%N | 12%N | 13%N | 32%N => true
  | _ => false
  end.

(** Line terminators: what [.] of a regular expression does not match. *)
Definition isLineTerminator (c : ascii) : bool :=
  match Ascii.N_of_ascii c with
  | 10%N | 13%N => true
  | _ => false
  end.

Fixpoint trimStart (s : string) : string :=
  match s with
  | String c r => if isWhiteSpace c then trimStart r else s
  | EmptyString => EmptyString
  end.

Fixpoint rev_string (s acc : string) : string :=
  match s with
  | EmptyString => acc
  | String c r => rev_string r (String c acc)
  end.

Definition trimEnd (s : string) : string :=
  rev_string (trimStart (rev_string s "")) "".

(** [s.trim()] *)
Definition trim (s : string) : string := trimEnd (trimStart s).

Definition digit_of_ascii (c : ascii) : option (Decimal.uint -> Decimal.uint) :=
  match c with
  | "0" => Some Decimal.D0
  | "1" => Some Decimal.D1
  | "2" => Some Decimal.D2
  | "3" => Some Decimal.D3
  | "4" => Some Decimal.D4
  | "5" => Some Decimal.D5
  | "6" => Some Decimal.D6
  | "7" => Some Decimal.D7
  | "8" => Some Decimal.D8
  | "9" => Some Decimal.D9
  | _ => None
  end%char.

(** The longest prefix of decimal digits. *)
Fixpoint digitsPrefix (s : string) : Decimal.uint :=
  match s with
  | EmptyString => Decimal.Nil
  | String c r =>
      match digit_of_ascii c with
      | Some d => d (digitsPrefix r)
      | None => Decimal.Nil
      end
  end.

Definition num_of_digits (neg : bool) (s : string) : num :=
  match digitsPrefix s with
  | Decimal.Nil => NaN
  | u => Num (double (if neg then - Z.of_uint u else Z.of_uint u))
  end.

(** [parseInt(s, 10)]: leading white space, an optional sign, then the
    longest run of digits, read as the nearest double; [NaN] when there is
    no digit.  (A run that would give 2^1024 or more reads as an infinity
    in the program, which [num] does not have.) *)
Definition parseInt (s : string) : num :=
  match trimStart s with
  | String "-" r => num_of_digits true r
  | String "+" r => num_of_digits false r
  | r => num_of_digits false r
  end.

(** [s.split(c)] for a one-character separator: never empty. *)
Fixpoint split (sep : ascii) (s : string) : list string :=
  match s with
  | EmptyString => [EmptyString]
  | String c r =>
      if Ascii.eqb c sep then EmptyString :: split sep r
      else match split sep r with
           | p :: ps => String c p :: ps
           | [] => [String c EmptyString]
           end
  end.

(** [l.join(sep)] *)
Fixpoint join (sep : string) (l : list string) : string :=
  match l with
  | [] => EmptyString
  | [x] => x
  | x :: r => String.append x (String.append sep (join sep r))
  end.

(** [s.endsWith(c)] for a one-character suffix. *)
Fixpoint endsWith (c : ascii) (s : string) : bool :=
  match s with
  | EmptyString => false
  | String a EmptyString => Ascii.eqb a c
  | String _ r => endsWith c r
  end.

(** [s.slice(0, -1)] *)
Fixpoint dropLast (s : string) : string :=
  match s with
  | EmptyString => EmptyString
  | String _ EmptyString => EmptyString
  | String a r => String a (dropLast r)
  end.

(** [s.startsWith(p)] *)
Definition startsWith (p s : string) : bool := String.prefix p s.

(** [s.replace(p, "")] when [s] starts with [p]; in general the first
    occurrence of [p] is removed. *)
Fixpoint removeFirst (p s : string) : string :=
  if String.prefix p s then String.substring (String.length p) (String.length s - String.length p)%nat s
  else match s with
       | EmptyString => EmptyString
       | String c r => String c (removeFirst p r)
       end.

(** [[...new Set(l)]]: first occurrences, in order. *)
Fixpoint uniq (seen l : list string) : list string :=
  match l with
  | [] => []
  | x :: r =>
      if existsb (String.eqb x) seen then uniq seen r
      else x :: uniq (x :: seen) r
  end.

(** The lazy body [(.*?)] followed by [}}]: the text up to the first [}}],
    which must come before any line terminator. *)
Fixpoint scanClose (s : string) : option (string * string) :=
  match s with
  | EmptyString => None
  | String "}" (String "}" rest) => Some (EmptyString, rest)
  | String c r =>
      if isLineTerminator c then None
      else match scanClose r with
           | Some (tag, rest) => Some (String c tag, rest)
           | None => None
           end
  end.

(** [[...s.matchAll(/\{\{(.*?)\}\}/g)].map(m => m[1])].  A failed attempt
    at one position moves on to the next; a match resumes after its [}}]. *)
Fixpoint matchTags (fuel : nat) (s : string) : list string :=
  match fuel with
  | O => []
  | S fuel' =>
      match s with
      | EmptyString => []
      | String "{" ((String "{" r) as s') =>
          match scanClose r with
          | Some (tag, rest) => tag :: matchTags fuel' rest
          | None => matchTags fuel' s'
          end
      | String _ r => matchTags fuel' r
      end
  end.

Definition matchAllTags (s : string) : list string :=
  matchTags (String.length s) s.

End Js.

Import Js.

(** ** Data model (types.ts) *)

Inductive StepType : Type := SQL | LLM | CONCAT.

Definition StepType_eqb (a b : StepType) : bool :=
  match a, b with
  | SQL, SQL | LLM, LLM | CONCAT, CONCAT => true
  | _, _ => false
  end.

(** [Object.values(TimeGrain)] *)
Definition TimeGrain_values : list string := ["month"; "day"].

(** [Object.values(TimeMode)] *)
Definition TimeMode_values : list string :=
  ["closed_open"; "closed_closed"; "open_closed"; "open_open"].

(** [FlowNodeData].  [time_grain] and [time_mode] hold what is there at run
    time: import casts any string to the enumeration. *)
Module FlowNodeData.
Record t : Type := mk {
  label : string;
  sequence_order : Z;
  type : option StepType;
  value : string;
  append_iteration_column : option string;
  append_time_column : option string;
  time_amount : option num;
  time_grain : option string;
  time_mode : option string;
  reference_date : option string;
  llm_model : option string;
  max_retry : option num;
  isStartNode : bool
}.
End FlowNodeData.

Record Node : Type := mkNode {
  id : string;
  data : FlowNodeData.t
}.

Record Edge : Type := mkEdge {
  edge_id : string;
  source : string;
  target : string
}.

(** The shapes of [depends_on] that import accepts. *)
Inductive DepItem : Type :=
| ItemNumber (z : Z)
| ItemString (s : string).

Inductive DependsOn : Type :=
| DepString (s : string)
| DepNumber (z : Z)
| DepArray (l : list DepItem)
| DepOther.

(** [FlowStep] *)
Module FlowStep.
Record t : Type := mk {
  sequence_order : Z;
  sequence_name : string;
  type : StepType;
  value : string;
  depends_on : option DependsOn;
  max_retry : option num;
  append_iteration_column : option string;
  append_time_column : option string;
  time_range : option string;
  time_grain : option string;
  time_mode : option string;
  reference_date : option string;
  llm_model : option string
}.
End FlowStep.

Record DeliveryConfig : Type := mkDeliveryConfig {
  method : string;
  recipients : list string;
  iteration_names : list string
}.

(** [FlowJson] *)
Record FlowJson : Type := mkFlowJson {
  flow_name : string;
  iterate_flow : bool;
  iterable_steps : option (list Z);
  get_iterate_list : option string;
  steps : list FlowStep.t;
  delivery_config : option (list DeliveryConfig)
}.

Record GlobalConfig : Type := mkGlobalConfig {
  iterateFlow : bool;
  getIterateList : string;
  flowName : string
}.

Definition order (n : Node) : Z := FlowNodeData.sequence_order (data n).
Definition isStart (n : Node) : bool := FlowNodeData.isStartNode (data n).

(** [l.includes(s)] *)
Definition includes (l : list string) (s : string) : bool :=
  existsb (String.eqb s) l.

Definition includesZ (l : list Z) (z : Z) : bool :=
  existsb (Z.eqb z) l.

(** ** Sorting

    [Array.prototype.sort] is stable; with a comparator [a - b] on a key it
    is the stable ascending sort by that key. *)

Section StableSort.
Context {A : Type} (key : A -> Z).

Fixpoint insert_sorted (x : A) (l : list A) : list A :=
  match l with
  | [] => [x]
  | y :: r => if (key x <=? key y)%Z then x :: l else y :: insert_sorted x r
  end.

Definition sort_by (l : list A) : list A :=
  fold_right insert_sorted [] l.

Definition le_key (a b : A) : Prop := key a <= key b.
End StableSort.

(** ** The compiler: [generateFlowJson] *)

Definition stepNodes (nodes : list Node) : list Node :=
  List.filter (fun n => negb (isStart n)) nodes.

Definition sortedSteps (nodes : list Node) : list Node :=
  sort_by order (stepNodes nodes).

Definition iterableStepIds (edges : list Edge) : list string :=
  map target (List.filter (fun e => String.eqb (source e) "start") edges).

Definition incomingDependencyEdges (edges : list Edge) (node : Node) : list Edge :=
  List.filter
    (fun e => String.eqb (target e) (id node) && negb (String.eqb (source e) "start"))
    edges.

(** The sorted sequence orders behind [dependsOnOrders], before [join]. *)
Definition dependsOnList (nodes : list Node) (edges : list Edge) (node : Node) : list Z :=
  let sourceNodeIds := map source (incomingDependencyEdges edges node) in
  sort_by (fun z => z)
    (map order
       (List.filter (fun n => includes sourceNodeIds (id n) && negb (isStart n)) nodes)).

Definition dependsOnOrders (nodes : list Node) (edges : list Edge) (node : Node) : string :=
  join "," (map String_of_Z (dependsOnList nodes edges node)).

Definition timeRangeOf (amount : num) (grain : string) : string :=
  "last_" ++ String_of_num amount ++ "_" ++ grain ++ "s".

Definition keep_str (o : option string) : option string :=
  if truthy_str o then o else None.

Definition keep_num (o : option num) : option num :=
  if truthy_num o then o else None.

Definition stepJson (nodes : list Node) (edges : list Edge) (node : Node) : FlowStep.t :=
  let d := data node in
  let deps := dependsOnOrders nodes edges node in
  let isSql := match FlowNodeData.type d with Some SQL => true | _ => false end in
  let isLlm := match FlowNodeData.type d with Some LLM => true | _ => false end in
  let withTime := isSql && truthy_str (FlowNodeData.append_time_column d) in
  {| FlowStep.sequence_order := FlowNodeData.sequence_order d;
     FlowStep.sequence_name := FlowNodeData.label d;
     FlowStep.type := match FlowNodeData.type d with Some t => t | None => SQL end;
     FlowStep.value := FlowNodeData.value d;
     FlowStep.depends_on :=
       if String.eqb deps "" then None else Some (DepString deps);
     FlowStep.max_retry := keep_num (FlowNodeData.max_retry d);
     FlowStep.append_iteration_column :=
       if isSql then keep_str (FlowNodeData.append_iteration_column d) else None;
     FlowStep.append_time_column :=
       if isSql then keep_str (FlowNodeData.append_time_column d) else None;
     FlowStep.time_range :=
       if withTime
       then match FlowNodeData.time_amount d, FlowNodeData.time_grain d with
            | Some a, Some g =>
                if truthy_num (Some a) && truthy_str (Some g)
                then Some (timeRangeOf a g) else None
            | _, _ => None
            end
       else None;
     FlowStep.time_grain :=
       if withTime then keep_str (FlowNodeData.time_grain d) else None;
     FlowStep.time_mode :=
       if withTime then keep_str (FlowNodeData.time_mode d) else None;
     FlowStep.reference_date :=
       if isSql then keep_str (FlowNodeData.reference_date d) else None;
     FlowStep.llm_model :=
       if isLlm then keep_str (FlowNodeData.llm_model d) else None |}.

Definition generateFlowJson (nodes : list Node) (edges : list Edge)
    (globalConfig : GlobalConfig) : FlowJson :=
  let sorted := sortedSteps nodes in
  let ids := iterableStepIds edges in
  let iterable := map order (List.filter (fun n => includes ids (id n)) sorted) in
  {| flow_name := flowName globalConfig;
     iterate_flow := iterateFlow globalConfig;
     iterable_steps := if iterateFlow globalConfig then Some iterable else None;
     get_iterate_list :=
       if iterateFlow globalConfig then Some (getIterateList globalConfig) else None;
     steps := map (stepJson nodes edges) sorted;
     delivery_config := None |}.

(** ** The reconstructor: [restoreFlowFromJson] *)

Definition startNode : Node :=
  {| id := "start";
     data := {| FlowNodeData.label := "Start / Configuration";
                FlowNodeData.sequence_order := 0;
                FlowNodeData.type := None;
                FlowNodeData.value := "";
                FlowNodeData.append_iteration_column := None;
                FlowNodeData.append_time_column := None;
                FlowNodeData.time_amount := None;
                FlowNodeData.time_grain := None;
                FlowNodeData.time_mode := None;
                FlowNodeData.reference_date := None;
                FlowNodeData.llm_model := None;
                FlowNodeData.max_retry := None;
                FlowNodeData.isStartNode := true |} |}.

(** The reverse parse of [time_range], with the fallback on a bare
    [time_grain]: the pair [(time_amount, time_grain)] of the node. *)
Definition parseTimeRange (step : FlowStep.t) : option num * option string :=
  if truthy_str (FlowStep.time_range step) then
    match FlowStep.time_range step with
    | Some range =>
        match split "_" range with
        | _ :: amountStr :: grainStr :: _ =>
            let grainStr := if endsWith "s" grainStr then dropLast grainStr else grainStr in
            (Some (parseInt amountStr),
             if includes TimeGrain_values grainStr then Some grainStr else None)
        | _ => (None, None)
        end
    | None => (None, None)
    end
  else
    (None, keep_str (FlowStep.time_grain step)).

Definition nodeData (step : FlowStep.t) : FlowNodeData.t :=
  let '(time_amount, time_grain) := parseTimeRange step in
  {| FlowNodeData.label :=
       or_str (FlowStep.sequence_name step)
              ("Step " ++ String_of_Z (FlowStep.sequence_order step));
     FlowNodeData.sequence_order := FlowStep.sequence_order step;
     FlowNodeData.type := Some (FlowStep.type step);
     FlowNodeData.value := or_str (FlowStep.value step) "";
     FlowNodeData.append_iteration_column := FlowStep.append_iteration_column step;
     FlowNodeData.append_time_column := FlowStep.append_time_column step;
     FlowNodeData.time_amount := time_amount;
     FlowNodeData.time_grain := time_grain;
     FlowNodeData.time_mode := FlowStep.time_mode step;
     FlowNodeData.reference_date := FlowStep.reference_date step;
     FlowNodeData.llm_model := FlowStep.llm_model step;
     FlowNodeData.max_retry := FlowStep.max_retry step;
     FlowNodeData.isStartNode := false |}.

(** [if (step.depends_on)] *)
Definition truthy_dep (o : option DependsOn) : bool :=
  match o with
  | Some (DepString s) => negb (String.eqb s "")
  | Some (DepNumber z) => negb (Z.eqb z 0)
  | Some (DepArray _) => true
  | Some DepOther => true
  | None => false
  end.

(** The normalisation of [depends_on] into [sources]. *)
Definition depSources (dep : DependsOn) : list num :=
  match dep with
  | DepString s => map (fun p => parseInt (trim p)) (split "," s)
  | DepNumber z => [Num z]
  | DepArray l =>
      map (fun it => match it with
                     | ItemNumber z => parseInt (String_of_Z z)
                     | ItemString s => parseInt s
                     end) l
  | DepOther => []
  end.

Section Restore.
(** [stamp i] is the text of [Date.now() + Math.random()] at the [i]-th
    step; the program relies on these being fresh. *)
Variable stamp : nat -> string.

Definition freshId (i : nat) (step : FlowStep.t) : string :=
  "node-" ++ String_of_Z (FlowStep.sequence_order step) ++ "-" ++ stamp i.

(** One round of the first [forEach]: the node is pushed and the lookup
    overwritten. *)
Definition rebuildStep (st : list Node * gmap Z string) (ix : nat * FlowStep.t)
    : list Node * gmap Z string :=
  let '(i, step) := ix in
  let nid := freshId i step in
  ((fst st ++ [ {| id := nid; data := nodeData step |} ])%list,
   <[FlowStep.sequence_order step := nid]> (snd st)).

Fixpoint indexed {A : Type} (i : nat) (l : list A) : list (nat * A) :=
  match l with
  | [] => []
  | x :: r => (i, x) :: indexed (S i) r
  end.

Definition rebuildSteps (json : FlowJson) : list Node * gmap Z string :=
  fold_left rebuildStep (indexed 0%nat (steps json)) ([startNode], ∅).

(** [sequenceToIdMap[n]] for a number [n]. *)
Definition lookupSeq (m : gmap Z string) (n : num) : option string :=
  match n with
  | Num z => m !! z
  | NaN => None
  end.

Definition startEdge (targetId : string) : Edge :=
  {| edge_id := "edge-start-" ++ targetId; source := "start"; target := targetId |}.

Definition stepEdge (sourceId targetId : string) : Edge :=
  {| edge_id := "edge-" ++ sourceId ++ "-" ++ targetId;
     source := sourceId; target := targetId |}.

(** A. Iteration edges *)
Definition iterationEdges (json : FlowJson) (m : gmap Z string) : list Edge :=
  match iterate_flow json, iterable_steps json with
  | true, Some l =>
      flat_map (fun seq => match m !! seq with
                           | Some targetId => [startEdge targetId]
                           | None => []
                           end) l
  | _, _ => []
  end.

(** [json.iterate_flow && json.iterable_steps?.includes(1)] *)
Definition isIterated (json : FlowJson) : bool :=
  iterate_flow json &&
  match iterable_steps json with
  | Some l => includesZ l 1
  | None => false
  end.

(** B. The edges one step record contributes.  [targetId] is always
    defined: the record's own order was entered in the lookup.  [prevSeq]
    is the double nearest to [sequence_order - 1]. *)
Definition dependencyEdges (json : FlowJson) (m : gmap Z string)
    (step : FlowStep.t) : list Edge :=
  let targetId := m !! FlowStep.sequence_order step in
  if truthy_dep (FlowStep.depends_on step) then
    match FlowStep.depends_on step with
    | Some dep =>
        flat_map (fun sourceSeq =>
                    match lookupSeq m sourceSeq, targetId with
                    | Some sourceId, Some targetId => [stepEdge sourceId targetId]
                    | _, _ => []
                    end) (depSources dep)
    | None => []
    end
  else if Z.eqb (FlowStep.sequence_order step) 1 then
    if isIterated json then []
    else match targetId with
         | Some targetId => [startEdge targetId]
         | None => []
         end
  else
    match m !! double (FlowStep.sequence_order step - 1), targetId with
    | Some sourceId, Some targetId => [stepEdge sourceId targetId]
    | _, _ => []
    end.

Record Restored : Type := mkRestored {
  r_nodes : list Node;
  r_edges : list Edge;
  r_flowName : string;
  r_iterateFlow : bool;
  r_getIterateList : string
}.

Definition restoreFlowFromJson (json : FlowJson) : Restored :=
  let '(newNodes, sequenceToIdMap) := rebuildSteps json in
  {| r_nodes := newNodes;
     r_edges := (iterationEdges json sequenceToIdMap
                 ++ flat_map (dependencyEdges json sequenceToIdMap) (steps json))%list;
     r_flowName := or_str (flow_name json) "Imported Flow";
     r_iterateFlow := iterate_flow json;
     r_getIterateList :=
       match get_iterate_list json with
       | Some q => or_str q ""
       | None => ""
       end |}.

Definition restoredConfig (r : Restored) : GlobalConfig :=
  {| iterateFlow := r_iterateFlow r;
     getIterateList := r_getIterateList r;
     flowName := r_flowName r |}.

(** Compile, import, compile again. *)
Definition recompile (json : FlowJson) : FlowJson :=
  let r := restoreFlowFromJson json in
  generateFlowJson (r_nodes r) (r_edges r) (restoredConfig r).
End Restore.

(** ** The validator: the [flowWarnings] block of [App] *)

(** [l.indexOf(z)], [-1] when absent. *)
Fixpoint indexOf (l : list Z) (z : Z) : Z :=
  match l with
  | [] => -1
  | x :: r =>
      if Z.eqb x z then 0
      else let i := indexOf r z in if Z.ltb i 0 then -1 else i + 1
  end.

Definition duplicateOrders (nodes : list Node) : list Z :=
  let orders := map order nodes in
  map snd
    (List.filter (fun ix => negb (Z.eqb (indexOf orders (snd ix)) (Z.of_nat (fst ix))))
       (indexed 0%nat orders)).

Definition hasDuplicates (nodes : list Node) : bool :=
  negb (Nat.eqb (List.length (duplicateOrders nodes)) 0).

Definition startEdgesCount (edges : list Edge) : nat :=
  List.length (List.filter (fun e => String.eqb (source e) "start") edges).

Definition msgDuplicate : string := "Duplicate Sequence # Detected".
Definition msgStart : string := "Invalid Start Connection (Single path only)".
Definition msgConcat : string := "Flow must end with CONCAT".
Definition msgQuery : string := "Iteration Query Empty".

Definition stepPrefix (node : Node) : string :=
  "Step " ++ String_of_Z (order node) ++ ": ".

Definition msgEmptySql (node : Node) : string :=
  stepPrefix node ++ "SQL Query is empty".
Definition msgTime (node : Node) : string :=
  stepPrefix node ++ "Incomplete Time Configuration".
Definition msgNeedsIteration (node : Node) : string :=
  stepPrefix node ++ "{{iteration_value}} requires Iterated Flow".
Definition msgNeedsStart (node : Node) : string :=
  stepPrefix node ++ "{{iteration_value}} used but not connected to Start".
Definition msgNotConnected (node : Node) (tag : string) (stepNum : num) : string :=
  stepPrefix node ++ "{{" ++ tag ++ "}} used but Step " ++ String_of_num stepNum
  ++ " is not connected".

(** The [reduce] that finds the last node by sequence. *)
Definition lastNode (first : Node) (l : list Node) : Node :=
  fold_left (fun prev current => if Z.gtb (order prev) (order current) then prev else current)
            l first.

Definition isType (t : StepType) (node : Node) : bool :=
  match FlowNodeData.type (data node) with
  | Some t' => StepType_eqb t' t
  | None => false
  end.

Section Validate.
Variables (nodes : list Node) (edges : list Edge).
Variables (iterateFlow' : bool) (getIterateList' : string).

Definition globalWarnings : list string :=
  ((if hasDuplicates nodes then [msgDuplicate] else [])
   ++ (if negb iterateFlow' && Nat.ltb 1 (startEdgesCount edges) then [msgStart] else [])
   ++ (match stepNodes nodes with
       | [] => []
       | (first :: _) as l =>
           if isType CONCAT (lastNode first l) then [] else [msgConcat]
       end)
   ++ (if iterateFlow' && String.eqb (trim getIterateList') "" then [msgQuery] else []))%list.

Definition sourceIds (node : Node) : list string :=
  map source (List.filter (fun e => String.eqb (target e) (id node)) edges).

Definition predecessors (node : Node) : list Node :=
  List.filter (fun n => includes (sourceIds node) (id n)) nodes.

Definition isConnectedToStart (node : Node) : bool :=
  includes (sourceIds node) "start".

Definition uniqueTags (node : Node) : list string :=
  uniq [] (matchAllTags (FlowNodeData.value (data node))).

(** The body of [uniqueTags.forEach]. *)
Definition tagWarnings (node : Node) (tag : string) : list string :=
  if String.eqb tag "iteration_value" then
    if negb iterateFlow' then [msgNeedsIteration node]
    else if negb (isConnectedToStart node) then [msgNeedsStart node]
    else []
  else if startsWith "step_" tag then
    match parseInt (removeFirst "step_" tag) with
    | Num stepNum =>
        if existsb (fun p => Z.eqb (order p) stepNum) (predecessors node) then []
        else [msgNotConnected node tag (Num stepNum)]
    | NaN => []
    end
  else [].

(** The body of [nodes.forEach]. *)
Definition nodeWarnings (node : Node) : list string :=
  if isStart node then []
  else
    ((if isType SQL node
         && (String.eqb (FlowNodeData.value (data node)) ""
             || String.eqb (trim (FlowNodeData.value (data node))) "")
      then [msgEmptySql node] else [])
     ++ (if isType SQL node && truthy_str (FlowNodeData.append_time_column (data node))
            && (negb (truthy_num (FlowNodeData.time_amount (data node)))
                || negb (truthy_str (FlowNodeData.time_grain (data node)))
                || negb (truthy_str (FlowNodeData.time_mode (data node))))
         then [msgTime node] else [])
     ++ flat_map (tagWarnings node) (uniqueTags node))%list.

Definition flowWarnings : list string :=
  (globalWarnings ++ flat_map nodeWarnings nodes)%list.
End Validate.

(** ** The store: connecting and adding *)

(** [Connection]: either end may be [null]. *)
Record Connection : Type := mkConnection {
  c_source : option string;
  c_target : option string
}.

Definition validateConnections (iterateFlow' : bool) (source' target' : string)
    (currentEdges : list Edge) : bool :=
  if String.eqb source' "start" then
    let existingStartEdges :=
      List.filter (fun e => String.eqb (source e) "start") currentEdges in
    if negb iterateFlow' && Nat.ltb 0 (List.length existingStartEdges) then false
    else true
  else true.

(** Modelled from the spec: [addEdge] comes from the reactflow package and
    is not part of the sources.  The data model allows at most one edge per
    ordered pair: an edge that is already there is not added again,
    otherwise the new edge goes to the end. *)
Definition addEdge (e : Edge) (eds : list Edge) : list Edge :=
  if existsb (fun el => String.eqb (source el) (source e)
                        && String.eqb (target el) (target e)) eds
  then eds
  else (eds ++ [e])%list.

Definition connectionEdge (s t : string) : Edge :=
  {| edge_id := "reactflow__edge-" ++ s ++ "-" ++ t; source := s; target := t |}.

(** The state update of [onConnect]: the edges after the call. *)
Definition onConnect (iterateFlow' : bool) (params : Connection) (eds : list Edge)
    : list Edge :=
  if negb (truthy_str (c_source params)) || negb (truthy_str (c_target params)) then eds
  else
    match c_source params, c_target params with
    | Some s, Some t =>
        if negb (validateConnections iterateFlow' s t eds) then eds
        else addEdge (connectionEdge s t) eds
    | _, _ => eds
    end.

(** [addNode]: the new node goes to the end, one past the highest order,
    as far as doubles go: [maxOrder + 1] is rounded. *)
Definition maxOrder (nodes : list Node) : Z :=
  fold_left (fun m n => Z.max m (order n)) nodes 0.

Definition upper (t : StepType) : string :=
  match t with SQL => "SQL" | LLM => "LLM" | CONCAT => "CONCAT" end.

Definition addNode (stamp : string) (t : StepType) (nodes : list Node) : list Node :=
  (nodes ++
   [ {| id := "node-" ++ String_of_Z (Z.of_nat (List.length nodes) + 1) ++ "-" ++ stamp;
        data := {| FlowNodeData.label := "New " ++ upper t ++ " Step";
                   FlowNodeData.sequence_order := double (maxOrder nodes + 1);
                   FlowNodeData.type := Some t;
                   FlowNodeData.value := "";
                   FlowNodeData.append_iteration_column := None;
                   FlowNodeData.append_time_column := None;
                   FlowNodeData.time_amount := None;
                   FlowNodeData.time_grain := None;
                   FlowNodeData.time_mode := None;
                   FlowNodeData.reference_date := None;
                   FlowNodeData.llm_model := None;
                   FlowNodeData.max_retry := None;
                   FlowNodeData.isStartNode := false |} |} ])%list.

(** ** The rest of the editor: deleting, updating, selecting *)

(** [Partial<FlowNodeData>]: a field that is [None] is absent from the
    object; an optional field, when present, may hold [undefined]. *)
Module Partial.
Record t : Type := mk {
  label : option string;
  sequence_order : option Z;
  type : option (option StepType);
  value : option string;
  append_iteration_column : option (option string);
  append_time_column : option (option string);
  time_amount : option (option num);
  time_grain : option (option string);
  time_mode : option (option string);
  reference_date : option (option string);
  llm_model : option (option string);
  max_retry : option (option num);
  isStartNode : option bool
}.

Definition empty : t :=
  mk None None None None None None None None None None None None None.
End Partial.

(** [x] overridden by the field of a spread object, when it has one. *)
Definition spread {A : Type} (x : A) (o : option A) : A :=
  match o with
  | Some v => v
  | None => x
  end.

(** [{ ...node.data, ...newData }] *)
Definition mergeData (d : FlowNodeData.t) (p : Partial.t) : FlowNodeData.t :=
  {| FlowNodeData.label := spread (FlowNodeData.label d) (Partial.label p);
     FlowNodeData.sequence_order :=
       spread (FlowNodeData.sequence_order d) (Partial.sequence_order p);
     FlowNodeData.type := spread (FlowNodeData.type d) (Partial.type p);
     FlowNodeData.value := spread (FlowNodeData.value d) (Partial.value p);
     FlowNodeData.append_iteration_column :=
       spread (FlowNodeData.append_iteration_column d) (Partial.append_iteration_column p);
     FlowNodeData.append_time_column :=
       spread (FlowNodeData.append_time_column d) (Partial.append_time_column p);
     FlowNodeData.time_amount := spread (FlowNodeData.time_amount d) (Partial.time_amount p);
     FlowNodeData.time_grain := spread (FlowNodeData.time_grain d) (Partial.time_grain p);
     FlowNodeData.time_mode := spread (FlowNodeData.time_mode d) (Partial.time_mode p);
     FlowNodeData.reference_date :=
       spread (FlowNodeData.reference_date d) (Partial.reference_date p);
     FlowNodeData.llm_model := spread (FlowNodeData.llm_model d) (Partial.llm_model p);
     FlowNodeData.max_retry := spread (FlowNodeData.max_retry d) (Partial.max_retry p);
     FlowNodeData.isStartNode := spread (FlowNodeData.isStartNode d) (Partial.isStartNode p) |}.

(** The state update of [updateNodeData]. *)
Definition updateNodeData (id' : string) (newData : Partial.t) (nds : list Node)
    : list Node :=
  map (fun node =>
         if String.eqb (id node) id'
         then {| id := id node; data := mergeData (data node) newData |}
         else node) nds.

(** The one-key objects that [handleChange] of the sidebar builds. *)
Inductive Field : Type :=
| FLabel (s : string)
| FSequenceOrder (z : Z)
| FType (t : StepType)
| FValue (s : string)
| FAppendIterationColumn (s : string)
| FAppendTimeColumn (s : string)
| FTimeAmount (z : Z)
| FTimeGrain (s : string)
| FTimeMode (s : string)
| FLlmModel (s : string).

Definition partialOf (f : Field) : Partial.t :=
  match f with
  | FLabel s =>
      Partial.mk (Some s) None None None None None None None None None None None None
  | FSequenceOrder z =>
      Partial.mk None (Some z) None None None None None None None None None None None
  | FType t =>
      Partial.mk None None (Some (Some t)) None None None None None None None None None None
  | FValue s =>
      Partial.mk None None None (Some s) None None None None None None None None None
  | FAppendIterationColumn s =>
      Partial.mk None None None None (Some (Some s)) None None None None None None None None
  | FAppendTimeColumn s =>
      Partial.mk None None None None None (Some (Some s)) None None None None None None None
  | FTimeAmount z =>
      Partial.mk None None None None None None (Some (Some (Num z))) None None None None None None
  | FTimeGrain s =>
      Partial.mk None None None None None None None (Some (Some s)) None None None None None
  | FTimeMode s =>
      Partial.mk None None None None None None None None (Some (Some s)) None None None None
  | FLlmModel s =>
      Partial.mk None None None None None None None None None None (Some (Some s)) None None
  end.

(** The state of [App] that the handlers read and write. *)
Record AppState : Type := mkAppState {
  a_nodes : list Node;
  a_edges : list Edge;
  a_selectedNodeId : option string;
  a_selectedEdgeId : option string;
  a_flowName : string;
  a_iterateFlow : bool;
  a_getIterateList : string
}.

Definition INITIAL_FLOW_NAME : string := "My New Automation".

Definition initialState : AppState :=
  {| a_nodes := [startNode];
     a_edges := [];
     a_selectedNodeId := None;
     a_selectedEdgeId := None;
     a_flowName := INITIAL_FLOW_NAME;
     a_iterateFlow := false;
     a_getIterateList := "" |}.

(** [selectedNodeId !== 'start'] *)
Definition notStart (o : option string) : bool :=
  match o with
  | Some s => negb (String.eqb s "start")
  | None => true
  end.

Definition strictNe (o : option string) (s : string) : bool :=
  match o with
  | Some x => negb (String.eqb s x)
  | None => true
  end.

Definition deleteSelected (st : AppState) : AppState :=
  if truthy_str (a_selectedNodeId st) && notStart (a_selectedNodeId st) then
    {| a_nodes := List.filter (fun n => strictNe (a_selectedNodeId st) (id n)) (a_nodes st);
       a_edges := List.filter (fun e => strictNe (a_selectedNodeId st) (source e)
                                        && strictNe (a_selectedNodeId st) (target e))
                              (a_edges st);
       a_selectedNodeId := None;
       a_selectedEdgeId := a_selectedEdgeId st;
       a_flowName := a_flowName st;
       a_iterateFlow := a_iterateFlow st;
       a_getIterateList := a_getIterateList st |}
  else if truthy_str (a_selectedEdgeId st) then
    {| a_nodes := a_nodes st;
       a_edges := List.filter (fun e => strictNe (a_selectedEdgeId st) (edge_id e)) (a_edges st);
       a_selectedNodeId := a_selectedNodeId st;
       a_selectedEdgeId := None;
       a_flowName := a_flowName st;
       a_iterateFlow := a_iterateFlow st;
       a_getIterateList := a_getIterateList st |}
  else st.

(** What the user and the file reader can do to the state. *)
Inductive Action : Type :=
| Connect (params : Connection)
| NodeClick (nodeId : string)
| EdgeClick (edgeId : string)
| PaneClick
| AddNode (stamp : string) (t : StepType)
| DeleteSelected
| UpdateField (nodeId : string) (f : Field)
| SetFlowName (s : string)
| SetIterateFlow (b : bool)
| SetGetIterateList (s : string)
| Import (stamp : nat -> string) (json : FlowJson).

Definition newNodeId (stamp : string) (nodes : list Node) : string :=
  "node-" ++ String_of_Z (Z.of_nat (List.length nodes) + 1) ++ "-" ++ stamp.

(** One handler call. *)
Definition act (a : Action) (st : AppState) : AppState :=
  match a with
  | Connect params =>
      {| a_nodes := a_nodes st;
         a_edges := onConnect (a_iterateFlow st) params (a_edges st);
         a_selectedNodeId := a_selectedNodeId st;
         a_selectedEdgeId := a_selectedEdgeId st;
         a_flowName := a_flowName st;
         a_iterateFlow := a_iterateFlow st;
         a_getIterateList := a_getIterateList st |}
  | NodeClick nodeId =>
      {| a_nodes := a_nodes st;
         a_edges := a_edges st;
         a_selectedNodeId := Some nodeId;
         a_selectedEdgeId := None;
         a_flowName := a_flowName st;
         a_iterateFlow := a_iterateFlow st;
         a_getIterateList := a_getIterateList st |}
  | EdgeClick edgeId =>
      {| a_nodes := a_nodes st;
         a_edges := a_edges st;
         a_selectedNodeId := None;
         a_selectedEdgeId := Some edgeId;
         a_flowName := a_flowName st;
         a_iterateFlow := a_iterateFlow st;
         a_getIterateList := a_getIterateList st |}
  | PaneClick =>
      {| a_nodes := a_nodes st;
         a_edges := a_edges st;
         a_selectedNodeId := None;
         a_selectedEdgeId := None;
         a_flowName := a_flowName st;
         a_iterateFlow := a_iterateFlow st;
         a_getIterateList := a_getIterateList st |}
  | AddNode stamp t =>
      {| a_nodes := addNode stamp t (a_nodes st);
         a_edges := a_edges st;
         a_selectedNodeId := Some (newNodeId stamp (a_nodes st));
         a_selectedEdgeId := None;
         a_flowName := a_flowName st;
         a_iterateFlow := a_iterateFlow st;
         a_getIterateList := a_getIterateList st |}
  | DeleteSelected => deleteSelected st
  | UpdateField nodeId f =>
      {| a_nodes := updateNodeData nodeId (partialOf f) (a_nodes st);
         a_edges := a_edges st;
         a_selectedNodeId := a_selectedNodeId st;
         a_selectedEdgeId := a_selectedEdgeId st;
         a_flowName := a_flowName st;
         a_iterateFlow := a_iterateFlow st;
         a_getIterateList := a_getIterateList st |}
  | SetFlowName s =>
      {| a_nodes := a_nodes st;
         a_edges := a_edges st;
         a_selectedNodeId := a_selectedNodeId st;
         a_selectedEdgeId := a_selectedEdgeId st;
         a_flowName := s;
         a_iterateFlow := a_iterateFlow st;
         a_getIterateList := a_getIterateList st |}
  | SetIterateFlow b =>
      {| a_nodes := a_nodes st;
         a_edges := a_edges st;
         a_selectedNodeId := a_selectedNodeId st;
         a_selectedEdgeId := a_selectedEdgeId st;
         a_flowName := a_flowName st;
         a_iterateFlow := b;
         a_getIterateList := a_getIterateList st |}
  | SetGetIterateList s =>
      {| a_nodes := a_nodes st;
         a_edges := a_edges st;
         a_selectedNodeId := a_selectedNodeId st;
         a_selectedEdgeId := a_selectedEdgeId st;
         a_flowName := a_flowName st;
         a_iterateFlow := a_iterateFlow st;
         a_getIterateList := s |}
  | Import stamp json =>
      let restored := restoreFlowFromJson stamp json in
      {| a_nodes := r_nodes restored;
         a_edges := r_edges restored;
         a_selectedNodeId := None;
         a_selectedEdgeId := None;
         a_flowName := r_flowName restored;
         a_iterateFlow := r_iterateFlow restored;
         a_getIterateList := r_getIterateList restored |}
  end.

(** The states that a session can reach. *)
Definition run (actions : list Action) (st : AppState) : AppState :=
  fold_left (fun s a => act a s) actions st.

(** [handleExport] *)
Definition handleExport (st : AppState) : FlowJson :=
  generateFlowJson (a_nodes st) (a_edges st)
    {| iterateFlow := a_iterateFlow st;
       getIterateList := a_getIterateList st;
       flowName := a_flowName st |}.

(** [isStartConfigurationValid], which colours the start edges. *)
Definition isStartConfigurationValid (iterateFlow' : bool) (edges : list Edge) : bool :=
  if iterateFlow' then true else Nat.leb (startEdgesCount edges) 1.

(** [visibleEdges]: the colour and the dash pattern of every edge. *)
Record Styled : Type := mkStyled {
  styled : Edge;
  stroke : string;
  strokeDasharray : string
}.

Definition visibleEdge (iterateFlow' isStartConfigurationValid' : bool) (edge : Edge)
    : Styled :=
  let isStartEdge := String.eqb (source edge) "start" in
  if isStartEdge then
    if negb isStartConfigurationValid'
    then {| styled := edge; stroke := "#ef4444"; strokeDasharray := "0" |}
    else if iterateFlow'
    then {| styled := edge; stroke := "#059669"; strokeDasharray := "5,5" |}
    else {| styled := edge; stroke := "#2563eb"; strokeDasharray := "0" |}
  else {| styled := edge; stroke := "#2563eb"; strokeDasharray := "0" |}.

Definition visibleEdges (iterateFlow' : bool) (edges : list Edge) : list Styled :=
  map (visibleEdge iterateFlow' (isStartConfigurationValid iterateFlow' edges)) edges.

(** ** The variables offered for the selected node *)

Record Dependency : Type := mkDependency {
  dep_id : string;
  sequence : Z;
  dep_label : string
}.

Definition selectedNodeDependencies (selectedNodeId : option string)
    (nodes : list Node) (edges : list Edge) : list Dependency * bool :=
  if negb (truthy_str selectedNodeId) then ([], false)
  else
    let incomingEdges := List.filter (fun e => negb (strictNe selectedNodeId (target e))) edges in
    let sourceIds' := map source incomingEdges in
    (sort_by sequence
       (map (fun n => {| dep_id := id n; sequence := order n;
                         dep_label := FlowNodeData.label (data n) |})
            (List.filter (fun n => includes sourceIds' (id n) && negb (isStart n)) nodes)),
     includes sourceIds' "start").

(** ** The sidebar's own placeholder check: [invalidPlaceholders] *)

Definition sidebarTagErrors (iterateFlow' isStartConnected : bool)
    (availablePredecessors : list Dependency) (tag : string) : list string :=
  if String.eqb tag "iteration_value" then
    if negb iterateFlow' || negb isStartConnected
    then ["{{" ++ tag ++ "}} (Not connected to iteration)"]
    else []
  else if startsWith "step_" tag then
    let stepNum := parseInt (removeFirst "step_" tag) in
    let found := existsb (fun p => match stepNum with
                                   | Num z => Z.eqb (sequence p) z
                                   | NaN => false
                                   end) availablePredecessors in
    if found then []
    else ["{{" ++ tag ++ "}} (Step " ++ String_of_num stepNum ++ " not connected)"]
  else [].

Definition invalidPlaceholders (data' : option FlowNodeData.t)
    (iterateFlow' isStartConnected : bool) (availablePredecessors : list Dependency)
    : list string :=
  match data' with
  | None => []
  | Some d =>
      if FlowNodeData.isStartNode d || String.eqb (FlowNodeData.value d) "" then []
      else uniq [] (flat_map (sidebarTagErrors iterateFlow' isStartConnected
                                               availablePredecessors)
                             (matchAllTags (FlowNodeData.value d)))
  end.

(** [data.value + `{{${tag}}}`], the value that a variable button of the
    sidebar hands to [handleChange]. *)
Definition insertVariable (value' tag : string) : string :=
  (value' ++ "{{" ++ tag ++ "}}")%string.

(** ** The staircase layout and the conflict mark *)

(** [orderCounts], an object keyed by sequence order. *)
Definition orderCounts (currentNodes : list Node) : gmap Z nat :=
  fold_left (fun (m : gmap Z nat) n =>
               <[order n := (match m !! order n with Some c => c | None => 0%nat end + 1)%nat]> m)
            currentNodes ∅.

(** [peers.findIndex(p => p.id === s)], [-1] when absent. *)
Fixpoint findIndex (s : string) (peers : list Node) : Z :=
  match peers with
  | [] => -1
  | p :: r =>
      if String.eqb (id p) s then 0
      else let i := findIndex s r in if Z.ltb i 0 then -1 else i + 1
  end.

Record Placed : Type := mkPlaced {
  placed : Node;
  pos_x : ext;
  pos_y : ext;
  hasError : bool
}.

(** The body of [currentNodes.map] in the layout effect.  The products and
    sums of the positions are those of doubles; [index * 20] is exact, an
    array index being below 2^32. *)
Definition placeNode (currentNodes : list Node) (n : Node) : Placed :=
  let isDuplicate :=
    match orderCounts currentNodes !! order n with
    | Some c => Nat.ltb 1 c
    | None => false
    end in
  let newX := plus (number (order n * 300)) 50 in
  let newY := plus (number (order n * 150)) 50 in
  let peers := List.filter (fun p => Z.eqb (order p) (order n)) currentNodes in
  if Nat.ltb 1 (List.length peers) then
    let index := findIndex (id n) peers in
    {| placed := n; pos_x := plus newX (index * 20); pos_y := plus newY (index * 20);
       hasError := isDuplicate |}
  else {| placed := n; pos_x := newX; pos_y := newY; hasError := isDuplicate |}.

Definition updatedNodes (currentNodes : list Node) : list Placed :=
  map (placeNode currentNodes) currentNodes.

(** ** The delivery dialog *)

(** [handleArrayInput] *)
Definition handleArrayInput (text : string) : list string :=
  List.filter (fun s => negb (String.eqb s "")) (map trim (split "," text)).

(** [tempConfig.filter((_, i) => i !== idx)] *)
Definition removeRule {A : Type} (idx : nat) (tempConfig : list A) : list A :=
  map snd (List.filter (fun ix => negb (Nat.eqb (fst ix) idx)) (indexed 0%nat tempConfig)).

Definition addRule (tempConfig : list DeliveryConfig) : list DeliveryConfig :=
  (tempConfig ++ [ {| method := "email"; recipients := []; iteration_names := [] |} ])%list.

(** ** Vocabulary of the statements *)

(** The integers on which doubles compute exactly and which the program
    prints in plain decimal: those below 2^53 in magnitude. *)
Definition safeInteger (z : Z) : Prop := Z.abs z < 2 ^ 53.

(** The sequence orders and the time amounts of the steps are safe
    integers. *)
Definition safeNumbers (nodes : list Node) : Prop :=
  forall n, In n (stepNodes nodes) ->
            safeInteger (order n)
            /\ forall a, FlowNodeData.time_amount (data n) = Some (Num a) -> safeInteger a.

(** A message of a per-node rule: they all begin with [Step]. *)
Definition isStepMessage (m : string) : Prop := exists r, m = String "S" r.

(** Whether a character occurs in a string. *)
Fixpoint hasChar (c : ascii) (s : string) : bool :=
  match s with
  | EmptyString => false
  | String a r => Ascii.eqb a c || hasChar c r
  end.

Fixpoint allChars (P : ascii -> bool) (s : string) : bool :=
  match s with
  | EmptyString => true
  | String c r => P c && allChars P r
  end.

Definition isDigit (c : ascii) : bool :=
  match digit_of_ascii c with Some _ => true | None => false end.

(** The characters of a printed integer. *)
Definition numChar (c : ascii) : bool := isDigit c || Ascii.eqb c "-".

(** The grain that the reverse parse accepts. *)
Definition knownGrain (g : string) : option string :=
  if includes TimeGrain_values g then Some g else None.

(** [p] is a direct predecessor of [node] that is not the start node. *)
Definition directPred (edges : list Edge) (node p : Node) : Prop :=
  isStart p = false
  /\ exists e, In e edges /\ source e = id p /\ target e = id node
               /\ source e <> "start".

Definition isDirectPred (edges : list Edge) (node p : Node) : bool :=
  includes (map source (incomingDependencyEdges edges node)) (id p) && negb (isStart p).

(** Nodes and step records with the optional fields left out. *)
Definition plainData (lbl : string) (o : Z) (t : StepType) (v : string) : FlowNodeData.t :=
  {| FlowNodeData.label := lbl;
     FlowNodeData.sequence_order := o;
     FlowNodeData.type := Some t;
     FlowNodeData.value := v;
     FlowNodeData.append_iteration_column := None;
     FlowNodeData.append_time_column := None;
     FlowNodeData.time_amount := None;
     FlowNodeData.time_grain := None;
     FlowNodeData.time_mode := None;
     FlowNodeData.reference_date := None;
     FlowNodeData.llm_model := None;
     FlowNodeData.max_retry := None;
     FlowNodeData.isStartNode := false |}.

Definition plainStep (o : Z) (name : string) (t : StepType) (v : string) : FlowStep.t :=
  {| FlowStep.sequence_order := o;
     FlowStep.sequence_name := name;
     FlowStep.type := t;
     FlowStep.value := v;
     FlowStep.depends_on := None;
     FlowStep.max_retry := None;
     FlowStep.append_iteration_column := None;
     FlowStep.append_time_column := None;
     FlowStep.time_range := None;
     FlowStep.time_grain := None;
     FlowStep.time_mode := None;
     FlowStep.reference_date := None;
     FlowStep.llm_model := None |}.

Definition withTimeRange (range : string) (s : FlowStep.t) : FlowStep.t :=
  {| FlowStep.sequence_order := FlowStep.sequence_order s;
     FlowStep.sequence_name := FlowStep.sequence_name s;
     FlowStep.type := FlowStep.type s;
     FlowStep.value := FlowStep.value s;
     FlowStep.depends_on := FlowStep.depends_on s;
     FlowStep.max_retry := FlowStep.max_retry s;
     FlowStep.append_iteration_column := FlowStep.append_iteration_column s;
     FlowStep.append_time_column := Some "created_at";
     FlowStep.time_range := Some range;
     FlowStep.time_grain := FlowStep.time_grain s;
     FlowStep.time_mode := FlowStep.time_mode s;
     FlowStep.reference_date := FlowStep.reference_date s;
     FlowStep.llm_model := FlowStep.llm_model s |}.

(** The node that import makes of the [i]-th step record. *)
Definition stepNodeAt (stamp : nat -> string) (i : nat) (step : FlowStep.t) : Node :=
  {| id := freshId stamp i step; data := nodeData step |}.

(** The last entry of an indexed list of step records with a given order. *)
Fixpoint lastEntry (o : Z) (l : list (nat * FlowStep.t)) : option (nat * FlowStep.t) :=
  match l with
  | [] => None
  | x :: r =>
      match lastEntry o r with
      | Some y => Some y
      | None => if Z.eqb (FlowStep.sequence_order (snd x)) o then Some x else None
      end
  end.

(** The [j]-th step record is [s], and no later record has its order. *)
Definition lastOfOrder (l : list FlowStep.t) (j : nat) (s : FlowStep.t) : Prop :=
  nth_error l j = Some s
  /\ forall k s', (j < k)%nat -> nth_error l k = Some s' ->
                  FlowStep.sequence_order s' <> FlowStep.sequence_order s.

(** One overwrite of the lookup, as the first pass of import does it. *)
Definition enterId (stamp : nat -> string) (m : gmap Z string) (ix : nat * FlowStep.t)
    : gmap Z string :=
  <[FlowStep.sequence_order (snd ix) := freshId stamp (fst ix) (snd ix)]> m.

(** Stamps that are visibly distinct: the decimal text of the index. *)
Definition decimalStamp (i : nat) : string := String_of_Z (Z.of_nat i).

Definition withDependsOn (dep : string) (s : FlowStep.t) : FlowStep.t :=
  {| FlowStep.sequence_order := FlowStep.sequence_order s;
     FlowStep.sequence_name := FlowStep.sequence_name s;
     FlowStep.type := FlowStep.type s;
     FlowStep.value := FlowStep.value s;
     FlowStep.depends_on := Some (DepString dep);
     FlowStep.max_retry := FlowStep.max_retry s;
     FlowStep.append_iteration_column := FlowStep.append_iteration_column s;
     FlowStep.append_time_column := FlowStep.append_time_column s;
     FlowStep.time_range := FlowStep.time_range s;
     FlowStep.time_grain := FlowStep.time_grain s;
     FlowStep.time_mode := FlowStep.time_mode s;
     FlowStep.reference_date := FlowStep.reference_date s;
     FlowStep.llm_model := FlowStep.llm_model s |}.

Definition plainJson (name : string) (l : list FlowStep.t) : FlowJson :=
  {| flow_name := name;
     iterate_flow := false;
     iterable_steps := None;
     get_iterate_list := None;
     steps := l;
     delivery_config := None |}.

Definition iteratingJson (name query : string) (iterable : list Z) (l : list FlowStep.t)
    : FlowJson :=
  {| flow_name := name;
     iterate_flow := true;
     iterable_steps := Some iterable;
     get_iterate_list := Some query;
     steps := l;
     delivery_config := None |}.

(** The graphs on which compiling, importing and compiling again returns
    the first document. *)

(** The sequence orders of the steps are distinct. *)
Definition distinctOrders (nodes : list Node) : Prop :=
  List.NoDup (map order (stepNodes nodes)).

(** The flow and every step carry a name. *)
Definition named (nodes : list Node) (cfg : GlobalConfig) : Prop :=
  flowName cfg <> ""
  /\ forall n, In n (stepNodes nodes) -> FlowNodeData.label (data n) <> "".

(** Every [time_grain] is a value of the enumeration. *)
Definition grainsTyped (nodes : list Node) : Prop :=
  forall n g, In n (stepNodes nodes) ->
              FlowNodeData.time_grain (data n) = Some g -> In g TimeGrain_values.

(** No step relies on an edge that import would have to guess: a step
    without a direct predecessor other than start has order 1 and, in an
    iterating flow, an edge from start, or else no step has the order just
    below its own. *)
Definition explicitlyWired (nodes : list Node) (edges : list Edge) (cfg : GlobalConfig)
    : Prop :=
  forall n, In n (stepNodes nodes) ->
            (forall p, In p nodes -> ~ directPred edges n p) ->
            (order n = 1 -> iterateFlow cfg = true ->
             exists e, In e edges /\ source e = "start" /\ target e = id n)
            /\ (order n <> 1 ->
                forall p, In p (stepNodes nodes) -> order p <> order n - 1).

(** The nodes that import makes of the step records. *)
Definition restoredSteps (stamp : nat -> string) (json : FlowJson) : list Node :=
  map (fun ix => stepNodeAt stamp (fst ix) (snd ix)) (indexed 0 (steps json)).

(** An iterating flow: a timed query connected to start, then a
    concatenation that depends on it. *)
Definition timedQuery : Node :=
  {| id := "q";
     data := {| FlowNodeData.label := "Orders";
                FlowNodeData.sequence_order := 1;
                FlowNodeData.type := Some SQL;
                FlowNodeData.value := "SELECT * FROM orders WHERE c = {{iteration_value}}";
                FlowNodeData.append_iteration_column := Some "customer";
                FlowNodeData.append_time_column := Some "created_at";
                FlowNodeData.time_amount := Some (Num 7);
                FlowNodeData.time_grain := Some "day";
                FlowNodeData.time_mode := Some "closed_open";
                FlowNodeData.reference_date := None;
                FlowNodeData.llm_model := None;
                FlowNodeData.max_retry := Some (Num 3);
                FlowNodeData.isStartNode := false |} |}.

Definition report : Node := {| id := "c"; data := plainData "Report" 2 CONCAT "{{step_1}}" |}.

Definition exampleNodes : list Node := [startNode; timedQuery; report].

Definition exampleEdges : list Edge :=
  [ {| edge_id := "e0"; source := "start"; target := "q" |};
    {| edge_id := "e1"; source := "q"; target := "c" |} ].

Definition exampleConfig : GlobalConfig :=
  {| iterateFlow := true; getIterateList := "SELECT id FROM t"; flowName := "Weekly" |}.

(** The second of two spread objects wins where it has a field. *)
Definition overlay (p1 p2 : Partial.t) : Partial.t :=
  let pick {A : Type} (a b : option A) : option A :=
    match b with Some _ => b | None => a end in
  {| Partial.label := pick (Partial.label p1) (Partial.label p2);
     Partial.sequence_order := pick (Partial.sequence_order p1) (Partial.sequence_order p2);
     Partial.type := pick (Partial.type p1) (Partial.type p2);
     Partial.value := pick (Partial.value p1) (Partial.value p2);
     Partial.append_iteration_column :=
       pick (Partial.append_iteration_column p1) (Partial.append_iteration_column p2);
     Partial.append_time_column :=
       pick (Partial.append_time_column p1) (Partial.append_time_column p2);
     Partial.time_amount := pick (Partial.time_amount p1) (Partial.time_amount p2);
     Partial.time_grain := pick (Partial.time_grain p1) (Partial.time_grain p2);
     Partial.time_mode := pick (Partial.time_mode p1) (Partial.time_mode p2);
     Partial.reference_date := pick (Partial.reference_date p1) (Partial.reference_date p2);
     Partial.llm_model := pick (Partial.llm_model p1) (Partial.llm_model p2);
     Partial.max_retry := pick (Partial.max_retry p1) (Partial.max_retry p2);
     Partial.isStartNode := pick (Partial.isStartNode p1) (Partial.isStartNode p2) |}.

(** Exactly one node is the start node, and it alone is called [start]. *)
Definition oneStart (nodes : list Node) : Prop :=
  List.length (List.filter isStart nodes) = 1%nat
  /\ forall n, In n nodes -> (isStart n = true <-> id n = "start").

(** Every end of every edge is the identifier of a node. *)
Definition closedGraph (nodes : list Node) (edges : list Edge) : Prop :=
  forall e, In e edges -> In (source e) (map id nodes) /\ In (target e) (map id nodes).

(** Actions that neither switch iteration on nor import a document. *)
Definition plainAction (a : Action) : bool :=
  match a with
  | SetIterateFlow b => negb b
  | Import _ _ => false
  | _ => true
  end.

(** Not both a node and an edge are selected. *)
Definition selectionExclusive (st : AppState) : Prop :=
  truthy_str (a_selectedNodeId st) = false \/ truthy_str (a_selectedEdgeId st) = false.

(** The entry of the variable list that a node gives. *)
Definition dependencyOf (n : Node) : Dependency :=
  {| dep_id := id n; sequence := order n; dep_label := FlowNodeData.label (data n) |}.

(** A text written with the variable buttons: plain pieces without an
    opening brace, each followed by a tag, and a plain rest. *)
Fixpoint template (segs : list (string * string)) (rest : string) : string :=
  match segs with
  | [] => rest
  | (v, t) :: r => (v ++ "{{" ++ t ++ "}}" ++ template r rest)%string
  end.

Definition plainText (v : string) : Prop := hasChar "{" v = false.

Definition tagText (t : string) : Prop :=
  hasChar "}" t = false /\ allChars (fun c => negb (isLineTerminator c)) t = true.

Definition wellFormed (segs : list (string * string)) (rest : string) : Prop :=
  Forall (fun vt => plainText (fst vt) /\ tagText (snd vt)) segs /\ plainText rest.

(** The variables that the sidebar offers as buttons, those of the steps
    with a safe integer for sequence number: their buttons write the
    number in plain decimal. *)
Definition offered (iterateFlow' isStartConnected : bool)
    (availablePredecessors : list Dependency) (tag : string) : Prop :=
  (tag = "iteration_value"%string /\ iterateFlow' = true /\ isStartConnected = true)
  \/ exists p, In p availablePredecessors
               /\ safeInteger (sequence p)
               /\ tag = ("step_" ++ String_of_Z (sequence p))%string.

(** * Properties *)

(** ** Doubles *)

(** Up to 2^53 in magnitude an integer is a double. *)
Lemma double_exact (z : Z) : Z.abs z <= 2 ^ 53 -> double z = z.
Proof.
  intros H. unfold double. cbv zeta.
  destruct (Z.ltb_spec (Z.abs z) (2 ^ 53)) as [_|Hge]; [reflexivity|].
  change (2 ^ 53) with 9007199254740992 in H, Hge.
  assert (Hz : z = 9007199254740992 \/ z = - 9007199254740992) by lia.
  destruct Hz as [->| ->]; vm_compute; reflexivity.
Qed.

Lemma double_safe (z : Z) : safeInteger z -> double z = z.
Proof. unfold safeInteger. intros H. apply double_exact. lia. Qed.

(** One below or above a safe integer is still a double. *)
Lemma double_pred (z : Z) : safeInteger z -> double (z - 1) = z - 1.
Proof. unfold safeInteger. intros H. apply double_exact. lia. Qed.

Lemma double_succ (z : Z) : safeInteger z -> double (z + 1) = z + 1.
Proof. unfold safeInteger. intros H. apply double_exact. lia. Qed.

Lemma number_exact (z : Z) : Z.abs z <= 2 ^ 53 -> number z = Fin z.
Proof.
  intros H. unfold number. rewrite (double_exact z H).
  assert (Hlt : Z.abs z < 2 ^ 1024).
  { apply Z.le_lt_trans with (2 ^ 53); [exact H|]. apply Z.pow_lt_mono_r; lia. }
  apply Z.ltb_lt in Hlt. now rewrite Hlt.
Qed.

(** ** Small facts about lists and strings *)

Lemma String_eqb_eq (a b : string) : String.eqb a b = true <-> a = b.
Proof. apply String.eqb_eq. Qed.

Lemma includes_In (l : list string) (s : string) : includes l s = true <-> In s l.
Proof.
  unfold includes. rewrite existsb_exists. split.
  - intros [x [Hx He]]. apply String.eqb_eq in He. now subst.
  - intros H. exists s. split; [assumption | apply String.eqb_refl].
Qed.

Lemma includesZ_In (l : list Z) (z : Z) : includesZ l z = true <-> In z l.
Proof.
  unfold includesZ. rewrite existsb_exists. split.
  - intros [x [Hx He]]. apply Z.eqb_eq in He. now subst.
  - intros H. exists z. split; [assumption | apply Z.eqb_refl].
Qed.

Lemma length_filter_pos {A : Type} (f : A -> bool) (l : list A) :
  (0 < List.length (List.filter f l))%nat <-> exists x, In x l /\ f x = true.
Proof.
  induction l as [|a l IH]; simpl.
  - split; [lia | intros [x [[] _]]].
  - destruct (f a) eqn:Hfa; simpl.
    + split; [intros _; exists a; auto | lia].
    + rewrite IH. split.
      * intros [x [Hx Hf]]. exists x. auto.
      * intros [x [[->|Hx] Hf]]; [congruence | exists x; auto].
Qed.

(** ** The store *)

Lemma validateConnections_false (it : bool) (s t : string) (eds : list Edge) :
  validateConnections it s t eds = false <->
  s = "start" /\ (exists e, In e eds /\ source e = "start") /\ it = false.
Proof.
  unfold validateConnections.
  destruct (String.eqb s "start") eqn:Hs.
  - apply String.eqb_eq in Hs. subst s.
    destruct it; simpl.
    + split; [discriminate | intros (_ & _ & H); discriminate].
    + destruct (Nat.ltb 0 _) eqn:Hlt.
      * apply Nat.ltb_lt in Hlt. apply length_filter_pos in Hlt.
        destruct Hlt as [e [He Hse]]. apply String.eqb_eq in Hse.
        split; [intros _; repeat split; eauto | reflexivity].
      * apply Nat.ltb_ge in Hlt. split; [discriminate |].
        intros (_ & [e [He Hse]] & _). exfalso.
        assert (0 < List.length (List.filter (fun e => String.eqb (source e) "start") eds))%nat.
        { apply length_filter_pos. exists e. split; [assumption|].
          now apply String.eqb_eq. }
        lia.
  - apply String.eqb_neq in Hs. split; [discriminate | intros (H & _); contradiction].
Qed.

Lemma addEdge_connects (e : Edge) (eds : list Edge) :
  exists e', In e' (addEdge e eds) /\ source e' = source e /\ target e' = target e.
Proof.
  unfold addEdge. destruct (existsb _ eds) eqn:Hex.
  - apply existsb_exists in Hex. destruct Hex as [el [Hin Heq]].
    apply andb_true_iff in Heq. destruct Heq as [H1 H2].
    apply String.eqb_eq in H1, H2. exists el. auto.
  - exists e. split; [apply in_or_app; right; now left | auto].
Qed.

Lemma addEdge_keeps (e : Edge) (eds : list Edge) (x : Edge) :
  In x eds -> In x (addEdge e eds).
Proof.
  unfold addEdge. destruct (existsb _ eds); [auto | intros H; apply in_or_app; now left].
Qed.

Lemma truthy_str_Some (s : string) : s <> "" -> truthy_str (Some s) = true.
Proof.
  intros H. simpl. destruct (String.eqb s "") eqn:E; [|reflexivity].
  apply String.eqb_eq in E. contradiction.
Qed.

(** C3.  A connection with both ends given is rejected exactly when it
    leaves the start node, a start edge is already there and the flow does
    not iterate; a rejected connection leaves the edges as they were, and
    every other connection goes through to [addEdge], after which an edge
    from the source to the target is present (whatever cycle that closes). *)
Theorem connect_rejected_iff (it : bool) (s t : string) (eds : list Edge) :
  s <> "" -> t <> "" ->
  let params := {| c_source := Some s; c_target := Some t |} in
  (validateConnections it s t eds = false <->
   s = "start" /\ (exists e, In e eds /\ source e = "start") /\ it = false)
  /\ (validateConnections it s t eds = false -> onConnect it params eds = eds)
  /\ (validateConnections it s t eds = true ->
      onConnect it params eds = addEdge (connectionEdge s t) eds
      /\ (forall x, In x eds -> In x (onConnect it params eds))
      /\ exists e, In e (onConnect it params eds) /\ source e = s /\ target e = t).
Proof.
  intros Hs Ht params. split; [apply validateConnections_false|].
  unfold onConnect, params. cbn [c_source c_target].
  rewrite (truthy_str_Some s Hs), (truthy_str_Some t Ht). cbn [negb orb].
  split; intros Hv; rewrite Hv; cbn [negb]; [reflexivity|].
  split; [reflexivity|]. split; [apply addEdge_keeps|].
  apply (addEdge_connects (connectionEdge s t) eds).
Qed.

Lemma connect_rejected_iff_witness :
  validateConnections false "start" "b"
    [ {| edge_id := "e"; source := "start"; target := "a" |} ] = false
  /\ onConnect false {| c_source := Some "start"; c_target := Some "b" |}
       [ {| edge_id := "e"; source := "start"; target := "a" |} ]
     = [ {| edge_id := "e"; source := "start"; target := "a" |} ].
Proof.
  pose proof (connect_rejected_iff false "start" "b"
                [ {| edge_id := "e"; source := "start"; target := "a" |} ]) as H.
  cbv zeta in H.
  assert (H1 : "start" <> "") by discriminate.
  assert (H2 : "b" <> "") by discriminate.
  destruct (H H1 H2) as (_ & Hrej & _).
  split; [reflexivity | apply Hrej; reflexivity].
Defined.

(** A connection that closes a cycle is accepted like any other. *)
Example connect_cycle_accepted :
  onConnect false {| c_source := Some "b"; c_target := Some "a" |}
    [ {| edge_id := "e"; source := "a"; target := "b" |} ]
  = [ {| edge_id := "e"; source := "a"; target := "b" |};
      {| edge_id := "reactflow__edge-b-a"; source := "b"; target := "a" |} ].
Proof. reflexivity. Qed.

(** ** The validator: which rule can emit which message *)

Lemma stepPrefix_message (node : Node) (rest : string) :
  isStepMessage (stepPrefix node ++ rest).
Proof. unfold stepPrefix. simpl. eexists. reflexivity. Qed.

Lemma tagWarnings_step nodes edges it node tag m :
  In m (tagWarnings nodes edges it node tag) -> isStepMessage m.
Proof.
  unfold tagWarnings, msgNeedsIteration, msgNeedsStart, msgNotConnected.
  repeat match goal with
         | |- context [if ?c then _ else _] => destruct c
         | |- context [match parseInt ?s with _ => _ end] => destruct (parseInt s)
         end; simpl; intros H; try contradiction;
    destruct H as [<-|[]]; apply stepPrefix_message.
Qed.

Lemma nodeWarnings_step nodes edges it node m :
  In m (nodeWarnings nodes edges it node) -> isStepMessage m.
Proof.
  unfold nodeWarnings. destruct (isStart node); [intros []|].
  intros H. apply in_app_or in H. destruct H as [H|H].
  - destruct (_ && _); [destruct H as [<-|[]]; apply stepPrefix_message | destruct H].
  - apply in_app_or in H. destruct H as [H|H].
    + destruct (_ && _); [destruct H as [<-|[]]; apply stepPrefix_message | destruct H].
    + apply in_flat_map in H. destruct H as [tag [_ H]].
      eapply tagWarnings_step; eassumption.
Qed.

Lemma perNode_step nodes edges it l m :
  In m (flat_map (nodeWarnings nodes edges it) l) -> isStepMessage m.
Proof.
  intros H. apply in_flat_map in H. destruct H as [n [_ H]].
  eapply nodeWarnings_step; eassumption.
Qed.

Lemma count_occ_absent (l : list string) (m : string) :
  ~ In m l -> count_occ string_dec l m = 0%nat.
Proof. apply count_occ_not_In. Qed.

(** The duplicate message comes from the first global rule only. *)
Lemma duplicate_message_count nodes edges it q :
  count_occ string_dec (flowWarnings nodes edges it q) msgDuplicate
  = if hasDuplicates nodes then 1%nat else 0%nat.
Proof.
  unfold flowWarnings, globalWarnings.
  rewrite !count_occ_app.
  rewrite (count_occ_absent (flat_map _ _)).
  2:{ intros H. apply perNode_step in H. destruct H as [r Hr]. discriminate. }
  assert (E2 : forall b : bool, count_occ string_dec (if b then [msgStart] else []) msgDuplicate = 0%nat)
    by (intros []; reflexivity).
  assert (E3 : forall b : bool, count_occ string_dec (if b then [] else [msgConcat]) msgDuplicate = 0%nat)
    by (intros []; reflexivity).
  assert (E4 : forall b : bool, count_occ string_dec (if b then [msgQuery] else []) msgDuplicate = 0%nat)
    by (intros []; reflexivity).
  rewrite E2, E4.
  destruct (stepNodes nodes) as [|first l]; [|rewrite E3];
    destruct (hasDuplicates nodes); reflexivity.
Qed.

(** The terminal-type message comes from the third global rule only. *)
Lemma concat_message_In nodes edges it q :
  In msgConcat (flowWarnings nodes edges it q) <->
  match stepNodes nodes with
  | [] => False
  | (first :: _) as l => isType CONCAT (lastNode first l) = false
  end.
Proof.
  unfold flowWarnings, globalWarnings. rewrite !in_app_iff.
  assert (E1 : forall b : bool, In msgConcat (if b then [msgDuplicate] else []) <-> False).
  { intros []; simpl; [|tauto]. split; [intros [H|[]]; discriminate | tauto]. }
  assert (E2 : forall b : bool, In msgConcat (if b then [msgStart] else []) <-> False).
  { intros []; simpl; [|tauto]. split; [intros [H|[]]; discriminate | tauto]. }
  assert (E4 : forall b : bool, In msgConcat (if b then [msgQuery] else []) <-> False).
  { intros []; simpl; [|tauto]. split; [intros [H|[]]; discriminate | tauto]. }
  assert (E5 : In msgConcat (flat_map (nodeWarnings nodes edges it) nodes) <-> False).
  { split; [|tauto]. intros H. apply perNode_step in H. destruct H as [r Hr]. discriminate. }
  rewrite E1, E2, E4, E5.
  destruct (stepNodes nodes) as [|first l]; [simpl; tauto|].
  destruct (isType CONCAT (lastNode first (first :: l))); simpl.
  - split; [intros [[[]|[[]|[[]|[]]]]|[]] | discriminate].
  - split; [reflexivity | intros _; left; right; right; left; left; reflexivity].
Qed.

(** ** Duplicate sequence orders *)

Lemma indexed_In {A : Type} (l : list A) (k i : nat) (x : A) :
  In (i, x) (indexed k l) <-> (k <= i)%nat /\ nth_error l (i - k) = Some x.
Proof.
  revert k. induction l as [|a l IH]; intros k; simpl.
  - split; [intros [] | intros [_ H]; destruct (i - k)%nat; discriminate].
  - rewrite IH. split.
    + intros [H|[Hle Hn]].
      * injection H as -> ->. rewrite Nat.sub_diag. split; [lia | reflexivity].
      * split; [lia|]. replace (i - k)%nat with (S (i - S k)) by lia. exact Hn.
    + intros [Hle Hn]. destruct (i - k)%nat as [|d] eqn:Hd.
      * left. injection Hn as ->. f_equal. lia.
      * right. split; [lia|]. replace (i - S k)%nat with d by lia. exact Hn.
Qed.

(** [indexOf] finds the first position of a value that occurs. *)
Lemma indexOf_first (l : list Z) (z : Z) (j : nat) :
  nth_error l j = Some z ->
  exists i, indexOf l z = Z.of_nat i /\ (i <= j)%nat /\ nth_error l i = Some z
            /\ forall k, (k < i)%nat -> nth_error l k <> Some z.
Proof.
  revert j. induction l as [|a l IH]; intros j Hj.
  - destruct j; discriminate.
  - simpl. destruct (Z.eqb a z) eqn:Haz.
    + apply Z.eqb_eq in Haz. subst a. exists 0%nat.
      repeat split; [lia | intros k Hk; lia].
    + apply Z.eqb_neq in Haz. destruct j as [|j]; [simpl in Hj; congruence|].
      destruct (IH j Hj) as [i (Hi & Hle & Hnth & Hmin)].
      rewrite Hi. destruct (Z.ltb (Z.of_nat i) 0) eqn:Hlt; [apply Z.ltb_lt in Hlt; lia|].
      exists (S i). repeat split; [lia | lia | exact Hnth |].
      intros [|k] Hk; simpl; [congruence | apply Hmin; lia].
Qed.

Lemma hasDuplicates_iff (nodes : list Node) :
  hasDuplicates nodes = true <->
  exists i j n m, (i < j)%nat /\ nth_error nodes i = Some n
                  /\ nth_error nodes j = Some m /\ order n = order m.
Proof.
  unfold hasDuplicates, duplicateOrders.
  rewrite negb_true_iff, Nat.eqb_neq, length_map.
  set (orders := map order nodes).
  set (f := fun ix : nat * Z => negb (Z.eqb (indexOf orders (snd ix)) (Z.of_nat (fst ix)))).
  assert (Hpos : List.length (List.filter f (indexed 0 orders)) <> 0%nat
                 <-> exists x, In x (indexed 0 orders) /\ f x = true).
  { rewrite <- length_filter_pos. lia. }
  rewrite Hpos. clear Hpos. split.
  - intros [[j z] [Hin Hf]]. apply indexed_In in Hin. destruct Hin as [_ Hj].
    rewrite Nat.sub_0_r in Hj. unfold f in Hf. cbn [fst snd] in Hf.
    apply negb_true_iff, Z.eqb_neq in Hf.
    destruct (indexOf_first orders z j Hj) as [i (Hi & Hle & Hnth & _)].
    assert (Hij : (i < j)%nat) by lia.
    unfold orders in Hnth, Hj. rewrite nth_error_map in Hnth, Hj.
    destruct (nth_error nodes i) as [n|] eqn:Hn; [|discriminate].
    destruct (nth_error nodes j) as [m|] eqn:Hm; [|discriminate].
    exists i, j, n, m. simpl in Hnth, Hj. repeat split; auto; congruence.
  - intros (i & j & n & m & Hij & Hn & Hm & Heq).
    exists (j, order m). split.
    + apply indexed_In. split; [lia|]. rewrite Nat.sub_0_r.
      unfold orders. rewrite nth_error_map, Hm. reflexivity.
    + unfold f. cbn [fst snd]. apply negb_true_iff, Z.eqb_neq.
      assert (Hj : nth_error orders j = Some (order m)).
      { unfold orders. rewrite nth_error_map, Hm. reflexivity. }
      destruct (indexOf_first orders (order m) j Hj) as [i' (Hi' & _ & _ & Hmin)].
      rewrite Hi'. intros Habs. apply Nat2Z.inj in Habs. subst i'.
      apply (Hmin i Hij). unfold orders. rewrite nth_error_map, Hn. simpl. congruence.
Qed.

Lemma NoDup_nth_distinct {A : Type} (l : list A) (i j : nat) (x : A) :
  List.NoDup l -> (i < j)%nat -> nth_error l i = Some x -> nth_error l j = Some x -> False.
Proof.
  intros Hnd Hij Hi Hj.
  assert (Hlen : (i < List.length l)%nat) by (apply nth_error_Some; congruence).
  pose proof (proj1 (NoDup_nth_error l) Hnd i j Hlen) as H.
  rewrite Hi, Hj in H. specialize (H eq_refl). lia.
Qed.

(** C5 (as the program has it).  The duplicate-order diagnostic is emitted,
    once, exactly when two entries of the node list, the start node
    included, carry the same sequence order; a node list whose orders are
    all distinct, the start node's [0] included, never produces it. *)
Theorem duplicate_order_diagnostic (nodes : list Node) (edges : list Edge)
    (it : bool) (q : string) :
  (In msgDuplicate (flowWarnings nodes edges it q) <->
   exists i j n m, (i < j)%nat /\ nth_error nodes i = Some n
                   /\ nth_error nodes j = Some m /\ order n = order m)
  /\ (count_occ string_dec (flowWarnings nodes edges it q) msgDuplicate <= 1)%nat
  /\ (List.NoDup (map order nodes) -> ~ In msgDuplicate (flowWarnings nodes edges it q)).
Proof.
  assert (Hiff : In msgDuplicate (flowWarnings nodes edges it q)
                 <-> hasDuplicates nodes = true).
  { rewrite (count_occ_In string_dec), duplicate_message_count.
    destruct (hasDuplicates nodes); split; intros H; try lia; congruence. }
  split; [rewrite Hiff; apply hasDuplicates_iff|].
  split.
  - rewrite duplicate_message_count. destruct (hasDuplicates nodes); lia.
  - intros Hnd Hin. apply Hiff, hasDuplicates_iff in Hin.
    destruct Hin as (i & j & n & m & Hij & Hn & Hm & Heq).
    apply (NoDup_nth_distinct (map order nodes) i j (order n) Hnd Hij).
    + rewrite nth_error_map, Hn. reflexivity.
    + rewrite nth_error_map, Hm. simpl. congruence.
Qed.

Lemma duplicate_order_diagnostic_witness :
  List.NoDup (map order [startNode])
  /\ ~ In msgDuplicate (flowWarnings [startNode] [] false "").
Proof.
  assert (Hnd : List.NoDup (map order [startNode])).
  { simpl. constructor; [intros [] | constructor]. }
  split; [exact Hnd|].
  exact (proj2 (proj2 (duplicate_order_diagnostic [startNode] [] false "")) Hnd).
Defined.

(** C5, as stated, fails: one step whose order was set to [0] collides with
    the start node, although the orders of the steps are all distinct. *)
Lemma duplicate_order_counts_start :
  ~ (forall nodes edges it q,
        List.NoDup (map order (stepNodes nodes)) ->
        ~ In msgDuplicate (flowWarnings nodes edges it q)).
Proof.
  intros H.
  apply (H [startNode; {| id := "a"; data := plainData "A" 0 CONCAT "x" |}] [] false "").
  - simpl. constructor; [intros [] | constructor].
  - left. reflexivity.
Qed.

(** ** The last node by sequence *)

Lemma lastNode_cons (acc x : Node) (l : list Node) :
  lastNode acc (x :: l)
  = lastNode (if Z.gtb (order acc) (order x) then acc else x) l.
Proof. reflexivity. Qed.

Lemma lastNode_In_max (l : list Node) (acc : Node) :
  (lastNode acc l = acc \/ In (lastNode acc l) l)
  /\ order acc <= order (lastNode acc l)
  /\ forall n, In n l -> order n <= order (lastNode acc l).
Proof.
  revert acc. induction l as [|x l IH]; intros acc.
  - simpl. repeat split; [now left | lia | intros n []].
  - rewrite lastNode_cons.
    destruct (IH (if Z.gtb (order acc) (order x) then acc else x)) as (Hin & Hacc & Hall).
    destruct (Z.gtb (order acc) (order x)) eqn:Hgt.
    + apply Z.gtb_lt in Hgt. repeat split.
      * destruct Hin as [->|Hin]; [now left | right; now right].
      * exact Hacc.
      * intros n [<-|Hn]; [lia | now apply Hall].
    + assert (Hle : order acc <= order x).
      { destruct (Z.gtb_spec (order acc) (order x)); [discriminate | lia]. }
      repeat split.
      * right. destruct Hin as [->|Hin]; [now left | now right].
      * lia.
      * intros n [<-|Hn]; [exact Hacc | now apply Hall].
Qed.

Lemma lastNode_keeps (l : list Node) (acc : Node) :
  (forall n, In n l -> order n < order acc) -> lastNode acc l = acc.
Proof.
  revert acc. induction l as [|x l IH]; intros acc H; [reflexivity|].
  rewrite lastNode_cons.
  assert (Hx : order x < order acc) by (apply H; now left).
  destruct (Z.gtb_spec (order acc) (order x)); [|lia].
  apply IH. intros n Hn. apply H. now right.
Qed.

(** A node strictly above all the others is the one the [reduce] returns. *)
Lemma lastNode_strict_max (l1 l2 : list Node) (L acc : Node) :
  order acc <= order L ->
  (forall n, In n l1 \/ In n l2 -> order n < order L) ->
  lastNode acc (l1 ++ L :: l2) = L.
Proof.
  intros Hacc Hlt. unfold lastNode. rewrite fold_left_app.
  fold (lastNode acc l1).
  destruct (lastNode_In_max l1 acc) as ([Heq|Hin] & _ & _).
  - rewrite Heq.
    change (lastNode acc (L :: l2) = L). rewrite lastNode_cons.
    destruct (Z.gtb_spec (order acc) (order L)); [lia|].
    apply lastNode_keeps. intros n Hn. apply Hlt. now right.
  - set (a := lastNode acc l1) in *.
    change (lastNode a (L :: l2) = L). rewrite lastNode_cons.
    assert (order a < order L) by (apply Hlt; now left).
    destruct (Z.gtb_spec (order a) (order L)); [lia|].
    apply lastNode_keeps. intros n Hn. apply Hlt. now right.
Qed.

Lemma isType_false (t : StepType) (n : Node) :
  isType t n = false <-> FlowNodeData.type (data n) <> Some t.
Proof.
  unfold isType. destruct (FlowNodeData.type (data n)) as [t'|].
  - destruct t', t; simpl; split; intros H; try congruence; try discriminate;
      exfalso; apply H; reflexivity.
  - split; [discriminate | reflexivity].
Qed.

Lemma stepNodes_app (l1 l2 : list Node) :
  stepNodes (l1 ++ l2) = (stepNodes l1 ++ stepNodes l2)%list.
Proof. apply List.filter_app. Qed.

Lemma terminal_strict_max (ns : list Node) (edges : list Edge) (it : bool) (q : string)
    (l1 : list Node) (L : Node) (l2 : list Node) :
  stepNodes ns = (l1 ++ L :: l2)%list ->
  (forall n, In n l1 \/ In n l2 -> order n < order L) ->
  (In msgConcat (flowWarnings ns edges it q)
   <-> FlowNodeData.type (data L) <> Some CONCAT).
Proof.
  intros Hsplit Hlt. rewrite concat_message_In, Hsplit.
  assert (Hlast : forall first rest, (first :: rest = l1 ++ L :: l2)%list ->
                                     lastNode first (first :: rest) = L).
  { intros first rest E. rewrite E. apply lastNode_strict_max; [|exact Hlt].
    destruct l1 as [|a l1]; simpl in E; injection E as -> _; [lia|].
    apply Z.lt_le_incl, Hlt. left. now left. }
  destruct (l1 ++ L :: l2)%list as [|first rest] eqn:E.
  - destruct l1; discriminate.
  - rewrite (Hlast first rest eq_refl). apply isType_false.
Qed.

Lemma terminal_append_concat (nodes : list Node) (edges : list Edge) (it : bool)
    (q : string) (c : Node) :
  isStart c = false ->
  FlowNodeData.type (data c) = Some CONCAT ->
  (forall n, In n (stepNodes nodes) -> order n < order c) ->
  ~ In msgConcat (flowWarnings (nodes ++ [c]) edges it q).
Proof.
  intros Hc Hty Hlt Hin.
  apply (terminal_strict_max (nodes ++ [c])%list edges it q (stepNodes nodes) c []) in Hin.
  - contradiction.
  - rewrite stepNodes_app. f_equal. unfold stepNodes. simpl.
    unfold isStart in Hc |- *. rewrite Hc. reflexivity.
  - intros n [Hn|[]]. now apply Hlt.
Qed.

(** C6.  With no step the terminal-type diagnostic is never emitted.  With
    at least one step, the node [L] that decides is a step of maximal
    sequence order, and the diagnostic is emitted exactly when the kind of
    [L] is not CONCAT; when one step lies strictly above all the others it
    is that step.  Appending a CONCAT step strictly above every step
    removes the diagnostic. *)
Theorem terminal_type_diagnostic (nodes : list Node) (edges : list Edge)
    (it : bool) (q : string) :
  (stepNodes nodes = [] -> ~ In msgConcat (flowWarnings nodes edges it q))
  /\ (stepNodes nodes <> [] ->
      exists L, In L (stepNodes nodes)
                /\ (forall n, In n (stepNodes nodes) -> order n <= order L)
                /\ (In msgConcat (flowWarnings nodes edges it q)
                    <-> FlowNodeData.type (data L) <> Some CONCAT))
  /\ (forall l1 L l2,
        stepNodes nodes = (l1 ++ L :: l2)%list ->
        (forall n, In n l1 \/ In n l2 -> order n < order L) ->
        (In msgConcat (flowWarnings nodes edges it q)
         <-> FlowNodeData.type (data L) <> Some CONCAT))
  /\ (forall c,
        isStart c = false ->
        FlowNodeData.type (data c) = Some CONCAT ->
        (forall n, In n (stepNodes nodes) -> order n < order c) ->
        ~ In msgConcat (flowWarnings (nodes ++ [c]) edges it q)).
Proof.
  split; [|split; [|split]].
  - intros Hnil. rewrite concat_message_In, Hnil. tauto.
  - intros Hne.
    destruct (stepNodes nodes) as [|first rest] eqn:E; [congruence|].
    exists (lastNode first (first :: rest)).
    destruct (lastNode_In_max (first :: rest) first) as (Hin & _ & Hall).
    split; [destruct Hin as [->|Hin]; [now left | exact Hin]|].
    split; [exact Hall | rewrite concat_message_In, E; apply isType_false].
  - apply terminal_strict_max.
  - apply terminal_append_concat.
Qed.

Lemma terminal_type_diagnostic_witness :
  In msgConcat
     (flowWarnings [startNode; {| id := "a"; data := plainData "A" 1 SQL "SELECT 1" |}]
                   [] false "")
  /\ ~ In msgConcat
       (flowWarnings ([startNode; {| id := "a"; data := plainData "A" 1 SQL "SELECT 1" |}]
                      ++ [ {| id := "b"; data := plainData "B" 2 CONCAT "x" |} ])
                     [] false "").
Proof.
  split.
  - vm_compute. left. reflexivity.
  - apply (proj2 (proj2 (proj2
             (terminal_type_diagnostic
                [startNode; {| id := "a"; data := plainData "A" 1 SQL "SELECT 1" |}]
                [] false "")))
             {| id := "b"; data := plainData "B" 2 CONCAT "x" |}).
    + reflexivity.
    + reflexivity.
    + intros n [<-|[]]. reflexivity.
Defined.

Lemma maxOrder_ge (nodes : list Node) (n : Node) :
  In n nodes -> order n <= maxOrder nodes.
Proof.
  unfold maxOrder. generalize 0.
  induction nodes as [|x l IH]; intros acc Hin; [destruct Hin|].
  simpl. destruct Hin as [->|Hin].
  - clear IH. assert (H : forall (l : list Node) (a : Z),
                        a <= fold_left (fun m n => Z.max m (order n)) l a).
    { intros l0. induction l0 as [|y l0 IHl]; intros a; simpl; [lia|].
      specialize (IHl (Z.max a (order y))). lia. }
    specialize (H l (Z.max acc (order n))). lia.
  - now apply IH.
Qed.

(** Adding a CONCAT step through [addNode] clears the terminal-type
    diagnostic: its order is one past the highest, as long as that is a
    safe integer. *)
Lemma addNode_concat_clears (stamp : string) (nodes : list Node) (edges : list Edge)
    (it : bool) (q : string) :
  safeInteger (maxOrder nodes) ->
  ~ In msgConcat (flowWarnings (addNode stamp CONCAT nodes) edges it q).
Proof.
  intros Hsafe. unfold addNode. apply terminal_append_concat.
  - reflexivity.
  - reflexivity.
  - intros n Hn. unfold order at 2. cbn [data FlowNodeData.sequence_order].
    rewrite (double_succ _ Hsafe).
    apply filter_In in Hn. destruct Hn as [Hn _].
    pose proof (maxOrder_ge nodes n Hn). lia.
Qed.

(** ** The compiled record of a step *)

Lemma steps_nth (nodes : list Node) (edges : list Edge) (cfg : GlobalConfig)
    (i : nat) (node : Node) :
  nth_error (sortedSteps nodes) i = Some node ->
  nth_error (steps (generateFlowJson nodes edges cfg)) i
  = Some (stepJson nodes edges node).
Proof.
  intros H. unfold generateFlowJson. cbn [steps].
  rewrite nth_error_map, H. reflexivity.
Qed.

Lemma truthy_str_iff (o : option string) :
  truthy_str o = true <-> exists s, o = Some s /\ s <> "".
Proof.
  destruct o as [s|]; simpl.
  - rewrite negb_true_iff. split.
    + intros H. exists s. split; [reflexivity|]. now apply String.eqb_neq.
    + intros [s' [[= <-] Hne]]. now apply String.eqb_neq.
  - split; [discriminate | intros [s [H _]]; discriminate].
Qed.

Lemma truthy_num_iff (o : option num) :
  truthy_num o = true <-> exists z, o = Some (Num z) /\ z <> 0.
Proof.
  destruct o as [[|z]|]; simpl.
  - split; [discriminate | intros [z [H _]]; discriminate].
  - rewrite negb_true_iff. split.
    + intros H. exists z. split; [reflexivity|]. now apply Z.eqb_neq.
    + intros [z' [[= <-] Hne]]. now apply Z.eqb_neq.
  - split; [discriminate | intros [z [H _]]; discriminate].
Qed.

Lemma keep_str_Some (o : option string) (s : string) :
  keep_str o = Some s <-> o = Some s /\ s <> "".
Proof.
  unfold keep_str. destruct (truthy_str o) eqn:E.
  - apply truthy_str_iff in E. destruct E as [s' [-> Hne]].
    split; [intros [= <-]; auto | intros [H _]; exact H].
  - split; [discriminate|]. intros [-> Hne].
    assert (truthy_str (Some s) = true) by (apply truthy_str_iff; eauto). congruence.
Qed.

(** C7.  For a step of kind SQL, where a field counts as set when it is
    truthy (a non-empty string, a number other than 0): the compiled
    record has [time_range] exactly when [append_time_column],
    [time_amount] and [time_grain] are all set, and then it reads
    [last_<amount>_<grain>s]; [time_grain] and [time_mode] appear exactly
    when [append_time_column] and the field itself are set, with the
    node's value; 7 and [day] give [last_7_days]. *)
Theorem compiled_time_range (nodes : list Node) (edges : list Edge)
    (cfg : GlobalConfig) (i : nat) (node : Node) :
  nth_error (sortedSteps nodes) i = Some node ->
  FlowNodeData.type (data node) = Some SQL ->
  exists r,
    nth_error (steps (generateFlowJson nodes edges cfg)) i = Some r
    /\ (FlowStep.time_range r <> None <->
        truthy_str (FlowNodeData.append_time_column (data node)) = true
        /\ truthy_num (FlowNodeData.time_amount (data node)) = true
        /\ truthy_str (FlowNodeData.time_grain (data node)) = true)
    /\ (forall z g,
          truthy_str (FlowNodeData.append_time_column (data node)) = true ->
          FlowNodeData.time_amount (data node) = Some (Num z) -> z <> 0 ->
          FlowNodeData.time_grain (data node) = Some g -> g <> "" ->
          FlowStep.time_range r = Some ("last_" ++ String_of_Z z ++ "_" ++ g ++ "s"))
    /\ (forall g, FlowStep.time_grain r = Some g <->
                  truthy_str (FlowNodeData.append_time_column (data node)) = true
                  /\ FlowNodeData.time_grain (data node) = Some g /\ g <> "")
    /\ (forall m, FlowStep.time_mode r = Some m <->
                  truthy_str (FlowNodeData.append_time_column (data node)) = true
                  /\ FlowNodeData.time_mode (data node) = Some m /\ m <> "")
    /\ timeRangeOf (Num 7) "day" = "last_7_days".
Proof.
  intros Hnth Hsql. exists (stepJson nodes edges node).
  split; [now apply steps_nth|].
  unfold stepJson. cbn [FlowStep.time_range FlowStep.time_grain FlowStep.time_mode].
  rewrite Hsql. cbn [andb]. unfold keep_str.
  destruct (FlowNodeData.append_time_column (data node)) as [c|];
    destruct (FlowNodeData.time_amount (data node)) as [[|z]|];
    destruct (FlowNodeData.time_grain (data node)) as [g|];
    destruct (FlowNodeData.time_mode (data node)) as [m|];
    cbn [truthy_str truthy_num];
    repeat match goal with
           | |- context [String.eqb ?a ""] => destruct (String.eqb_spec a "")
           | |- context [Z.eqb ?a 0] => destruct (Z.eqb_spec a 0)
           end;
    cbn [negb andb];
    (repeat split; intros;
     try reflexivity; try discriminate; try tauto; try congruence;
     try (intuition congruence);
     try match goal with
         | Ha : Some (Num _) = Some (Num _), Hg : Some _ = Some _ |- _ =>
             injection Ha as <-; injection Hg as <-; reflexivity
         end).
Qed.

Lemma compiled_time_range_witness :
  exists r,
    nth_error
      (steps (generateFlowJson
                [startNode;
                 {| id := "a";
                    data := {| FlowNodeData.label := "A";
                               FlowNodeData.sequence_order := 1;
                               FlowNodeData.type := Some SQL;
                               FlowNodeData.value := "SELECT 1";
                               FlowNodeData.append_iteration_column := None;
                               FlowNodeData.append_time_column := Some "created_at";
                               FlowNodeData.time_amount := Some (Num 7);
                               FlowNodeData.time_grain := Some "day";
                               FlowNodeData.time_mode := Some "closed_open";
                               FlowNodeData.reference_date := None;
                               FlowNodeData.llm_model := None;
                               FlowNodeData.max_retry := None;
                               FlowNodeData.isStartNode := false |} |}]
                [] {| iterateFlow := false; getIterateList := ""; flowName := "F" |}))
      0 = Some r
    /\ FlowStep.time_range r = Some "last_7_days".
Proof.
  edestruct (compiled_time_range
               [startNode;
                {| id := "a";
                   data := {| FlowNodeData.label := "A";
                              FlowNodeData.sequence_order := 1;
                              FlowNodeData.type := Some SQL;
                              FlowNodeData.value := "SELECT 1";
                              FlowNodeData.append_iteration_column := None;
                              FlowNodeData.append_time_column := Some "created_at";
                              FlowNodeData.time_amount := Some (Num 7);
                              FlowNodeData.time_grain := Some "day";
                              FlowNodeData.time_mode := Some "closed_open";
                              FlowNodeData.reference_date := None;
                              FlowNodeData.llm_model := None;
                              FlowNodeData.max_retry := None;
                              FlowNodeData.isStartNode := false |} |}]
               [] {| iterateFlow := false; getIterateList := ""; flowName := "F" |}
               0%nat) as [r (Hr & _ & Hval & _)].
  - reflexivity.
  - reflexivity.
  - exists r. split; [exact Hr|].
    apply (Hval 7 "day"); [reflexivity | reflexivity | lia | reflexivity | discriminate].
Defined.

(** ** Splitting and joining *)

Lemma split_nonempty (sep : ascii) (s : string) : split sep s <> [].
Proof.
  destruct s as [|c r]; simpl; [discriminate|].
  destruct (Ascii.eqb c sep); [discriminate|].
  destruct (split sep r); discriminate.
Qed.

Lemma join_cons (sep : string) (x y : string) (l : list string) :
  join sep (x :: y :: l) = x ++ sep ++ join sep (y :: l).
Proof. reflexivity. Qed.

(** The pieces of [split], glued with the separator, give the string back. *)
Lemma join_split (sep : ascii) (s : string) :
  join (String sep EmptyString) (split sep s) = s.
Proof.
  induction s as [|c r IH]; [reflexivity|].
  simpl split. destruct (Ascii.eqb_spec c sep) as [->|Hne].
  - pose proof (split_nonempty sep r) as Hn.
    destruct (split sep r) as [|p ps] eqn:E; [congruence|].
    rewrite join_cons, IH. reflexivity.
  - pose proof (split_nonempty sep r) as Hn.
    destruct (split sep r) as [|p ps] eqn:E; [congruence|].
    destruct ps as [|p' ps].
    + simpl in IH |- *. now rewrite IH.
    + rewrite join_cons. rewrite join_cons in IH. rewrite <- IH. reflexivity.
Qed.

(** No piece of [split] contains the separator. *)
Lemma split_pieces (sep : ascii) (s : string) :
  Forall (fun p => hasChar sep p = false) (split sep s).
Proof.
  induction s as [|c r IH]; simpl.
  - constructor; [reflexivity | constructor].
  - destruct (Ascii.eqb_spec c sep) as [->|Hne].
    + constructor; [reflexivity | exact IH].
    + destruct (split sep r) as [|p ps]; [constructor; [|constructor]|].
      * simpl. apply Ascii.eqb_neq in Hne. now rewrite Hne.
      * inversion IH as [|? ? Hp Hps]; subst. constructor; [|exact Hps].
        simpl. apply Ascii.eqb_neq in Hne. now rewrite Hne, Hp.
Qed.

Lemma split_no_sep (sep : ascii) (s : string) :
  hasChar sep s = false -> split sep s = [s].
Proof.
  induction s as [|c r IH]; [reflexivity|].
  simpl. intros H. apply orb_false_iff in H. destruct H as [Hc Hr].
  rewrite Hc, (IH Hr). reflexivity.
Qed.

Lemma split_app_sep (sep : ascii) (a b : string) :
  hasChar sep a = false ->
  split sep (a ++ String sep b) = a :: split sep b.
Proof.
  induction a as [|c r IH]; simpl; intros H.
  - now rewrite Ascii.eqb_refl.
  - apply orb_false_iff in H. destruct H as [Hc Hr].
    rewrite Hc, (IH Hr). reflexivity.
Qed.

(** Joining pieces that are free of the separator and splitting again gives
    the pieces. *)
Lemma split_join (sep : ascii) (l : list string) :
  l <> [] -> Forall (fun p => hasChar sep p = false) l ->
  split sep (join (String sep EmptyString) l) = l.
Proof.
  induction l as [|x l IH]; [congruence|].
  intros _ Hall. inversion Hall as [|? ? Hx Hl]; subst.
  destruct l as [|y l].
  - simpl. now apply split_no_sep.
  - rewrite join_cons.
    change (String sep EmptyString ++ join (String sep EmptyString) (y :: l))
      with (String sep (join (String sep EmptyString) (y :: l))).
    rewrite (split_app_sep sep x _ Hx). f_equal. apply IH; [discriminate | exact Hl].
Qed.

Lemma endsWith_snoc (c : ascii) (s : string) :
  endsWith c (s ++ String c EmptyString) = true.
Proof.
  induction s as [|a r IH]; simpl; [apply Ascii.eqb_refl|].
  destruct (r ++ String c EmptyString) eqn:E; [destruct r; discriminate | exact IH].
Qed.

Lemma dropLast_snoc (c : ascii) (s : string) :
  dropLast (s ++ String c EmptyString) = s.
Proof.
  induction s as [|a r IH]; simpl; [reflexivity|].
  destruct (r ++ String c EmptyString) eqn:E; [destruct r; discriminate|].
  now rewrite IH.
Qed.

Lemma endsWith_true (c : ascii) (s : string) :
  endsWith c s = true -> exists r, s = r ++ String c EmptyString.
Proof.
  induction s as [|a r IH]; simpl; [discriminate|].
  destruct r as [|b r'].
  - intros H. apply Ascii.eqb_eq in H. subst. exists EmptyString. reflexivity.
  - intros H. destruct (IH H) as [r0 Hr0]. exists (String a r0). simpl. now rewrite Hr0.
Qed.

(** ** The reverse parse of [time_range] *)

Lemma nodeData_time (step : FlowStep.t) :
  FlowNodeData.time_amount (nodeData step) = fst (parseTimeRange step)
  /\ FlowNodeData.time_grain (nodeData step) = snd (parseTimeRange step).
Proof. unfold nodeData. destruct (parseTimeRange step). split; reflexivity. Qed.

Lemma knownGrain_spec (g : string) :
  (g = "month" \/ g = "day" -> knownGrain g = Some g)
  /\ (g <> "month" -> g <> "day" -> knownGrain g = None).
Proof.
  unfold knownGrain, includes, TimeGrain_values. simpl.
  destruct (String.eqb_spec g "month"); [split; auto; congruence|].
  destruct (String.eqb_spec g "day"); [split; auto; congruence|].
  split; [intros [H|H]; congruence | reflexivity].
Qed.

(** C8 (as the program has it).  With [time_range] present and not empty,
    let [parts] be its pieces between underscores.  Fewer than three
    pieces leave amount and grain unset.  Otherwise the amount is
    [parseInt] of the second piece whatever the third piece is ([NaN] when
    it has no leading integer), and the grain is the third piece, less one
    trailing [s], when that is [month] or [day], and unset otherwise:
    the two are parsed independently.  With [time_range] absent or empty
    the amount is unset and a non-empty [time_grain] is taken as it is. *)
Theorem time_range_reverse_parse (step : FlowStep.t) :
  (truthy_str (FlowStep.time_range step) = false ->
   FlowNodeData.time_amount (nodeData step) = None
   /\ (forall g, FlowStep.time_grain step = Some g -> g <> "" ->
                 FlowNodeData.time_grain (nodeData step) = Some g)
   /\ (truthy_str (FlowStep.time_grain step) = false ->
       FlowNodeData.time_grain (nodeData step) = None))
  /\ (forall range,
        FlowStep.time_range step = Some range -> range <> "" ->
        let parts := split "_" range in
        join "_" parts = range
        /\ Forall (fun p => hasChar "_" p = false) parts
        /\ ((List.length parts < 3)%nat ->
            FlowNodeData.time_amount (nodeData step) = None
            /\ FlowNodeData.time_grain (nodeData step) = None)
        /\ (forall p0 a g rest,
              parts = p0 :: a :: g :: rest ->
              FlowNodeData.time_amount (nodeData step) = Some (parseInt a)
              /\ (forall g', g = g' ++ "s" ->
                             (g' = "month" \/ g' = "day" ->
                              FlowNodeData.time_grain (nodeData step) = Some g')
                             /\ (g' <> "month" -> g' <> "day" ->
                                 FlowNodeData.time_grain (nodeData step) = None))
              /\ ((forall g', g <> g' ++ "s") ->
                  (g = "month" \/ g = "day" ->
                   FlowNodeData.time_grain (nodeData step) = Some g)
                  /\ (g <> "month" -> g <> "day" ->
                      FlowNodeData.time_grain (nodeData step) = None)))).
Proof.
  destruct (nodeData_time step) as [-> ->]. unfold parseTimeRange. split.
  - intros Hf. rewrite Hf. cbn [fst snd]. split; [reflexivity|]. split.
    + intros g Hg Hne. apply keep_str_Some. auto.
    + intros Hg. unfold keep_str. now rewrite Hg.
  - intros range Hr Hne.
    assert (Ht : truthy_str (FlowStep.time_range step) = true)
      by (apply truthy_str_iff; eauto).
    rewrite Ht, Hr. set (parts := split "_" range).
    split; [apply (join_split "_" range)|].
    split; [apply split_pieces|].
    split.
    + intros Hlen. destruct parts as [|p0 [|a [|g rest]]]; simpl in Hlen; try lia; auto.
    + intros p0 a g rest ->. cbn [fst snd]. split; [reflexivity|].
      fold (knownGrain (if endsWith "s" g then dropLast g else g)).
      split.
      * intros g' ->. change (g' ++ "s") with (g' ++ String "s" EmptyString).
        rewrite endsWith_snoc, dropLast_snoc. apply knownGrain_spec.
      * intros Hns. destruct (endsWith "s" g) eqn:E.
        -- apply endsWith_true in E. destruct E as [r Hr']. exfalso. apply (Hns r Hr').
        -- apply knownGrain_spec.
Qed.

Lemma time_range_reverse_parse_witness :
  FlowNodeData.time_amount (nodeData (withTimeRange "last_7_days" (plainStep 1 "A" SQL "q")))
  = Some (Num 7)
  /\ FlowNodeData.time_grain (nodeData (withTimeRange "last_7_days" (plainStep 1 "A" SQL "q")))
     = Some "day".
Proof.
  pose proof (proj2 (time_range_reverse_parse
                       (withTimeRange "last_7_days" (plainStep 1 "A" SQL "q")))
                    "last_7_days" eq_refl) as H.
  assert (Hne : "last_7_days" <> "") by discriminate.
  destruct (H Hne) as (_ & _ & _ & Hparts).
  destruct (Hparts "last" "7" "days" [] eq_refl) as (Ha & Hs & _).
  split; [exact Ha|].
  apply (Hs "day" eq_refl). right. reflexivity.
Defined.

(** C8, as stated, fails: a grain that is not known does not leave the
    amount unset. *)
Lemma time_range_amount_survives :
  ~ (forall step range p0 a g rest,
        FlowStep.time_range step = Some range ->
        split "_" range = p0 :: a :: g :: rest ->
        FlowNodeData.time_grain (nodeData step) = None ->
        FlowNodeData.time_amount (nodeData step) = None).
Proof.
  intros H.
  specialize (H (withTimeRange "last_7_weeks" (plainStep 1 "A" SQL "q"))
                "last_7_weeks" "last" "7" "weeks" [] eq_refl eq_refl eq_refl).
  discriminate H.
Qed.

(** ** Printing and reading integers *)

Lemma digitsPrefix_print (u : Decimal.uint) :
  digitsPrefix (NilEmpty.string_of_uint u) = u.
Proof. induction u; simpl; congruence. Qed.

Lemma print_digits (u : Decimal.uint) :
  allChars isDigit (NilEmpty.string_of_uint u) = true.
Proof. induction u; simpl; auto. Qed.

Lemma allChars_weaken (P Q : ascii -> bool) (s : string) :
  (forall c, P c = true -> Q c = true) -> allChars P s = true -> allChars Q s = true.
Proof.
  intros H. induction s as [|c r IH]; simpl; [auto|].
  intros Hc. apply andb_true_iff in Hc. destruct Hc as [H1 H2].
  apply andb_true_iff. auto.
Qed.

(** The shape of a printed integer: digits, after a minus sign when
    negative, and at least one digit. *)
Lemma String_of_Z_shape (z : Z) :
  exists u, u <> Decimal.Nil
            /\ ((String_of_Z z = NilEmpty.string_of_uint u /\ z = Z.of_uint u)
                \/ (String_of_Z z = String "-" (NilEmpty.string_of_uint u)
                    /\ z = - Z.of_uint u)).
Proof.
  unfold String_of_Z. destruct z as [|p|p]; simpl.
  - exists (Decimal.D0 Decimal.Nil). split; [discriminate | left; split; reflexivity].
  - exists (Pos.to_uint p). pose proof (DecimalPos.Unsigned.to_uint_nonnil p) as Hn.
    split; [exact Hn|]. left. split.
    + unfold NilZero.string_of_uint. destruct (Pos.to_uint p); congruence.
    + unfold Z.of_uint. rewrite DecimalPos.Unsigned.of_to. reflexivity.
  - exists (Pos.to_uint p). pose proof (DecimalPos.Unsigned.to_uint_nonnil p) as Hn.
    split; [exact Hn|]. right. split.
    + unfold NilZero.string_of_uint. destruct (Pos.to_uint p); congruence.
    + unfold Z.of_uint. rewrite DecimalPos.Unsigned.of_to. reflexivity.
Qed.

Lemma String_of_Z_chars (z : Z) : allChars numChar (String_of_Z z) = true.
Proof.
  assert (Hd : forall u, allChars numChar (NilEmpty.string_of_uint u) = true).
  { intros u. apply (allChars_weaken isDigit); [|apply print_digits].
    intros c Hc. unfold numChar. now rewrite Hc. }
  destruct (String_of_Z_shape z) as [u [_ [[-> _]|[-> _]]]]; [apply Hd|].
  simpl. apply Hd.
Qed.

Lemma String_of_Z_nonempty (z : Z) : String_of_Z z <> "".
Proof.
  destruct (String_of_Z_shape z) as [u [Hu [[-> _]|[-> _]]]]; [|discriminate].
  destruct u; simpl; congruence.
Qed.

Lemma num_of_digits_print (neg : bool) (u : Decimal.uint) :
  u <> Decimal.Nil ->
  num_of_digits neg (NilEmpty.string_of_uint u)
  = Num (double (if neg then - Z.of_uint u else Z.of_uint u)).
Proof.
  intros Hu. unfold num_of_digits. rewrite digitsPrefix_print.
  destruct u; congruence.
Qed.

Lemma parseInt_digit_first (c : ascii) (r : string) :
  isDigit c = true -> parseInt (String c r) = num_of_digits false (String c r).
Proof.
  destruct c as [[] [] [] [] [] [] [] []]; intros H; try discriminate H; reflexivity.
Qed.

(** Reading a printed integer gives the nearest double. *)
Lemma parseInt_print (z : Z) : parseInt (String_of_Z z) = Num (double z).
Proof.
  destruct (String_of_Z_shape z) as [u [Hu [[-> ->]|[-> ->]]]].
  - pose proof (print_digits u) as Hd.
    destruct (NilEmpty.string_of_uint u) as [|c r] eqn:E; [destruct u; simpl in E; congruence|].
    simpl in Hd. apply andb_true_iff in Hd. destruct Hd as [Hc _].
    rewrite (parseInt_digit_first c r Hc), <- E. now apply num_of_digits_print.
  - change (parseInt (String "-" (NilEmpty.string_of_uint u)))
      with (num_of_digits true (NilEmpty.string_of_uint u)).
    now apply num_of_digits_print.
Qed.

(** Reading back a printed safe integer. *)
Lemma parseInt_String_of_Z (z : Z) : safeInteger z -> parseInt (String_of_Z z) = Num z.
Proof. intros H. now rewrite parseInt_print, double_safe. Qed.

Lemma numChar_not_space (c : ascii) : numChar c = true -> isWhiteSpace c = false.
Proof. destruct c as [[] [] [] [] [] [] [] []]; intros H; try discriminate H; reflexivity. Qed.

Lemma numChar_not_comma (c : ascii) : numChar c = true -> Ascii.eqb c "," = false.
Proof. destruct c as [[] [] [] [] [] [] [] []]; intros H; try discriminate H; reflexivity. Qed.

Lemma numChar_not_underscore (c : ascii) : numChar c = true -> Ascii.eqb c "_" = false.
Proof. destruct c as [[] [] [] [] [] [] [] []]; intros H; try discriminate H; reflexivity. Qed.

Lemma allChars_hasChar (P : ascii -> bool) (c : ascii) (s : string) :
  (forall a, P a = true -> Ascii.eqb a c = false) ->
  allChars P s = true -> hasChar c s = false.
Proof.
  intros H. induction s as [|a r IH]; simpl; [reflexivity|].
  intros Ha. apply andb_true_iff in Ha. destruct Ha as [H1 H2].
  now rewrite (H a H1), (IH H2).
Qed.

Lemma String_of_Z_no_comma (z : Z) : hasChar "," (String_of_Z z) = false.
Proof.
  apply (allChars_hasChar numChar); [apply numChar_not_comma | apply String_of_Z_chars].
Qed.

Lemma String_of_Z_no_underscore (z : Z) : hasChar "_" (String_of_Z z) = false.
Proof.
  apply (allChars_hasChar numChar); [apply numChar_not_underscore | apply String_of_Z_chars].
Qed.

(** Trimming a string without white space changes nothing. *)
Lemma trimStart_id (s : string) :
  allChars (fun c => negb (isWhiteSpace c)) s = true -> trimStart s = s.
Proof.
  destruct s as [|c r]; simpl; [reflexivity|].
  intros H. apply andb_true_iff in H. destruct H as [Hc _].
  apply negb_true_iff in Hc. now rewrite Hc.
Qed.

Lemma rev_string_chars (P : ascii -> bool) (s acc : string) :
  allChars P s = true -> allChars P acc = true -> allChars P (rev_string s acc) = true.
Proof.
  revert acc. induction s as [|c r IH]; simpl; intros acc Hs Hacc; [exact Hacc|].
  apply andb_true_iff in Hs. destruct Hs as [Hc Hr].
  apply IH; [exact Hr|]. simpl. now rewrite Hc, Hacc.
Qed.

Lemma rev_string_involutive (s : string) : rev_string (rev_string s "") "" = s.
Proof.
  assert (H : forall s acc, rev_string (rev_string s acc) "" = rev_string acc s).
  { intros s0. induction s0 as [|c r IH]; intros acc; simpl; [reflexivity|].
    rewrite IH. reflexivity. }
  rewrite H. reflexivity.
Qed.

Lemma trim_id (s : string) :
  allChars (fun c => negb (isWhiteSpace c)) s = true -> trim s = s.
Proof.
  intros H. unfold trim, trimEnd. rewrite (trimStart_id s H).
  rewrite trimStart_id; [apply rev_string_involutive|].
  apply rev_string_chars; [exact H | reflexivity].
Qed.

Lemma trim_String_of_Z (z : Z) : trim (String_of_Z z) = String_of_Z z.
Proof.
  apply trim_id. apply (allChars_weaken numChar); [|apply String_of_Z_chars].
  intros c Hc. now rewrite (numChar_not_space c Hc).
Qed.

(** ** Placeholders *)

Lemma substring_all (s : string) : String.substring 0 (String.length s) s = s.
Proof. induction s as [|c r IH]; simpl; [reflexivity | now rewrite IH]. Qed.

Lemma removeFirst_step (x : string) : removeFirst "step_" ("step_" ++ x) = x.
Proof.
  unfold removeFirst. simpl. rewrite Nat.sub_0_r. destruct x as [|c r]; simpl.
  - reflexivity.
  - now rewrite substring_all.
Qed.

Lemma startsWith_step (x : string) : startsWith "step_" ("step_" ++ x) = true.
Proof. unfold startsWith. simpl. destruct x; reflexivity. Qed.

Lemma sourceIds_In (edges : list Edge) (node : Node) (s : string) :
  In s (sourceIds edges node) <->
  exists e, In e edges /\ target e = id node /\ source e = s.
Proof.
  unfold sourceIds. rewrite in_map_iff. split.
  - intros [e [Hs He]]. apply filter_In in He. destruct He as [He Ht].
    apply String.eqb_eq in Ht. eauto.
  - intros [e (He & Ht & Hs)]. exists e. split; [exact Hs|].
    apply filter_In. split; [exact He | now apply String.eqb_eq].
Qed.

Lemma predecessors_In (nodes : list Node) (edges : list Edge) (node p : Node) :
  In p (predecessors nodes edges node) <->
  In p nodes /\ exists e, In e edges /\ target e = id node /\ source e = id p.
Proof.
  unfold predecessors. rewrite filter_In, includes_In, sourceIds_In. tauto.
Qed.


(** A path of two edges to the step referred to does not satisfy the check. *)
Example step_tag_transitive :
  let a := {| id := "a"; data := plainData "A" 3 SQL "SELECT 1" |} in
  let b := {| id := "b"; data := plainData "B" 2 LLM "{{step_3}}" |} in
  let c := {| id := "c"; data := plainData "C" 4 CONCAT "{{step_3}}" |} in
  flowWarnings [startNode; a; b; c]
    [ {| edge_id := "e0"; source := "start"; target := "a" |};
      {| edge_id := "e1"; source := "a"; target := "b" |};
      {| edge_id := "e2"; source := "b"; target := "c" |} ] false ""
  = ["Step 4: {{step_3}} used but Step 3 is not connected"].
Proof. vm_compute. reflexivity. Qed.

(** C2 (the program on the failing input).  A step that uses
    [{{step_0}}] and whose only incoming edge comes from the start node
    gets no diagnostic at all, although no edge from a step of order 0
    reaches it: the start node, of order 0, is taken for the predecessor. *)
Theorem placeholder_step0_start :
  let a := {| id := "a"; data := plainData "A" 1 CONCAT "{{step_0}}" |} in
  let nodes := [startNode; a] in
  let edges := [ {| edge_id := "e"; source := "start"; target := "a" |} ] in
  uniqueTags a = ["step_0"]
  /\ (forall e p, In e edges -> In p nodes -> target e = id a -> source e = id p ->
                  source e <> "start" -> order p <> 0)
  /\ tagWarnings nodes edges false a "step_0" = []
  /\ flowWarnings nodes edges false "" = [].
Proof.
  intros a nodes edges. split; [reflexivity|]. split.
  - intros e p [<-|[]] _ _ _ H. exfalso. apply H. reflexivity.
  - split; vm_compute; reflexivity.
Qed.

(** ** The stable sort *)

Section StableSortFacts.
Context {A : Type} (key : A -> Z).

Lemma insert_sorted_perm (x : A) (l : list A) :
  Permutation (insert_sorted key x l) (x :: l).
Proof.
  induction l as [|y r IH]; simpl; [reflexivity|].
  destruct (key x <=? key y)%Z; [reflexivity|].
  rewrite IH. apply perm_swap.
Qed.

Lemma sort_by_perm (l : list A) : Permutation (sort_by key l) l.
Proof.
  induction l as [|x r IH]; simpl; [reflexivity|].
  rewrite insert_sorted_perm. now constructor.
Qed.

Lemma insert_sorted_hd (x a : A) (l : list A) :
  le_key key a x -> HdRel (le_key key) a l -> HdRel (le_key key) a (insert_sorted key x l).
Proof.
  intros Hax Hl. destruct l as [|y r]; simpl; [now constructor|].
  destruct (key x <=? key y)%Z; constructor; [exact Hax|].
  now inversion Hl.
Qed.

Lemma insert_sorted_sorted (x : A) (l : list A) :
  Sorted (le_key key) l -> Sorted (le_key key) (insert_sorted key x l).
Proof.
  induction l as [|y r IH]; simpl; intros Hs.
  - constructor; constructor.
  - destruct (Z.leb_spec (key x) (key y)) as [Hle|Hgt].
    + constructor; [exact Hs | now constructor].
    + inversion Hs as [|? ? Hr Hhd]; subst. constructor; [now apply IH|].
      apply insert_sorted_hd; [unfold le_key; lia | exact Hhd].
Qed.

Lemma sort_by_sorted (l : list A) : Sorted (le_key key) (sort_by key l).
Proof.
  induction l as [|x r IH]; simpl; [constructor | now apply insert_sorted_sorted].
Qed.

(** Sorting what is sorted changes nothing: the sort is stable. *)
Lemma sort_by_id (l : list A) : Sorted (le_key key) l -> sort_by key l = l.
Proof.
  induction l as [|x r IH]; simpl; intros Hs; [reflexivity|].
  inversion Hs as [|? ? Hr Hhd]; subst. rewrite (IH Hr).
  destruct r as [|y r']; simpl; [reflexivity|].
  inversion Hhd as [|? ? Hxy]; subst. unfold le_key in Hxy.
  destruct (Z.leb_spec (key x) (key y)); [reflexivity | lia].
Qed.
End StableSortFacts.

Lemma Sorted_le_key_id (l : list Z) : Sorted (le_key (fun z => z)) l <-> Sorted Z.le l.
Proof. split; intros H; induction H; constructor; auto; destruct H0; constructor; auto. Qed.

(** ** The compiled dependencies *)

Lemma isDirectPred_spec (edges : list Edge) (node p : Node) :
  isDirectPred edges node p = true <-> directPred edges node p.
Proof.
  unfold isDirectPred, directPred, incomingDependencyEdges.
  rewrite andb_true_iff, negb_true_iff, includes_In, in_map_iff. split.
  - intros [[e [Hs He]] Hst]. split; [exact Hst|].
    apply filter_In in He. destruct He as [He Hc].
    apply andb_true_iff in Hc. destruct Hc as [Ht Hn].
    apply String.eqb_eq in Ht. apply negb_true_iff, String.eqb_neq in Hn.
    exists e. auto.
  - intros [Hst [e (He & Hs & Ht & Hn)]]. split; [|exact Hst].
    exists e. split; [exact Hs|]. apply filter_In. split; [exact He|].
    apply andb_true_iff. split; [now apply String.eqb_eq|].
    now apply negb_true_iff, String.eqb_neq.
Qed.

Lemma dependsOnList_eq (nodes : list Node) (edges : list Edge) (node : Node) :
  dependsOnList nodes edges node
  = sort_by (fun z => z) (map order (List.filter (isDirectPred edges node) nodes)).
Proof. reflexivity. Qed.

Lemma join_numbers_nonempty (x : Z) (l : list Z) :
  join "," (map String_of_Z (x :: l)) <> "".
Proof.
  pose proof (String_of_Z_nonempty x) as Hx.
  destruct l as [|y l]; simpl map.
  - exact Hx.
  - rewrite join_cons. destruct (String_of_Z x); [congruence | discriminate].
Qed.

Lemma stepJson_depends_on (nodes : list Node) (edges : list Edge) (node : Node) :
  FlowStep.depends_on (stepJson nodes edges node)
  = match dependsOnList nodes edges node with
    | [] => None
    | l => Some (DepString (join "," (map String_of_Z l)))
    end.
Proof.
  unfold stepJson. cbn [FlowStep.depends_on]. unfold dependsOnOrders.
  destruct (dependsOnList nodes edges node) as [|x l]; [reflexivity|].
  pose proof (join_numbers_nonempty x l) as Hne.
  destruct (String.eqb_spec (join "," (map String_of_Z (x :: l))) ""); [congruence | reflexivity].
Qed.

Lemma NoDup_map_filter {A B : Type} (f : A -> B) (g : A -> bool) (l : list A) :
  List.NoDup (map f l) -> List.NoDup (map f (List.filter g l)).
Proof.
  induction l as [|x r IH]; simpl; intros H; [constructor|].
  inversion H as [|? ? Hx Hr]; subst.
  destruct (g x); simpl; [|now apply IH].
  constructor; [|now apply IH].
  intros Hin. apply Hx. apply in_map_iff in Hin. destruct Hin as [y [Hy Hin]].
  apply filter_In in Hin. apply in_map_iff. exists y. tauto.
Qed.

Lemma filter_stepNodes (g : Node -> bool) (nodes : list Node) :
  (forall p, g p = true -> isStart p = false) ->
  List.filter g nodes = List.filter g (stepNodes nodes).
Proof.
  intros H. unfold stepNodes. induction nodes as [|x r IH]; simpl; [reflexivity|].
  destruct (g x) eqn:Hg.
  - rewrite (H x Hg). simpl. rewrite Hg. now rewrite IH.
  - destruct (isStart x); simpl; [exact IH | now rewrite Hg].
Qed.

(** C4 (as the program has it).  The [depends_on] of a compiled step is
    the comma-joined list, in ascending order, of the sequence orders of
    the entries of the node list that are direct predecessors and not the
    start node, one per such entry: predecessors that share an order
    repeat it, and when the orders of the steps are distinct no order is
    repeated.  The field is absent exactly when there is no such
    predecessor. *)
Theorem compiled_depends_on (nodes : list Node) (edges : list Edge)
    (cfg : GlobalConfig) (i : nat) (node : Node) :
  nth_error (sortedSteps nodes) i = Some node ->
  exists r orders,
    nth_error (steps (generateFlowJson nodes edges cfg)) i = Some r
    /\ Sorted Z.le orders
    /\ (forall f : Node -> bool,
          (forall p, f p = true <-> directPred edges node p) ->
          Permutation orders (map order (List.filter f nodes)))
    /\ (forall z, In z orders <->
                  exists p, In p nodes /\ directPred edges node p /\ order p = z)
    /\ (orders = [] -> FlowStep.depends_on r = None)
    /\ (orders <> [] ->
        FlowStep.depends_on r = Some (DepString (join "," (map String_of_Z orders))))
    /\ (List.NoDup (map order (stepNodes nodes)) -> List.NoDup orders).
Proof.
  intros Hnth. exists (stepJson nodes edges node), (dependsOnList nodes edges node).
  split; [now apply steps_nth|].
  assert (Hperm : Permutation (dependsOnList nodes edges node)
                    (map order (List.filter (isDirectPred edges node) nodes))).
  { rewrite dependsOnList_eq. apply sort_by_perm. }
  split; [|split; [|split; [|split; [|split]]]].
  - rewrite dependsOnList_eq. apply Sorted_le_key_id, sort_by_sorted.
  - intros f Hf. rewrite Hperm.
    rewrite (List.filter_ext f (isDirectPred edges node)); [reflexivity|].
    intros p. destruct (f p) eqn:E1, (isDirectPred edges node p) eqn:E2; try reflexivity.
    + apply Hf, isDirectPred_spec in E1. congruence.
    + apply isDirectPred_spec, Hf in E2. congruence.
  - intros z. split.
    + intros Hz. apply (Permutation_in _ Hperm) in Hz.
      apply in_map_iff in Hz. destruct Hz as [p [Ho Hp]].
      apply filter_In in Hp. destruct Hp as [Hp Hd]. apply isDirectPred_spec in Hd.
      exists p. auto.
    + intros [p (Hp & Hd & Ho)]. apply (Permutation_in _ (Permutation_sym Hperm)).
      apply in_map_iff. exists p. split; [exact Ho|].
      apply filter_In. split; [exact Hp | now apply isDirectPred_spec].
  - intros E. rewrite stepJson_depends_on, E. reflexivity.
  - intros Hne. rewrite stepJson_depends_on.
    destruct (dependsOnList nodes edges node); [congruence | reflexivity].
  - intros Hnd. apply (Permutation_NoDup (Permutation_sym Hperm)).
    rewrite (filter_stepNodes (isDirectPred edges node) nodes).
    + now apply NoDup_map_filter.
    + intros p Hp. apply isDirectPred_spec in Hp. apply Hp.
Qed.

Lemma String_of_Z_inj (a b : Z) : String_of_Z a = String_of_Z b -> a = b.
Proof.
  intros H.
  destruct (String_of_Z_shape a) as [u [Hu [[Ea ->]|[Ea ->]]]];
    destruct (String_of_Z_shape b) as [v [Hv [[Eb ->]|[Eb ->]]]];
    rewrite Ea, Eb in H.
  - apply (f_equal digitsPrefix) in H. rewrite !digitsPrefix_print in H. now subst.
  - exfalso. pose proof (print_digits u) as Hd. rewrite H in Hd. discriminate Hd.
  - exfalso. pose proof (print_digits v) as Hd. rewrite <- H in Hd. discriminate Hd.
  - injection H as H.
    apply (f_equal digitsPrefix) in H. rewrite !digitsPrefix_print in H. now subst.
Qed.

Lemma split_join_numbers (l : list Z) :
  l <> [] -> split "," (join "," (map String_of_Z l)) = map String_of_Z l.
Proof.
  intros Hne. apply split_join.
  - destruct l; [congruence | discriminate].
  - apply List.Forall_forall. intros s Hs. apply in_map_iff in Hs.
    destruct Hs as [z [<- _]]. apply String_of_Z_no_comma.
Qed.

Lemma compiled_depends_on_witness :
  exists r,
    nth_error
      (steps (generateFlowJson
                [startNode;
                 {| id := "a"; data := plainData "A" 1 SQL "SELECT 1" |};
                 {| id := "b"; data := plainData "B" 2 CONCAT "{{step_1}}" |}]
                [ {| edge_id := "e0"; source := "start"; target := "a" |};
                  {| edge_id := "e1"; source := "a"; target := "b" |} ]
                {| iterateFlow := false; getIterateList := ""; flowName := "F" |}))
      1 = Some r
    /\ FlowStep.depends_on r = Some (DepString "1").
Proof.
  destruct (compiled_depends_on
              [startNode;
               {| id := "a"; data := plainData "A" 1 SQL "SELECT 1" |};
               {| id := "b"; data := plainData "B" 2 CONCAT "{{step_1}}" |}]
              [ {| edge_id := "e0"; source := "start"; target := "a" |};
                {| edge_id := "e1"; source := "a"; target := "b" |} ]
              {| iterateFlow := false; getIterateList := ""; flowName := "F" |}
              1%nat {| id := "b"; data := plainData "B" 2 CONCAT "{{step_1}}" |}
              eq_refl) as [r [orders (Hr & _)]].
  exists r. split; [exact Hr|].
  vm_compute in Hr. injection Hr as <-. reflexivity.
Defined.

(** C4, as stated, fails: two predecessors that share the order 1 are both
    listed, so the field reads [1,1] and is not free of repetitions. *)
Lemma depends_on_repeats :
  ~ (forall nodes edges cfg r s,
        In r (steps (generateFlowJson nodes edges cfg)) ->
        FlowStep.depends_on r = Some (DepString s) ->
        exists orders, List.NoDup orders /\ s = join "," (map String_of_Z orders)).
Proof.
  intros H.
  destruct (H [startNode;
               {| id := "a"; data := plainData "A" 1 SQL "SELECT 1" |};
               {| id := "b"; data := plainData "B" 1 SQL "SELECT 2" |};
               {| id := "c"; data := plainData "C" 2 CONCAT "x" |}]
              [ {| edge_id := "e1"; source := "a"; target := "c" |};
                {| edge_id := "e2"; source := "b"; target := "c" |} ]
              {| iterateFlow := false; getIterateList := ""; flowName := "F" |}
              (stepJson
                 [startNode;
                  {| id := "a"; data := plainData "A" 1 SQL "SELECT 1" |};
                  {| id := "b"; data := plainData "B" 1 SQL "SELECT 2" |};
                  {| id := "c"; data := plainData "C" 2 CONCAT "x" |}]
                 [ {| edge_id := "e1"; source := "a"; target := "c" |};
                   {| edge_id := "e2"; source := "b"; target := "c" |} ]
                 {| id := "c"; data := plainData "C" 2 CONCAT "x" |})
              "1,1") as [orders [Hnd Hs]].
  - right. right. left. reflexivity.
  - reflexivity.
  - destruct orders as [|a [|b rest]].
    + discriminate Hs.
    + apply (f_equal (split ",")) in Hs.
      rewrite split_join_numbers in Hs by discriminate. discriminate Hs.
    + apply (f_equal (split ",")) in Hs.
      rewrite split_join_numbers in Hs by discriminate.
      change (split "," "1,1") with [String_of_Z 1; String_of_Z 1] in Hs.
      simpl map in Hs. injection Hs as Ha Hb _.
      apply String_of_Z_inj in Ha, Hb. subst a b.
      inversion Hnd as [|? ? Hnotin _]; subst. apply Hnotin. now left.
Qed.

(** ** Fresh identifiers *)

Lemma digits_dash_inj (d1 d2 x y : string) :
  allChars isDigit d1 = true -> allChars isDigit d2 = true ->
  d1 ++ String "-" x = d2 ++ String "-" y -> d1 = d2 /\ x = y.
Proof.
  revert d2. induction d1 as [|c r IH]; intros d2 H1 H2 E.
  - destruct d2 as [|c' r']; simpl in E.
    + injection E as ->. auto.
    + injection E as <- _. simpl in H2. discriminate H2.
  - destruct d2 as [|c' r']; simpl in E.
    + injection E as -> _. simpl in H1. discriminate H1.
    + injection E as -> E. simpl in H1, H2.
      apply andb_true_iff in H1, H2. destruct H1 as [_ H1]. destruct H2 as [_ H2].
      destruct (IH r' H1 H2 E) as [-> ->]. auto.
Qed.

(** A printed integer followed by a dash can be read off in one way only. *)
Lemma number_dash_inj (a b : Z) (x y : string) :
  String_of_Z a ++ String "-" x = String_of_Z b ++ String "-" y -> a = b /\ x = y.
Proof.
  intros E.
  destruct (String_of_Z_shape a) as [u [Hu [[Ea _]|[Ea _]]]];
    destruct (String_of_Z_shape b) as [v [Hv [[Eb _]|[Eb _]]]].
  - assert (H : String_of_Z a = String_of_Z b /\ x = y).
    { rewrite Ea, Eb in E |- *.
      destruct (digits_dash_inj _ _ _ _ (print_digits u) (print_digits v) E) as [-> ->]. auto. }
    destruct H as [H ->]. split; [now apply String_of_Z_inj | reflexivity].
  - exfalso. rewrite Ea, Eb in E. destruct u; simpl in E; try congruence; discriminate E.
  - exfalso. rewrite Ea, Eb in E. destruct v; simpl in E; try congruence; discriminate E.
  - assert (H : String_of_Z a = String_of_Z b /\ x = y).
    { rewrite Ea, Eb in E |- *. simpl in E. injection E as E.
      destruct (digits_dash_inj _ _ _ _ (print_digits u) (print_digits v) E) as [-> ->]. auto. }
    destruct H as [H ->]. split; [now apply String_of_Z_inj | reflexivity].
Qed.

Lemma freshId_inj (stamp : nat -> string) (i j : nat) (s s' : FlowStep.t) :
  freshId stamp i s = freshId stamp j s' ->
  FlowStep.sequence_order s = FlowStep.sequence_order s' /\ stamp i = stamp j.
Proof.
  unfold freshId. intros E. simpl in E. injection E as E.
  now apply number_dash_inj in E.
Qed.

Lemma freshId_not_start (stamp : nat -> string) (i : nat) (s : FlowStep.t) :
  freshId stamp i s <> "start".
Proof. unfold freshId. simpl. discriminate. Qed.

Lemma freshId_nonempty (stamp : nat -> string) (i : nat) (s : FlowStep.t) :
  freshId stamp i s <> "".
Proof. unfold freshId. simpl. discriminate. Qed.

(** ** The first pass of import: nodes and lookup *)

Lemma rebuild_fold (stamp : nat -> string) (l : list (nat * FlowStep.t))
    (ns : list Node) (m : gmap Z string) :
  fold_left (rebuildStep stamp) l (ns, m)
  = ((ns ++ map (fun ix => stepNodeAt stamp (fst ix) (snd ix)) l)%list,
     fold_left (enterId stamp) l m).
Proof.
  revert ns m. induction l as [|[i s] r IH]; intros ns m; simpl.
  - now rewrite app_nil_r.
  - rewrite IH. rewrite <- app_assoc. reflexivity.
Qed.

Lemma rebuildSteps_eq (stamp : nat -> string) (json : FlowJson) :
  rebuildSteps stamp json
  = (startNode :: map (fun ix => stepNodeAt stamp (fst ix) (snd ix)) (indexed 0 (steps json)),
     fold_left (enterId stamp) (indexed 0 (steps json)) ∅).
Proof. unfold rebuildSteps. now rewrite rebuild_fold. Qed.

(** The lookup holds, for each order, the identifier of the last record
    that has it. *)
Lemma lookup_enterId (stamp : nat -> string) (l : list (nat * FlowStep.t))
    (m : gmap Z string) (o : Z) :
  fold_left (enterId stamp) l m !! o
  = match lastEntry o l with
    | Some x => Some (freshId stamp (fst x) (snd x))
    | None => m !! o
    end.
Proof.
  revert m. induction l as [|x r IH]; intros m; simpl; [reflexivity|].
  rewrite IH. destruct (lastEntry o r) as [y|]; [reflexivity|].
  unfold enterId. destruct (Z.eqb_spec (FlowStep.sequence_order (snd x)) o) as [->|Hne].
  - apply lookup_insert_eq.
  - now apply lookup_insert_ne.
Qed.

Lemma lastEntry_Some (o : Z) (l : list FlowStep.t) (k i : nat) (s : FlowStep.t) :
  lastEntry o (indexed k l) = Some (i, s) ->
  (k <= i)%nat /\ FlowStep.sequence_order s = o /\ lastOfOrder l (i - k) s.
Proof.
  revert k. induction l as [|x r IH]; intros k; simpl; [discriminate|].
  destruct (lastEntry o (indexed (S k) r)) as [y|] eqn:E.
  - intros [= ->]. destruct (IH (S k) E) as (Hle & Ho & Hnth & Hlast).
    split; [lia|]. split; [exact Ho|].
    replace (i - k)%nat with (S (i - S k)) by lia. split; [exact Hnth|].
    intros k' s' Hk' Hs'. destruct k' as [|k']; [lia|].
    apply (Hlast k' s'); [lia | exact Hs'].
  - destruct (Z.eqb_spec (FlowStep.sequence_order x) o) as [Ho|Ho]; [|discriminate].
    intros [= <- <-]. split; [lia|]. split; [exact Ho|].
    rewrite Nat.sub_diag. split; [reflexivity|].
    intros k' s' Hk' Hs'. destruct k' as [|k']; [lia|]. simpl in Hs'.
    assert (Hin : In (S k + k', s')%nat (indexed (S k) r)).
    { apply indexed_In. split; [lia|]. now replace (S k + k' - S k)%nat with k' by lia. }
    clear IH. revert Hin E. generalize (indexed (S k) r) (S k + k')%nat.
    intros l0 n0. induction l0 as [|y l0 IHl]; simpl; [tauto|].
    destruct (lastEntry o l0); [discriminate|].
    destruct (Z.eqb_spec (FlowStep.sequence_order (snd y)) o) as [Hy|Hy]; [discriminate|].
    intros [->|Hin] _; [simpl in Hy; congruence | now apply IHl].
Qed.

Lemma lastEntry_of_last (l : list FlowStep.t) (k j : nat) (s : FlowStep.t) :
  lastOfOrder l j s ->
  lastEntry (FlowStep.sequence_order s) (indexed k l) = Some ((k + j)%nat, s).
Proof.
  revert k j. induction l as [|x r IH]; intros k j [Hnth Hlast].
  - destruct j; discriminate.
  - simpl. destruct j as [|j].
    + simpl in Hnth. injection Hnth as ->.
      destruct (lastEntry (FlowStep.sequence_order s) (indexed (S k) r)) as [[i y]|] eqn:E.
      * exfalso. apply lastEntry_Some in E. destruct E as (Hle & Ho & Hn & _).
        apply (Hlast (S (i - S k)) y); [lia | exact Hn | exact Ho].
      * simpl. rewrite Z.eqb_refl, Nat.add_0_r. reflexivity.
    + rewrite (IH (S k) j).
      * f_equal. f_equal. lia.
      * split; [exact Hnth|]. intros k' s' Hk' Hs'. apply (Hlast (S k') s'); [lia | exact Hs'].
Qed.

Lemma lastEntry_None (o : Z) (l : list FlowStep.t) (k : nat) :
  lastEntry o (indexed k l) = None ->
  forall s, In s l -> FlowStep.sequence_order s <> o.
Proof.
  revert k. induction l as [|x r IH]; intros k; simpl; [intros _ s []|].
  destruct (lastEntry o (indexed (S k) r)) eqn:E; [discriminate|].
  destruct (Z.eqb_spec (FlowStep.sequence_order x) o) as [Ho|Ho]; [discriminate|].
  intros _ s [<-|Hs]; [exact Ho | now apply (IH (S k))].
Qed.

(** What the lookup returns is the identifier of a last record. *)
Lemma lookup_is_last (stamp : nat -> string) (json : FlowJson) (z : Z) (x : string) :
  snd (rebuildSteps stamp json) !! z = Some x ->
  exists j s, lastOfOrder (steps json) j s /\ FlowStep.sequence_order s = z
              /\ x = freshId stamp j s.
Proof.
  rewrite rebuildSteps_eq. cbn [snd]. rewrite lookup_enterId.
  destruct (lastEntry z (indexed 0 (steps json))) as [[i s]|] eqn:E.
  - intros [= <-]. apply lastEntry_Some in E. destruct E as (_ & Ho & Hlast).
    rewrite Nat.sub_0_r in Hlast. exists i, s. auto.
  - rewrite lookup_empty. discriminate.
Qed.

Lemma lookup_of_last (stamp : nat -> string) (json : FlowJson) (j : nat) (s : FlowStep.t) :
  lastOfOrder (steps json) j s ->
  snd (rebuildSteps stamp json) !! FlowStep.sequence_order s = Some (freshId stamp j s).
Proof.
  intros H. rewrite rebuildSteps_eq. cbn [snd]. rewrite lookup_enterId.
  now rewrite (lastEntry_of_last (steps json) 0 j s H).
Qed.

Lemma lookup_absent (stamp : nat -> string) (json : FlowJson) (z : Z) :
  snd (rebuildSteps stamp json) !! z = None <->
  forall s, In s (steps json) -> FlowStep.sequence_order s <> z.
Proof.
  rewrite rebuildSteps_eq. cbn [snd]. rewrite lookup_enterId. split.
  - destruct (lastEntry z (indexed 0 (steps json))) eqn:E; [discriminate|].
    intros _. now apply (lastEntry_None z (steps json) 0%nat).
  - intros H. destruct (lastEntry z (indexed 0 (steps json))) as [[i s]|] eqn:E.
    + exfalso. apply lastEntry_Some in E. destruct E as (_ & Ho & Hn & _).
      apply (H s); [|exact Ho]. eapply nth_error_In. exact Hn.
    + apply lookup_empty.
Qed.

(** ** The second pass of import: edges *)

Lemma restored_edges_eq (stamp : nat -> string) (json : FlowJson) :
  r_edges (restoreFlowFromJson stamp json)
  = (iterationEdges json (snd (rebuildSteps stamp json))
     ++ flat_map (dependencyEdges json (snd (rebuildSteps stamp json))) (steps json))%list.
Proof. unfold restoreFlowFromJson. destruct (rebuildSteps stamp json). reflexivity. Qed.

Lemma restored_nodes_eq (stamp : nat -> string) (json : FlowJson) :
  r_nodes (restoreFlowFromJson stamp json)
  = startNode :: map (fun ix => stepNodeAt stamp (fst ix) (snd ix)) (indexed 0 (steps json)).
Proof.
  unfold restoreFlowFromJson. rewrite rebuildSteps_eq. reflexivity.
Qed.

Lemma lookupSeq_Some (m : gmap Z string) (n : num) (x : string) :
  lookupSeq m n = Some x -> exists z, n = Num z /\ m !! z = Some x.
Proof. destruct n as [|z]; simpl; [discriminate | eauto]. Qed.

Lemma iterationEdges_In (json : FlowJson) (m : gmap Z string) (e : Edge) :
  In e (iterationEdges json m) <->
  iterate_flow json = true
  /\ exists l seq t, iterable_steps json = Some l /\ In seq l
                     /\ m !! seq = Some t /\ e = startEdge t.
Proof.
  unfold iterationEdges. destruct (iterate_flow json); [|split; [intros [] | intros [H _]; discriminate]].
  destruct (iterable_steps json) as [l|].
  - rewrite in_flat_map. split.
    + intros [seq [Hseq He]]. split; [reflexivity|].
      destruct (m !! seq) as [t|] eqn:E; [|destruct He].
      destruct He as [<-|[]]. exists l, seq, t. auto.
    + intros [_ (l' & seq & t & [= <-] & Hseq & Hm & ->)].
      exists seq. split; [exact Hseq|]. rewrite Hm. now left.
  - split; [intros [] | intros [_ (l & _ & _ & H & _)]; discriminate].
Qed.

(** Every end of every restored edge went through the lookup, the source
    [start] apart. *)
Lemma dependencyEdges_ends (json : FlowJson) (m : gmap Z string) (step : FlowStep.t)
    (e : Edge) :
  In e (dependencyEdges json m step) ->
  (source e = "start" \/ exists z, m !! z = Some (source e))
  /\ m !! FlowStep.sequence_order step = Some (target e).
Proof.
  unfold dependencyEdges.
  destruct (truthy_dep (FlowStep.depends_on step)).
  - destruct (FlowStep.depends_on step) as [dep|]; [|intros []].
    rewrite in_flat_map. intros [n [_ He]].
    destruct (lookupSeq m n) as [sid|] eqn:Es; [|destruct He].
    destruct (m !! FlowStep.sequence_order step) as [tid|]; [|destruct He].
    destruct He as [<-|[]]. simpl. split; [right|reflexivity].
    apply lookupSeq_Some in Es. destruct Es as [z [_ Hz]]. eauto.
  - destruct (Z.eqb (FlowStep.sequence_order step) 1).
    + destruct (isIterated json); [intros []|].
      destruct (m !! FlowStep.sequence_order step) as [tid|]; [|intros []].
      intros [<-|[]]. simpl. auto.
    + destruct (m !! double (FlowStep.sequence_order step - 1)) as [sid|] eqn:Es;
        [|intros []].
      destruct (m !! FlowStep.sequence_order step) as [tid|]; [|intros []].
      intros [<-|[]]. simpl. split; [right; eauto | reflexivity].
Qed.

Lemma restored_edges_ends (stamp : nat -> string) (json : FlowJson) (e : Edge) :
  In e (r_edges (restoreFlowFromJson stamp json)) ->
  (source e = "start"
   \/ exists z, snd (rebuildSteps stamp json) !! z = Some (source e))
  /\ exists z, snd (rebuildSteps stamp json) !! z = Some (target e).
Proof.
  rewrite restored_edges_eq. intros H. apply in_app_or in H. destruct H as [H|H].
  - apply iterationEdges_In in H. destruct H as [_ (l & seq & t & _ & _ & Hm & ->)].
    simpl. split; [now left | eauto].
  - apply in_flat_map in H. destruct H as [step [_ H]].
    apply dependencyEdges_ends in H. destruct H as [Hs Ht]. split; [exact Hs | eauto].
Qed.

Lemma stepNodeAt_In (stamp : nat -> string) (json : FlowJson) (i : nat) (s : FlowStep.t) :
  nth_error (steps json) i = Some s ->
  In (stepNodeAt stamp i s) (r_nodes (restoreFlowFromJson stamp json)).
Proof.
  intros H. rewrite restored_nodes_eq. right.
  apply in_map_iff. exists (i, s). split; [reflexivity|].
  apply indexed_In. split; [lia|]. now rewrite Nat.sub_0_r.
Qed.

(** C9.  The lookup keeps, for every sequence order, the identifier of
    the last step record that has it.  Every end of every restored edge,
    the source [start] apart, is the identifier of such a last record.
    With fresh stamps, the node made of a record that a later record
    duplicates is in the graph and no restored edge starts or ends there. *)
Theorem last_duplicate_wins (stamp : nat -> string) (json : FlowJson) :
  (forall i j, stamp i = stamp j -> i = j) ->
  (forall j s, lastOfOrder (steps json) j s ->
               snd (rebuildSteps stamp json) !! FlowStep.sequence_order s
               = Some (freshId stamp j s))
  /\ (forall e, In e (r_edges (restoreFlowFromJson stamp json)) ->
                (source e = "start"
                 \/ exists j s, lastOfOrder (steps json) j s
                                /\ source e = freshId stamp j s)
                /\ exists j s, lastOfOrder (steps json) j s
                               /\ target e = freshId stamp j s)
  /\ (forall i s j s',
        (i < j)%nat ->
        nth_error (steps json) i = Some s ->
        nth_error (steps json) j = Some s' ->
        FlowStep.sequence_order s = FlowStep.sequence_order s' ->
        In (stepNodeAt stamp i s) (r_nodes (restoreFlowFromJson stamp json))
        /\ forall e, In e (r_edges (restoreFlowFromJson stamp json)) ->
                     source e <> id (stepNodeAt stamp i s)
                     /\ target e <> id (stepNodeAt stamp i s)).
Proof.
  intros Hinj.
  assert (Hends : forall e, In e (r_edges (restoreFlowFromJson stamp json)) ->
            (source e = "start"
             \/ exists j s, lastOfOrder (steps json) j s /\ source e = freshId stamp j s)
            /\ exists j s, lastOfOrder (steps json) j s /\ target e = freshId stamp j s).
  { intros e He. apply restored_edges_ends in He. destruct He as [Hs [z Ht]]. split.
    - destruct Hs as [Hs|[z' Hs]]; [now left | right].
      apply lookup_is_last in Hs. destruct Hs as (j & s & Hl & _ & Hx). eauto.
    - apply lookup_is_last in Ht. destruct Ht as (j & s & Hl & _ & Hx). eauto. }
  split; [intros j s; apply lookup_of_last|]. split; [exact Hends|].
  intros i s j s' Hij Hi Hj Ho. split; [now apply stepNodeAt_In|].
  assert (Hnot : forall k t, lastOfOrder (steps json) k t ->
                             freshId stamp k t <> freshId stamp i s).
  { intros k t [Hk Hlast] E. apply freshId_inj in E. destruct E as [Eo Es].
    apply Hinj in Es. subst k. assert (t = s) by congruence. subst t.
    apply (Hlast j s' Hij Hj). congruence. }
  intros e He. destruct (Hends e He) as [Hs [k [t [Hl Ht]]]]. cbn [id stepNodeAt]. split.
  - destruct Hs as [Hs|[k' [t' [Hl' Hs]]]]; rewrite Hs.
    + intros E. symmetry in E. now apply freshId_not_start in E.
    + now apply Hnot.
  - rewrite Ht. now apply Hnot.
Qed.

Lemma decimalStamp_inj (i j : nat) : decimalStamp i = decimalStamp j -> i = j.
Proof. unfold decimalStamp. intros H. apply String_of_Z_inj in H. lia. Qed.

Lemma last_duplicate_wins_witness :
  (forall i j, decimalStamp i = decimalStamp j -> i = j)
  /\ forall e,
       In e (r_edges (restoreFlowFromJson decimalStamp
                        (plainJson "F" [plainStep 1 "A" SQL "q1"; plainStep 1 "B" SQL "q2";
                                        withDependsOn "1" (plainStep 2 "C" CONCAT "x")]))) ->
       source e <> "node-1-0" /\ target e <> "node-1-0".
Proof.
  split; [exact decimalStamp_inj|].
  apply (proj2 (proj2 (last_duplicate_wins decimalStamp
                         (plainJson "F" [plainStep 1 "A" SQL "q1"; plainStep 1 "B" SQL "q2";
                                         withDependsOn "1" (plainStep 2 "C" CONCAT "x")])
                         decimalStamp_inj))
               0%nat (plainStep 1 "A" SQL "q1") 1%nat (plainStep 1 "B" SQL "q2")).
  - lia.
  - reflexivity.
  - reflexivity.
  - reflexivity.
Defined.

(** With two records of order 1, everything attaches to the second. *)
Example last_duplicate_edges :
  map (fun e => (source e, target e))
      (r_edges (restoreFlowFromJson decimalStamp
                  (plainJson "F" [plainStep 1 "A" SQL "q1"; plainStep 1 "B" SQL "q2";
                                  withDependsOn "1" (plainStep 2 "C" CONCAT "x")])))
  = [("start", "node-1-1"); ("start", "node-1-1"); ("node-1-1", "node-2-2")].
Proof. vm_compute. reflexivity. Qed.

(** ** The positional fallback *)



(** The record behind an identifier that the lookup returns has the order
    that was looked up, and the order of any record with that identifier. *)
Lemma lookup_target_order (stamp : nat -> string) (json : FlowJson) (z : Z)
    (i : nat) (s : FlowStep.t) :
  snd (rebuildSteps stamp json) !! z = Some (freshId stamp i s) ->
  z = FlowStep.sequence_order s.
Proof.
  intros H. apply lookup_is_last in H. destruct H as (j & p & _ & Ho & E).
  apply freshId_inj in E. destruct E as [E _]. congruence.
Qed.




(** ** Compiling again what import rebuilt: one record *)

Lemma FlowStep_ext (a b : FlowStep.t) :
  FlowStep.sequence_order a = FlowStep.sequence_order b ->
  FlowStep.sequence_name a = FlowStep.sequence_name b ->
  FlowStep.type a = FlowStep.type b ->
  FlowStep.value a = FlowStep.value b ->
  FlowStep.depends_on a = FlowStep.depends_on b ->
  FlowStep.max_retry a = FlowStep.max_retry b ->
  FlowStep.append_iteration_column a = FlowStep.append_iteration_column b ->
  FlowStep.append_time_column a = FlowStep.append_time_column b ->
  FlowStep.time_range a = FlowStep.time_range b ->
  FlowStep.time_grain a = FlowStep.time_grain b ->
  FlowStep.time_mode a = FlowStep.time_mode b ->
  FlowStep.reference_date a = FlowStep.reference_date b ->
  FlowStep.llm_model a = FlowStep.llm_model b ->
  a = b.
Proof. destruct a, b; simpl; intros; subst; reflexivity. Qed.

Lemma or_str_id (s d : string) : s <> "" -> or_str s d = s.
Proof. intros H. unfold or_str. destruct (String.eqb_spec s ""); congruence. Qed.

Lemma or_str_empty (s : string) : or_str s "" = s.
Proof. unfold or_str. destruct (String.eqb_spec s ""); congruence. Qed.

Lemma keep_str_idem (o : option string) : keep_str (keep_str o) = keep_str o.
Proof. unfold keep_str. destruct (truthy_str o) eqn:E; [now rewrite E | reflexivity]. Qed.

Lemma truthy_keep_str (o : option string) : truthy_str (keep_str o) = truthy_str o.
Proof. unfold keep_str. destruct (truthy_str o) eqn:E; [exact E | reflexivity]. Qed.

Lemma keep_num_idem (o : option num) : keep_num (keep_num o) = keep_num o.
Proof. unfold keep_num. destruct (truthy_num o) eqn:E; [now rewrite E | reflexivity]. Qed.

Lemma split_timeRangeOf (z : Z) (g : string) :
  In g TimeGrain_values ->
  split "_" (timeRangeOf (Num z) g) = ["last"; String_of_Z z; g ++ "s"].
Proof.
  intros Hg. unfold timeRangeOf. cbn [String_of_num].
  change ("last_" ++ String_of_Z z ++ "_" ++ g ++ "s")
    with ("last" ++ String "_" (String_of_Z z ++ String "_" (g ++ "s"))).
  rewrite split_app_sep by reflexivity.
  rewrite split_app_sep by apply String_of_Z_no_underscore.
  rewrite split_no_sep; [reflexivity|].
  destruct Hg as [<-|[<-|[]]]; reflexivity.
Qed.

(** Reading back the [time_range] that the compiler wrote for a safe
    amount. *)
Lemma parse_timeRangeOf (step : FlowStep.t) (z : Z) (g : string) :
  In g TimeGrain_values -> safeInteger z ->
  FlowStep.time_range step = Some (timeRangeOf (Num z) g) ->
  parseTimeRange step = (Some (Num z), Some g).
Proof.
  intros Hg Hz Hr. unfold parseTimeRange. rewrite Hr.
  assert (Ht : truthy_str (Some (timeRangeOf (Num z) g)) = true) by reflexivity.
  rewrite Ht, (split_timeRangeOf z g Hg).
  change (g ++ "s") with (g ++ String "s" EmptyString).
  rewrite endsWith_snoc, dropLast_snoc, (parseInt_String_of_Z z Hz).
  assert (Hk : includes TimeGrain_values g = true) by now apply includes_In.
  now rewrite Hk.
Qed.

Lemma known_grain_nonempty (g : string) : In g TimeGrain_values -> g <> "".
Proof. intros [<-|[<-|[]]]; discriminate. Qed.

Lemma parseTimeRange_no_range (step : FlowStep.t) :
  FlowStep.time_range step = None ->
  parseTimeRange step = (None, keep_str (FlowStep.time_grain step)).
Proof. intros H. unfold parseTimeRange. now rewrite H. Qed.

Lemma nodeData_fields (step : FlowStep.t) :
  FlowNodeData.label (nodeData step)
  = or_str (FlowStep.sequence_name step) ("Step " ++ String_of_Z (FlowStep.sequence_order step))
  /\ FlowNodeData.sequence_order (nodeData step) = FlowStep.sequence_order step
  /\ FlowNodeData.type (nodeData step) = Some (FlowStep.type step)
  /\ FlowNodeData.value (nodeData step) = or_str (FlowStep.value step) ""
  /\ FlowNodeData.append_iteration_column (nodeData step) = FlowStep.append_iteration_column step
  /\ FlowNodeData.append_time_column (nodeData step) = FlowStep.append_time_column step
  /\ FlowNodeData.time_mode (nodeData step) = FlowStep.time_mode step
  /\ FlowNodeData.reference_date (nodeData step) = FlowStep.reference_date step
  /\ FlowNodeData.llm_model (nodeData step) = FlowStep.llm_model step
  /\ FlowNodeData.max_retry (nodeData step) = FlowStep.max_retry step
  /\ FlowNodeData.isStartNode (nodeData step) = false.
Proof. unfold nodeData. destruct (parseTimeRange step). repeat split. Qed.

(** The time fields of a compiled record survive import and a second
    compilation. *)
Lemma time_fields_again (nodes : list Node) (edges : list Edge) (n : Node) :
  FlowNodeData.type (data n) = Some SQL ->
  truthy_str (FlowNodeData.append_time_column (data n)) = true ->
  (forall g, FlowNodeData.time_grain (data n) = Some g -> In g TimeGrain_values) ->
  (forall a, FlowNodeData.time_amount (data n) = Some (Num a) -> safeInteger a) ->
  let r := stepJson nodes edges n in
  match fst (parseTimeRange r), snd (parseTimeRange r) with
  | Some a, Some g =>
      if truthy_num (Some a) && truthy_str (Some g) then Some (timeRangeOf a g) else None
  | _, _ => None
  end = FlowStep.time_range r
  /\ keep_str (snd (parseTimeRange r)) = FlowStep.time_grain r.
Proof.
  intros Hty Hatc Hg Ha r.
  assert (Hrange : FlowStep.time_range r
                   = match FlowNodeData.time_amount (data n), FlowNodeData.time_grain (data n) with
                     | Some a, Some g =>
                         if truthy_num (Some a) && truthy_str (Some g)
                         then Some (timeRangeOf a g) else None
                     | _, _ => None
                     end).
  { unfold r, stepJson. cbn [FlowStep.time_range]. now rewrite Hty, Hatc. }
  assert (Hgrain : FlowStep.time_grain r = keep_str (FlowNodeData.time_grain (data n))).
  { unfold r, stepJson. cbn [FlowStep.time_grain]. now rewrite Hty, Hatc. }
  destruct (FlowNodeData.time_amount (data n)) as [a|] eqn:Ea.
  2:{ rewrite (parseTimeRange_no_range r Hrange). cbn [fst snd].
      rewrite Hrange, Hgrain, !keep_str_idem. auto. }
  destruct (FlowNodeData.time_grain (data n)) as [g|] eqn:Eg.
  2:{ rewrite (parseTimeRange_no_range r Hrange). cbn [fst snd].
      rewrite Hrange, Hgrain. split; reflexivity. }
  destruct (truthy_num (Some a) && truthy_str (Some g)) eqn:Et.
  2:{ rewrite (parseTimeRange_no_range r Hrange). cbn [fst snd].
      rewrite Hrange, Hgrain, !keep_str_idem. auto. }
  apply andb_true_iff in Et. destruct Et as [Hta Htg].
  apply truthy_num_iff in Hta. destruct Hta as [z [[= ->] Hz]].
  pose proof (Hg g eq_refl) as Hknown.
  rewrite (parse_timeRangeOf r z g Hknown (Ha z eq_refl) Hrange). cbn [fst snd].
  rewrite Hrange, Hgrain.
  assert (E1 : truthy_num (Some (Num z)) = true) by (apply truthy_num_iff; eauto).
  rewrite E1, Htg. cbn [andb]. split; [reflexivity|].
  unfold keep_str. now rewrite Htg.
Qed.

(** A record compiled from a node is compiled again, unchanged, from the
    node that import makes of it, as far as the fields other than
    [depends_on] go. *)
Lemma stepJson_again (nodes : list Node) (edges : list Edge) (n : Node)
    (nodes2 : list Node) (edges2 : list Edge) (n2 : Node) :
  data n2 = nodeData (stepJson nodes edges n) ->
  FlowNodeData.label (data n) <> "" ->
  (forall g, FlowNodeData.time_grain (data n) = Some g -> In g TimeGrain_values) ->
  (forall a, FlowNodeData.time_amount (data n) = Some (Num a) -> safeInteger a) ->
  FlowStep.depends_on (stepJson nodes2 edges2 n2)
  = FlowStep.depends_on (stepJson nodes edges n) ->
  stepJson nodes2 edges2 n2 = stepJson nodes edges n.
Proof.
  intros Hdata Hlabel Hgrain Hamount Hdeps.
  set (r := stepJson nodes edges n) in *.
  destruct (nodeData_fields r) as
    (Flabel & Forder & Ftype & Fvalue & Faic & Fatc & Fmode & Fref & Fllm & Fretry & _).
  destruct (nodeData_time r) as [Famount Fgr].
  rewrite <- Hdata in Flabel, Forder, Ftype, Fvalue, Faic, Fatc, Fmode, Fref, Fllm,
                       Fretry, Famount, Fgr.
  assert (Rname : FlowStep.sequence_name r = FlowNodeData.label (data n)) by reflexivity.
  assert (Rtype : FlowStep.type r
                  = match FlowNodeData.type (data n) with Some t => t | None => SQL end)
    by reflexivity.
  apply FlowStep_ext; try exact Hdeps;
    unfold stepJson at 1;
    cbn [FlowStep.sequence_order FlowStep.sequence_name FlowStep.type FlowStep.value
         FlowStep.max_retry FlowStep.append_iteration_column FlowStep.append_time_column
         FlowStep.time_range FlowStep.time_grain FlowStep.time_mode
         FlowStep.reference_date FlowStep.llm_model];
    rewrite ?Flabel, ?Forder, ?Ftype, ?Fvalue, ?Faic, ?Fatc, ?Fmode, ?Fref, ?Fllm,
            ?Fretry, ?Famount, ?Fgr.
  - reflexivity.
  - rewrite Rname. now apply or_str_id.
  - reflexivity.
  - apply or_str_empty.
  - unfold r, stepJson. cbn [FlowStep.max_retry]. apply keep_num_idem.
  - rewrite Rtype. unfold r, stepJson. cbn [FlowStep.append_iteration_column].
    destruct (FlowNodeData.type (data n)) as [[| |]|]; try reflexivity. apply keep_str_idem.
  - rewrite Rtype. unfold r, stepJson. cbn [FlowStep.append_time_column].
    destruct (FlowNodeData.type (data n)) as [[| |]|]; try reflexivity. apply keep_str_idem.
  - rewrite Rtype.
    destruct (FlowNodeData.type (data n)) as [[| |]|] eqn:Hty;
      try (unfold r, stepJson;
           cbn [FlowStep.append_time_column FlowStep.time_range];
           rewrite ?Hty; reflexivity).
    assert (Ratc : FlowStep.append_time_column r
                   = keep_str (FlowNodeData.append_time_column (data n))).
    { unfold r, stepJson. cbn [FlowStep.append_time_column]. now rewrite Hty. }
    rewrite Ratc, truthy_keep_str. cbn [andb].
    destruct (truthy_str (FlowNodeData.append_time_column (data n))) eqn:Hatc.
    + apply (time_fields_again nodes edges n Hty Hatc Hgrain Hamount).
    + unfold r, stepJson. cbn [FlowStep.time_range]. now rewrite Hty, Hatc.
  - rewrite Rtype.
    destruct (FlowNodeData.type (data n)) as [[| |]|] eqn:Hty;
      try (unfold r, stepJson;
           cbn [FlowStep.append_time_column FlowStep.time_grain];
           rewrite ?Hty; reflexivity).
    assert (Ratc : FlowStep.append_time_column r
                   = keep_str (FlowNodeData.append_time_column (data n))).
    { unfold r, stepJson. cbn [FlowStep.append_time_column]. now rewrite Hty. }
    rewrite Ratc, truthy_keep_str. cbn [andb].
    destruct (truthy_str (FlowNodeData.append_time_column (data n))) eqn:Hatc.
    + apply (time_fields_again nodes edges n Hty Hatc Hgrain Hamount).
    + unfold r, stepJson. cbn [FlowStep.time_grain]. now rewrite Hty, Hatc.
  - rewrite Rtype.
    destruct (FlowNodeData.type (data n)) as [[| |]|] eqn:Hty;
      try (unfold r, stepJson;
           cbn [FlowStep.append_time_column FlowStep.time_mode];
           rewrite ?Hty; reflexivity).
    assert (Ratc : FlowStep.append_time_column r
                   = keep_str (FlowNodeData.append_time_column (data n))).
    { unfold r, stepJson. cbn [FlowStep.append_time_column]. now rewrite Hty. }
    rewrite Ratc, truthy_keep_str. cbn [andb].
    unfold r, stepJson. cbn [FlowStep.time_mode]. rewrite Hty. cbn [andb].
    destruct (truthy_str (FlowNodeData.append_time_column (data n))); [|reflexivity].
    apply keep_str_idem.
  - rewrite Rtype. unfold r, stepJson. cbn [FlowStep.reference_date].
    destruct (FlowNodeData.type (data n)) as [[| |]|]; try reflexivity. apply keep_str_idem.
  - rewrite Rtype. unfold r, stepJson. cbn [FlowStep.llm_model].
    destruct (FlowNodeData.type (data n)) as [[| |]|]; try reflexivity. apply keep_str_idem.
Qed.

(** ** Sorted lists of orders *)

Lemma sorted_perm_eq (l1 l2 : list Z) :
  Sorted Z.le l1 -> Sorted Z.le l2 -> Permutation l1 l2 -> l1 = l2.
Proof.
  revert l2. induction l1 as [|a l1 IH]; intros l2 H1 H2 Hp.
  - apply Permutation_nil in Hp. now subst.
  - destruct l2 as [|b l2]; [apply Permutation_sym, Permutation_nil in Hp; discriminate|].
    apply Sorted_StronglySorted in H1; [|intros x y z; apply Z.le_trans].
    apply Sorted_StronglySorted in H2; [|intros x y z; apply Z.le_trans].
    inversion H1 as [|? ? S1 F1]; subst. inversion H2 as [|? ? S2 F2]; subst.
    assert (Hab : a = b).
    { assert (Ha : In a (b :: l2)) by (apply (Permutation_in _ Hp); now left).
      assert (Hb : In b (a :: l1)) by (apply (Permutation_in _ (Permutation_sym Hp)); now left).
      rewrite List.Forall_forall in F1, F2.
      destruct Ha as [->|Ha]; [reflexivity|]. destruct Hb as [->|Hb]; [reflexivity|].
      specialize (F1 b Hb). specialize (F2 a Ha). lia. }
    subst b. f_equal. apply IH.
    + now apply StronglySorted_Sorted.
    + now apply StronglySorted_Sorted.
    + now apply Permutation_cons_inv in Hp.
Qed.

Lemma Sorted_map_key {A : Type} (key : A -> Z) (l : list A) :
  Sorted (le_key key) l <-> Sorted Z.le (map key l).
Proof.
  induction l as [|x r IH]; simpl; [split; constructor|].
  split; intros H; inversion H as [|? ? Hr Hhd]; subst; constructor;
    try (now apply IH); destruct r; simpl in *; constructor;
    inversion Hhd; subst; assumption.
Qed.

Lemma Sorted_filter {A : Type} (key : A -> Z) (f : A -> bool) (l : list A) :
  Sorted (le_key key) l -> Sorted (le_key key) (List.filter f l).
Proof.
  intros H. apply Sorted_StronglySorted in H;
    [|intros x y z; unfold le_key; apply Z.le_trans].
  apply StronglySorted_Sorted. induction H as [|x r Hr IH Hall]; simpl; [constructor|].
  destruct (f x); [|exact IH]. constructor; [exact IH|].
  rewrite List.Forall_forall in Hall |- *. intros y Hy. apply Hall.
  apply filter_In in Hy. tauto.
Qed.

Lemma filter_perm {A : Type} (f : A -> bool) (l1 l2 : list A) :
  Permutation l1 l2 -> Permutation (List.filter f l1) (List.filter f l2).
Proof.
  intros H. induction H as [|x l l' H IH|x y l|l l' l'' H1 IH1 H2 IH2]; simpl.
  - constructor.
  - destruct (f x); [now constructor | exact IH].
  - destruct (f x), (f y); try reflexivity. apply perm_swap.
  - now transitivity (List.filter f l').
Qed.

(** Two lists with the same distinct keys, filtered by predicates that
    agree on the keys, keep the same keys. *)
Lemma filter_by_key {A B : Type} (f : A -> Z) (g : B -> Z) (P : A -> bool) (Q : B -> bool)
    (L : list A) (L' : list B) :
  List.NoDup (map f L) ->
  map g L' = map f L ->
  (forall b, In b L' -> (Q b = true <-> In (g b) (map f (List.filter P L)))) ->
  map g (List.filter Q L') = map f (List.filter P L).
Proof.
  revert L'. induction L as [|a L IH]; intros L' Hnd Hmap HQ.
  - destruct L'; [reflexivity | discriminate].
  - destruct L' as [|b L']; [discriminate|].
    simpl in Hmap. injection Hmap as Hb Hmap.
    inversion Hnd as [|? ? Hnotin Hnd']; subst.
    assert (Hsub : forall z, In z (map f (List.filter P L)) -> In z (map f L)).
    { intros z Hz. apply in_map_iff in Hz. destruct Hz as [x [<- Hx]].
      apply filter_In in Hx. apply in_map. tauto. }
    assert (Htail : map g (List.filter Q L') = map f (List.filter P L)).
    { apply IH; [exact Hnd' | exact Hmap|].
      intros b' Hb'. rewrite (HQ b' (or_intror Hb')). simpl.
      assert (Hne : g b' <> f a).
      { intros E. apply Hnotin. rewrite <- E, <- Hmap. now apply in_map. }
      destruct (P a); simpl; [|tauto]. split; [intros [E|H]; [congruence | exact H] | auto]. }
    simpl. destruct (P a) eqn:HP.
    + assert (HQb : Q b = true) by (apply HQ; [now left|]; simpl; rewrite HP, Hb; now left).
      rewrite HQb. simpl. now rewrite Hb, Htail.
    + destruct (Q b) eqn:HQb; [|exact Htail].
      exfalso. apply Hnotin. apply Hsub.
      assert (H : In (g b) (map f (List.filter P (a :: L)))) by (apply HQ; [now left | exact HQb]).
      simpl in H. rewrite HP in H. now rewrite <- Hb.
Qed.

Lemma indexed_map {A B : Type} (f : A -> B) (l : list A) (k : nat) :
  indexed k (map f l) = map (fun ix => (fst ix, f (snd ix))) (indexed k l).
Proof.
  revert k. induction l as [|x r IH]; intros k; simpl; [reflexivity | now rewrite IH].
Qed.

Lemma indexed_snd {A : Type} (l : list A) (k : nat) : map snd (indexed k l) = l.
Proof.
  revert k. induction l as [|x r IH]; intros k; simpl; [reflexivity | now rewrite IH].
Qed.

Lemma NoDup_same_index {A : Type} (f : A -> Z) (l : list A) (i j : nat) (a b : A) :
  List.NoDup (map f l) -> nth_error l i = Some a -> nth_error l j = Some b ->
  f a = f b -> i = j.
Proof.
  intros Hnd Hi Hj E.
  assert (Hlen : (i < List.length (map f l))%nat).
  { rewrite length_map. apply nth_error_Some. congruence. }
  apply (proj1 (NoDup_nth_error (map f l)) Hnd i j Hlen).
  rewrite !nth_error_map, Hi, Hj. simpl. congruence.
Qed.

Lemma NoDup_same_member {A : Type} (f : A -> Z) (l : list A) (a b : A) :
  List.NoDup (map f l) -> In a l -> In b l -> f a = f b -> a = b.
Proof.
  intros Hnd Ha Hb E.
  destruct (In_nth_error _ _ Ha) as [i Hi]. destruct (In_nth_error _ _ Hb) as [j Hj].
  assert (i = j) by (eapply NoDup_same_index; eauto). subst j. congruence.
Qed.

Lemma distinct_is_last (l : list FlowStep.t) (j : nat) (s : FlowStep.t) :
  List.NoDup (map FlowStep.sequence_order l) -> nth_error l j = Some s -> lastOfOrder l j s.
Proof.
  intros Hnd Hj. split; [exact Hj|]. intros k s' Hk Hs' E.
  assert (k = j) by (eapply (NoDup_same_index FlowStep.sequence_order); eauto). lia.
Qed.

(** ** Compiling again what import rebuilt: the graph *)

Lemma sortedSteps_perm (nodes : list Node) :
  Permutation (sortedSteps nodes) (stepNodes nodes).
Proof. apply sort_by_perm. Qed.

Lemma sortedSteps_In (nodes : list Node) (n : Node) :
  In n (sortedSteps nodes) <-> In n (stepNodes nodes).
Proof.
  split; apply Permutation_in; [|apply Permutation_sym]; apply sortedSteps_perm.
Qed.

Lemma stepJson_order (nodes : list Node) (edges : list Edge) (n : Node) :
  FlowStep.sequence_order (stepJson nodes edges n) = order n.
Proof. reflexivity. Qed.

Lemma compiled_orders (nodes : list Node) (edges : list Edge) (cfg : GlobalConfig) :
  map FlowStep.sequence_order (steps (generateFlowJson nodes edges cfg))
  = map order (sortedSteps nodes).
Proof. unfold generateFlowJson. cbn [steps]. rewrite map_map. reflexivity. Qed.

Lemma compiled_orders_distinct (nodes : list Node) (edges : list Edge) (cfg : GlobalConfig) :
  distinctOrders nodes ->
  List.NoDup (map FlowStep.sequence_order (steps (generateFlowJson nodes edges cfg))).
Proof.
  intros H. rewrite compiled_orders.
  apply (Permutation_NoDup (l := map order (stepNodes nodes))); [|exact H].
  apply Permutation_map, Permutation_sym, sortedSteps_perm.
Qed.

Lemma compiled_orders_sorted (nodes : list Node) (edges : list Edge) (cfg : GlobalConfig) :
  Sorted Z.le (map FlowStep.sequence_order (steps (generateFlowJson nodes edges cfg))).
Proof.
  rewrite compiled_orders. apply (proj1 (Sorted_map_key order _)). apply sort_by_sorted.
Qed.

Lemma restoredSteps_orders (stamp : nat -> string) (json : FlowJson) :
  map order (restoredSteps stamp json) = map FlowStep.sequence_order (steps json).
Proof.
  unfold restoredSteps. rewrite map_map.
  rewrite <- (indexed_snd (steps json) 0) at 2. rewrite map_map.
  apply map_ext. intros [i s]. unfold order, stepNodeAt. cbn [data fst snd].
  apply (nodeData_fields s).
Qed.

Lemma restoredSteps_In (stamp : nat -> string) (json : FlowJson) (p : Node) :
  In p (restoredSteps stamp json) <->
  exists j s, nth_error (steps json) j = Some s /\ p = stepNodeAt stamp j s.
Proof.
  unfold restoredSteps. rewrite in_map_iff. split.
  - intros [[j s] [<- Hin]]. apply indexed_In in Hin. destruct Hin as [_ Hn].
    rewrite Nat.sub_0_r in Hn. exists j, s. auto.
  - intros (j & s & Hn & ->). exists (j, s). split; [reflexivity|].
    apply indexed_In. split; [lia|]. now rewrite Nat.sub_0_r.
Qed.

Lemma stepNodeAt_not_start (stamp : nat -> string) (j : nat) (s : FlowStep.t) :
  isStart (stepNodeAt stamp j s) = false.
Proof. unfold isStart, stepNodeAt. cbn [data]. apply (nodeData_fields s). Qed.

Lemma stepNodes_restored (stamp : nat -> string) (json : FlowJson) :
  stepNodes (r_nodes (restoreFlowFromJson stamp json)) = restoredSteps stamp json.
Proof.
  rewrite restored_nodes_eq. fold (restoredSteps stamp json).
  unfold stepNodes. simpl. unfold restoredSteps.
  induction (indexed 0 (steps json)) as [|[j s] l IH]; simpl; [reflexivity|].
  rewrite stepNodeAt_not_start. simpl. now rewrite IH.
Qed.

(** Import of a document whose records are in ascending order gives the
    nodes in the order in which the compiler will take them. *)
Lemma sortedSteps_restored (stamp : nat -> string) (json : FlowJson) :
  Sorted Z.le (map FlowStep.sequence_order (steps json)) ->
  sortedSteps (r_nodes (restoreFlowFromJson stamp json)) = restoredSteps stamp json.
Proof.
  intros H. unfold sortedSteps. rewrite stepNodes_restored.
  apply sort_by_id. apply (proj2 (Sorted_map_key order _)). now rewrite restoredSteps_orders.
Qed.

Lemma lookup_distinct (stamp : nat -> string) (json : FlowJson) (j : nat) (s : FlowStep.t) :
  List.NoDup (map FlowStep.sequence_order (steps json)) ->
  nth_error (steps json) j = Some s ->
  snd (rebuildSteps stamp json) !! FlowStep.sequence_order s = Some (freshId stamp j s).
Proof. intros Hnd Hj. apply lookup_of_last. now apply distinct_is_last. Qed.

(** With distinct orders, an identifier names one record. *)
Lemma freshId_same_record (stamp : nat -> string) (l : list FlowStep.t)
    (i j : nat) (a b : FlowStep.t) :
  List.NoDup (map FlowStep.sequence_order l) ->
  nth_error l i = Some a -> nth_error l j = Some b ->
  freshId stamp i a = freshId stamp j b -> i = j /\ a = b.
Proof.
  intros Hnd Hi Hj E. apply freshId_inj in E. destruct E as [E _].
  assert (i = j) by (eapply (NoDup_same_index FlowStep.sequence_order); eauto).
  subst j. split; [reflexivity | congruence].
Qed.

Lemma Some_eq {A : Type} (a b : A) : Some a = Some b -> a = b.
Proof. congruence. Qed.

Lemma depSources_compiled (dl : list Z) :
  dl <> [] -> Forall safeInteger dl ->
  depSources (DepString (join "," (map String_of_Z dl))) = map Num dl.
Proof.
  intros Hne Hsafe. unfold depSources. rewrite (split_join_numbers dl Hne), map_map.
  apply map_ext_in. intros z Hz. rewrite trim_String_of_Z.
  apply parseInt_String_of_Z. exact (proj1 (List.Forall_forall _ _) Hsafe z Hz).
Qed.

Lemma dependsOnList_sorted (nodes : list Node) (edges : list Edge) (n : Node) :
  Sorted Z.le (dependsOnList nodes edges n).
Proof. rewrite dependsOnList_eq. apply Sorted_le_key_id, sort_by_sorted. Qed.

Lemma dependsOnList_In (nodes : list Node) (edges : list Edge) (n : Node) (z : Z) :
  In z (dependsOnList nodes edges n) <->
  exists p, In p nodes /\ isDirectPred edges n p = true /\ order p = z.
Proof.
  rewrite dependsOnList_eq.
  assert (Hp : Permutation (sort_by (fun z => z)
                              (map order (List.filter (isDirectPred edges n) nodes)))
                           (map order (List.filter (isDirectPred edges n) nodes)))
    by apply sort_by_perm.
  split.
  - intros H. apply (Permutation_in _ Hp) in H. apply in_map_iff in H.
    destruct H as [p [Ho Hin]]. apply filter_In in Hin. exists p. tauto.
  - intros [p (Hin & Hd & Ho)]. apply (Permutation_in _ (Permutation_sym Hp)).
    apply in_map_iff. exists p. split; [exact Ho|]. apply filter_In. auto.
Qed.

Lemma isDirectPred_not_start (edges : list Edge) (n p : Node) :
  isDirectPred edges n p = true -> isStart p = false.
Proof. intros H. apply isDirectPred_spec in H. apply H. Qed.

(** The compiled dependencies, read off the sorted steps. *)
Lemma dependsOnList_sortedSteps (nodes : list Node) (edges : list Edge) (n : Node) :
  dependsOnList nodes edges n
  = map order (List.filter (isDirectPred edges n) (sortedSteps nodes)).
Proof.
  apply sorted_perm_eq.
  - apply dependsOnList_sorted.
  - apply (proj1 (Sorted_map_key order _)). apply Sorted_filter. apply sort_by_sorted.
  - rewrite dependsOnList_eq.
    rewrite (sort_by_perm (fun z => z)).
    rewrite (filter_stepNodes (isDirectPred edges n) nodes (isDirectPred_not_start edges n)).
    apply Permutation_map, filter_perm, Permutation_sym, sortedSteps_perm.
Qed.

Lemma dependsOnList_safe (nodes : list Node) (edges : list Edge) (n : Node) :
  (forall p, In p nodes -> isStart p = false -> safeInteger (order p)) ->
  Forall safeInteger (dependsOnList nodes edges n).
Proof.
  intros Hsafe. apply List.Forall_forall. intros z Hz.
  apply dependsOnList_In in Hz. destruct Hz as [p (Hp & Hd & <-)].
  apply Hsafe; [exact Hp|]. unfold isDirectPred in Hd.
  apply andb_true_iff in Hd. destruct Hd as [_ Hd]. now apply negb_true_iff in Hd.
Qed.

Lemma safeNumbers_orders (nodes : list Node) :
  safeNumbers nodes ->
  forall p, In p nodes -> isStart p = false -> safeInteger (order p).
Proof.
  intros Hsafe p Hp Hst.
  assert (Hin : In p (stepNodes nodes)).
  { unfold stepNodes. apply filter_In. split; [exact Hp | now rewrite Hst]. }
  exact (proj1 (Hsafe p Hin)).
Qed.

Section Recompile.
Variable stamp : nat -> string.
Variables (nodes : list Node) (edges : list Edge) (cfg : GlobalConfig).
Hypothesis Hdist : distinctOrders nodes.
Hypothesis Hwired : explicitlyWired nodes edges cfg.
Hypothesis Hsafe : safeNumbers nodes.

#[local] Abbreviation D := (generateFlowJson nodes edges cfg).
#[local] Abbreviation R := (restoreFlowFromJson stamp (generateFlowJson nodes edges cfg)).
#[local] Abbreviation m := (snd (rebuildSteps stamp (generateFlowJson nodes edges cfg))).

Lemma record_of_step (k : nat) (n : Node) :
  nth_error (sortedSteps nodes) k = Some n ->
  nth_error (steps D) k = Some (stepJson nodes edges n).
Proof using Type. apply steps_nth. Qed.

Lemma step_of_record (j : nat) (r : FlowStep.t) :
  nth_error (steps D) j = Some r ->
  exists n, nth_error (sortedSteps nodes) j = Some n /\ r = stepJson nodes edges n.
Proof using Type.
  unfold generateFlowJson. cbn [steps]. rewrite nth_error_map.
  destruct (nth_error (sortedSteps nodes) j) as [n|]; [|discriminate].
  intros [= <-]. eauto.
Qed.

Lemma lookup_record (j : nat) (r : FlowStep.t) :
  nth_error (steps D) j = Some r ->
  m !! FlowStep.sequence_order r = Some (freshId stamp j r).
Proof using Hdist.
  apply lookup_distinct. now apply compiled_orders_distinct.
Qed.

(** A step without compiled dependencies has no direct predecessor. *)
Lemma no_dependency (n : Node) :
  dependsOnList nodes edges n = [] ->
  forall p, In p nodes -> ~ directPred edges n p.
Proof using Type.
  intros Hnil p Hp Hd. apply isDirectPred_spec in Hd.
  assert (H : In (order p) (dependsOnList nodes edges n))
    by (apply dependsOnList_In; eauto).
  rewrite Hnil in H. destruct H.
Qed.

(** The dependency edges that import draws into the node of the [k]-th
    record come from the records whose order the record lists. *)
Lemma dependency_edges_of_record (k : nat) (n : Node) (e : Edge) :
  nth_error (sortedSteps nodes) k = Some n ->
  In e (dependencyEdges D m (stepJson nodes edges n)) ->
  source e <> "start" ->
  exists o, In o (dependsOnList nodes edges n) /\ m !! o = Some (source e).
Proof using Hdist Hwired Hsafe.
  intros Hk He Hns.
  assert (Hin : In n (stepNodes nodes)).
  { apply sortedSteps_In. eapply nth_error_In. exact Hk. }
  assert (Hdl : Forall safeInteger (dependsOnList nodes edges n))
    by (apply dependsOnList_safe, safeNumbers_orders, Hsafe).
  unfold dependencyEdges in He. rewrite stepJson_depends_on in He.
  destruct (dependsOnList nodes edges n) as [|x dl] eqn:Edl.
  - exfalso. cbn [truthy_dep] in He. rewrite stepJson_order in He.
    destruct (Hwired n Hin (no_dependency n Edl)) as [_ Hgap].
    destruct (Z.eqb_spec (order n) 1) as [E1|E1].
    + destruct (isIterated D); [destruct He|].
      destruct (m !! order n); [|destruct He].
      destruct He as [<-|[]]. apply Hns. reflexivity.
    + rewrite (double_pred (order n) (proj1 (Hsafe n Hin))) in He.
      assert (Hnone : m !! (order n - 1) = None).
      { apply lookup_absent. intros s Hs Ho.
        destruct (In_nth_error _ _ Hs) as [j Hj].
        destruct (step_of_record j s Hj) as [p [Hp ->]].
        apply (Hgap E1 p); [|exact Ho].
        apply sortedSteps_In. eapply nth_error_In. exact Hp. }
      rewrite Hnone in He. destruct He.
  - assert (Ht : truthy_dep (Some (DepString (join "," (map String_of_Z (x :: dl))))) = true).
    { cbn [truthy_dep]. apply negb_true_iff, String.eqb_neq, join_numbers_nonempty. }
    rewrite Ht in He. rewrite (depSources_compiled (x :: dl)) in He;
      [|discriminate | exact Hdl].
    apply in_flat_map in He. destruct He as [sq [Hsq He]].
    apply in_map_iff in Hsq. destruct Hsq as [o [<- Ho]]. cbn [lookupSeq] in He.
    destruct (m !! o) as [sid|] eqn:Eo; [|destruct He].
    destruct (m !! FlowStep.sequence_order (stepJson nodes edges n)); [|destruct He].
    destruct He as [<-|[]]. exists o. auto.
Qed.

(** In the restored graph, the direct predecessors of the node of a record
    are the nodes of the records whose order the record lists. *)
Lemma restored_pred (k : nat) (n : Node) (j : nat) (r : FlowStep.t) :
  nth_error (sortedSteps nodes) k = Some n ->
  nth_error (steps D) j = Some r ->
  isDirectPred (r_edges R) (stepNodeAt stamp k (stepJson nodes edges n))
               (stepNodeAt stamp j r) = true
  <-> In (FlowStep.sequence_order r) (dependsOnList nodes edges n).
Proof using Hdist Hwired Hsafe.
  intros Hk Hj. pose proof (record_of_step k n Hk) as Hrk.
  pose proof (compiled_orders_distinct nodes edges cfg Hdist) as Hnd.
  rewrite isDirectPred_spec. split.
  - intros [_ [e (He & Hs & Ht & Hns)]]. cbn [id stepNodeAt] in Hs, Ht.
    rewrite restored_edges_eq in He. apply in_app_or in He. destruct He as [He|He].
    { apply iterationEdges_In in He. destruct He as [_ (l & sq & t & _ & _ & _ & ->)].
      exfalso. apply Hns. reflexivity. }
    apply in_flat_map in He. destruct He as [step [Hstep He]].
    pose proof (dependencyEdges_ends D m step e He) as [_ Hlk].
    destruct (In_nth_error _ _ Hstep) as [j' Hj'].
    rewrite (lookup_record j' step Hj'), Ht in Hlk. apply Some_eq in Hlk.
    destruct (freshId_same_record stamp (steps D) j' k step _ Hnd Hj' Hrk Hlk) as [-> ->].
    destruct (dependency_edges_of_record k n e Hk He Hns) as [o [Ho Hm]].
    rewrite Hs in Hm. apply lookup_target_order in Hm. now subst o.
  - intros Hin. split; [apply stepNodeAt_not_start|].
    exists (stepEdge (freshId stamp j r) (freshId stamp k (stepJson nodes edges n))).
    cbn [id stepNodeAt source target stepEdge].
    split; [|split; [reflexivity | split; [reflexivity | apply freshId_not_start]]].
    rewrite restored_edges_eq. apply in_or_app. right. apply in_flat_map.
    exists (stepJson nodes edges n). split; [eapply nth_error_In; exact Hrk|].
    unfold dependencyEdges. rewrite stepJson_depends_on.
    assert (Hdl : Forall safeInteger (dependsOnList nodes edges n))
      by (apply dependsOnList_safe, safeNumbers_orders, Hsafe).
    destruct (dependsOnList nodes edges n) as [|x dl] eqn:Edl; [destruct Hin|].
    assert (Ht : truthy_dep (Some (DepString (join "," (map String_of_Z (x :: dl))))) = true).
    { cbn [truthy_dep]. apply negb_true_iff, String.eqb_neq, join_numbers_nonempty. }
    rewrite Ht. rewrite (depSources_compiled (x :: dl)); [|discriminate | exact Hdl].
    apply in_flat_map. exists (Num (FlowStep.sequence_order r)).
    split; [now apply in_map|]. cbn [lookupSeq].
    rewrite (lookup_record j r Hj), (lookup_record k _ Hrk). now left.
Qed.

(** The dependencies compiled from the restored graph are those of the
    first compilation. *)
Lemma dependsOnList_restored (k : nat) (n : Node) :
  nth_error (sortedSteps nodes) k = Some n ->
  dependsOnList (r_nodes R) (r_edges R) (stepNodeAt stamp k (stepJson nodes edges n))
  = dependsOnList nodes edges n.
Proof using Hdist Hwired Hsafe.
  intros Hk.
  set (n2 := stepNodeAt stamp k (stepJson nodes edges n)).
  rewrite (dependsOnList_eq (r_nodes R)).
  rewrite (filter_stepNodes (isDirectPred (r_edges R) n2) (r_nodes R)
             (isDirectPred_not_start (r_edges R) n2)).
  rewrite stepNodes_restored.
  assert (E : map order (List.filter (isDirectPred (r_edges R) n2) (restoredSteps stamp D))
              = map order (List.filter (isDirectPred edges n) (sortedSteps nodes))).
  { apply filter_by_key.
    - apply (Permutation_NoDup (l := map order (stepNodes nodes))); [|exact Hdist].
      apply Permutation_map, Permutation_sym, sortedSteps_perm.
    - rewrite restoredSteps_orders. apply compiled_orders.
    - intros b Hb. apply restoredSteps_In in Hb. destruct Hb as (j & r & Hj & ->).
      unfold n2. rewrite (restored_pred k n j r Hk Hj).
      rewrite <- dependsOnList_sortedSteps.
      unfold order, stepNodeAt. cbn [data].
      now rewrite (proj1 (proj2 (nodeData_fields r))). }
  rewrite E, <- dependsOnList_sortedSteps.
  apply sort_by_id, Sorted_le_key_id, dependsOnList_sorted.
Qed.

(** In an iterating flow the positional fallback draws no edge from
    start, and no other dependency edge leaves the start node. *)
Lemma dependency_edges_not_start (step : FlowStep.t) (e : Edge) :
  iterateFlow cfg = true ->
  In step (steps D) ->
  In e (dependencyEdges D m step) ->
  source e <> "start".
Proof using Hdist Hwired Hsafe.
  intros Hit Hstep He Hs.
  destruct (In_nth_error _ _ Hstep) as [j Hj].
  destruct (step_of_record j step Hj) as [n [Hn ->]].
  assert (Hin : In n (stepNodes nodes)).
  { apply sortedSteps_In. eapply nth_error_In. exact Hn. }
  pose proof (dependencyEdges_ends D m _ e He) as [[_|[z Hz]] _].
  2:{ rewrite Hs in Hz. apply lookup_is_last in Hz. destruct Hz as (j' & q & _ & _ & E).
      symmetry in E. now apply freshId_not_start in E. }
  unfold dependencyEdges in He. rewrite stepJson_depends_on in He.
  destruct (dependsOnList nodes edges n) as [|x dl] eqn:Edl.
  - cbn [truthy_dep] in He. rewrite stepJson_order in He.
    destruct (Hwired n Hin (no_dependency n Edl)) as [Hone _].
    destruct (Z.eqb_spec (order n) 1) as [E1|E1].
    + assert (Hi : isIterated D = true).
      { destruct (Hone E1 Hit) as [e0 (He0 & Hs0 & Ht0)].
        unfold isIterated, generateFlowJson. cbn [iterate_flow iterable_steps].
        rewrite Hit. cbn [andb]. apply includesZ_In. rewrite <- E1.
        apply in_map. apply filter_In. split; [now apply sortedSteps_In|].
        apply includes_In. unfold iterableStepIds. rewrite <- Ht0. apply in_map.
        apply filter_In. split; [exact He0 | now apply String.eqb_eq]. }
      rewrite Hi in He. destruct He.
    + destruct (m !! double (order n - 1)) as [sid|] eqn:Es; [|destruct He].
      destruct (m !! order n); [|destruct He].
      destruct He as [<-|[]]. cbn [source stepEdge] in Hs. subst sid.
      apply lookup_is_last in Es. destruct Es as (j' & q & _ & _ & E).
      symmetry in E. now apply freshId_not_start in E.
  - assert (Ht : truthy_dep (Some (DepString (join "," (map String_of_Z (x :: dl))))) = true).
    { cbn [truthy_dep]. apply negb_true_iff, String.eqb_neq, join_numbers_nonempty. }
    rewrite Ht in He. apply in_flat_map in He. destruct He as [sq [_ He]].
    destruct (lookupSeq m sq) as [sid|] eqn:Es; [|destruct He].
    destruct (m !! FlowStep.sequence_order (stepJson nodes edges n)); [|destruct He].
    destruct He as [<-|[]]. cbn [source stepEdge] in Hs. subst sid.
    apply lookupSeq_Some in Es. destruct Es as [z [_ Hz]].
    apply lookup_is_last in Hz. destruct Hz as (j' & q & _ & _ & E).
    symmetry in E. now apply freshId_not_start in E.
Qed.

(** In an iterating flow, the nodes that the restored graph connects to
    start are those of the records listed as iterable. *)
Lemma restored_start_target (j : nat) (r : FlowStep.t) :
  iterateFlow cfg = true ->
  nth_error (steps D) j = Some r ->
  includes (iterableStepIds (r_edges R)) (freshId stamp j r) = true
  <-> In (FlowStep.sequence_order r)
         (map order (List.filter (fun n => includes (iterableStepIds edges) (id n))
                                 (sortedSteps nodes))).
Proof using Hdist Hwired Hsafe.
  intros Hit Hj.
  assert (Hiter : iterable_steps D
                  = Some (map order (List.filter (fun n => includes (iterableStepIds edges) (id n))
                                                 (sortedSteps nodes)))).
  { unfold generateFlowJson. cbn [iterable_steps]. now rewrite Hit. }
  assert (Hflow : iterate_flow D = true) by exact Hit.
  rewrite includes_In. unfold iterableStepIds at 1. rewrite in_map_iff. split.
  - intros [e [Ht He]]. apply filter_In in He. destruct He as [He Hs].
    apply String.eqb_eq in Hs. rewrite restored_edges_eq in He.
    apply in_app_or in He. destruct He as [He|He].
    + apply iterationEdges_In in He. destruct He as [_ (l & sq & t & Hl & Hsq & Hm & ->)].
      cbn [target startEdge] in Ht. subst t. apply lookup_target_order in Hm. subst sq.
      rewrite Hiter in Hl. injection Hl as <-. exact Hsq.
    + exfalso. apply in_flat_map in He. destruct He as [step [Hstep He]].
      exact (dependency_edges_not_start step e Hit Hstep He Hs).
  - intros Hin. exists (startEdge (freshId stamp j r)). split; [reflexivity|].
    apply filter_In. split; [|reflexivity].
    rewrite restored_edges_eq. apply in_or_app. left. apply iterationEdges_In.
    split; [exact Hflow|]. eexists. exists (FlowStep.sequence_order r), (freshId stamp j r).
    split; [exact Hiter|]. split; [exact Hin|]. split; [now apply lookup_record | reflexivity].
Qed.

Lemma iterable_restored :
  iterateFlow cfg = true ->
  map order (List.filter (fun n => includes (iterableStepIds (r_edges R)) (id n))
                         (restoredSteps stamp D))
  = map order (List.filter (fun n => includes (iterableStepIds edges) (id n))
                           (sortedSteps nodes)).
Proof using Hdist Hwired Hsafe.
  intros Hit. apply filter_by_key.
  - apply (Permutation_NoDup (l := map order (stepNodes nodes))); [|exact Hdist].
    apply Permutation_map, Permutation_sym, sortedSteps_perm.
  - rewrite restoredSteps_orders. apply compiled_orders.
  - intros b Hb. apply restoredSteps_In in Hb. destruct Hb as (j & r & Hj & ->).
    cbn [id stepNodeAt]. rewrite (restored_start_target j r Hit Hj).
    unfold order at 2, stepNodeAt. cbn [data].
    now rewrite (proj1 (proj2 (nodeData_fields r))).
Qed.

End Recompile.

Lemma FlowJson_ext (a b : FlowJson) :
  flow_name a = flow_name b -> iterate_flow a = iterate_flow b ->
  iterable_steps a = iterable_steps b -> get_iterate_list a = get_iterate_list b ->
  steps a = steps b -> delivery_config a = delivery_config b -> a = b.
Proof. destruct a, b; simpl; intros; subst; reflexivity. Qed.

Lemma restored_globals (stamp : nat -> string) (json : FlowJson) :
  r_flowName (restoreFlowFromJson stamp json) = or_str (flow_name json) "Imported Flow"
  /\ r_iterateFlow (restoreFlowFromJson stamp json) = iterate_flow json
  /\ r_getIterateList (restoreFlowFromJson stamp json)
     = match get_iterate_list json with Some q => or_str q "" | None => "" end.
Proof.
  unfold restoreFlowFromJson. destruct (rebuildSteps stamp json). repeat split.
Qed.

(** C1 (as the program has it).  For a graph whose steps have distinct
    sequence orders, non-empty labels and a non-empty flow name, grains
    from the enumeration, sequence orders and time amounts that are safe
    integers (below 2^53 in magnitude: those the program prints in plain
    decimal and reads back exactly), and no step that import would have to
    wire by position (a step without a direct predecessor other than start
    has order 1 and, when the flow iterates, an edge from start, or else
    no step has the order just below its own): compiling, importing and
    compiling again gives the first document, field for field. *)
Theorem recompile_fixed_point (stamp : nat -> string) (nodes : list Node)
    (edges : list Edge) (cfg : GlobalConfig) :
  distinctOrders nodes ->
  named nodes cfg ->
  grainsTyped nodes ->
  explicitlyWired nodes edges cfg ->
  safeNumbers nodes ->
  recompile stamp (generateFlowJson nodes edges cfg) = generateFlowJson nodes edges cfg.
Proof.
  intros Hdist [Hname Hlabels] Hgrains Hwired Hsafe. unfold recompile.
  set (D := generateFlowJson nodes edges cfg).
  set (R := restoreFlowFromJson stamp D).
  destruct (restored_globals stamp D) as (Gname & Giter & Gquery).
  fold R in Gname, Giter, Gquery.
  assert (Hsorted : sortedSteps (r_nodes R) = restoredSteps stamp D).
  { apply sortedSteps_restored. apply compiled_orders_sorted. }
  apply FlowJson_ext; unfold generateFlowJson at 1;
    cbn [flow_name iterate_flow iterable_steps get_iterate_list steps delivery_config
         restoredConfig flowName iterateFlow getIterateList].
  - rewrite Gname. now apply or_str_id.
  - exact Giter.
  - rewrite Giter, Hsorted. unfold D at 1 3, generateFlowJson.
    cbn [iterate_flow iterable_steps].
    destruct (iterateFlow cfg) eqn:Hit; [|reflexivity].
    f_equal. now apply iterable_restored.
  - rewrite Giter, Gquery. unfold D, generateFlowJson.
    cbn [iterate_flow get_iterate_list].
    destruct (iterateFlow cfg); [|reflexivity]. now rewrite or_str_empty.
  - rewrite Hsorted. unfold restoredSteps.
    change (steps D) with (map (stepJson nodes edges) (sortedSteps nodes)).
    rewrite indexed_map.
    rewrite <- (indexed_snd (sortedSteps nodes) 0) at 2. rewrite !map_map.
    apply map_ext_in. intros [k n] Hkn. cbn [fst snd].
    apply indexed_In in Hkn. destruct Hkn as [_ Hk]. rewrite Nat.sub_0_r in Hk.
    assert (Hin : In n (stepNodes nodes)).
    { apply sortedSteps_In. eapply nth_error_In. exact Hk. }
    apply stepJson_again.
    + reflexivity.
    + now apply Hlabels.
    + intros g Hg. now apply (Hgrains n g).
    + exact (proj2 (Hsafe n Hin)).
    + rewrite !stepJson_depends_on. unfold R, D.
      now rewrite (dependsOnList_restored stamp nodes edges cfg Hdist Hwired Hsafe k n Hk).
  - reflexivity.
Qed.

Lemma recompile_fixed_point_witness :
  recompile decimalStamp (generateFlowJson exampleNodes exampleEdges exampleConfig)
  = generateFlowJson exampleNodes exampleEdges exampleConfig.
Proof.
  apply recompile_fixed_point.
  - unfold distinctOrders. simpl. constructor; [intros [H|[]]; discriminate H|].
    constructor; [intros [] | constructor].
  - split; [discriminate|]. intros n [<-|[<-|[]]]; discriminate.
  - intros n g [<-|[<-|[]]] H; simpl in H; [|discriminate H].
    injection H as <-. right. now left.
  - intros n [<-|[<-|[]]] Hnone.
    + split; [|intros H; exfalso; apply H; reflexivity].
      intros _ _. exists {| edge_id := "e0"; source := "start"; target := "q" |}.
      split; [now left | split; reflexivity].
    + exfalso. apply (Hnone timedQuery); [right; now left|].
      split; [reflexivity|].
      exists {| edge_id := "e1"; source := "q"; target := "c" |}.
      split; [right; now left|]. repeat split. discriminate.
  - intros n [<-|[<-|[]]]; (split; [vm_compute; reflexivity|]);
      intros a H; cbn in H; try discriminate H.
    injection H as <-. vm_compute. reflexivity.
Defined.

(** C1, as stated, fails: two steps of orders 1 and 2 without any edge
    compile to records without [depends_on]; import wires the second to
    the first by position, and the second compilation says [depends_on: 1]. *)
Lemma recompile_not_fixed :
  ~ (forall stamp nodes edges cfg,
        recompile stamp (generateFlowJson nodes edges cfg)
        = generateFlowJson nodes edges cfg).
Proof.
  intros H.
  specialize (H decimalStamp
                [startNode;
                 {| id := "a"; data := plainData "A" 1 SQL "SELECT 1" |};
                 {| id := "b"; data := plainData "B" 2 CONCAT "x" |}]
                [] {| iterateFlow := false; getIterateList := ""; flowName := "F" |}).
  apply (f_equal (fun d => map FlowStep.depends_on (steps d))) in H.
  vm_compute in H. discriminate H.
Qed.

(** The documents of the counterexample. *)
Example recompile_adds_dependency :
  let nodes := [startNode;
                {| id := "a"; data := plainData "A" 1 SQL "SELECT 1" |};
                {| id := "b"; data := plainData "B" 2 CONCAT "x" |}] in
  let cfg := {| iterateFlow := false; getIterateList := ""; flowName := "F" |} in
  map FlowStep.depends_on (steps (generateFlowJson nodes [] cfg)) = [None; None]
  /\ map FlowStep.depends_on (steps (recompile decimalStamp (generateFlowJson nodes [] cfg)))
     = [None; Some (DepString "1")].
Proof. split; vm_compute; reflexivity. Qed.

(** ** The two end-to-end scenarios of the design document *)

Example scenario_linear :
  let a := {| id := "a"; data := plainData "A" 1 SQL "SELECT 1" |} in
  let b := {| id := "b"; data := plainData "B" 2 CONCAT "{{step_1}}" |} in
  let edges := [ {| edge_id := "e0"; source := "start"; target := "a" |};
                 {| edge_id := "e1"; source := "a"; target := "b" |} ] in
  generateFlowJson [startNode; a; b] edges
    {| iterateFlow := false; getIterateList := ""; flowName := "F" |}
  = plainJson "F" [plainStep 1 "A" SQL "SELECT 1";
                   withDependsOn "1" (plainStep 2 "B" CONCAT "{{step_1}}")]
  /\ flowWarnings [startNode; a; b] edges false "" = [].
Proof. split; vm_compute; reflexivity. Qed.

Example scenario_iterating :
  let a := {| id := "a"; data := plainData "A" 1 SQL "SELECT {{iteration_value}}" |} in
  let b := {| id := "b"; data := plainData "B" 2 CONCAT "{{step_1}}" |} in
  let edges := [ {| edge_id := "e0"; source := "start"; target := "a" |};
                 {| edge_id := "e1"; source := "a"; target := "b" |} ] in
  generateFlowJson [startNode; a; b] edges
    {| iterateFlow := true; getIterateList := "SELECT id FROM t"; flowName := "F" |}
  = iteratingJson "F" "SELECT id FROM t" [1]
      [plainStep 1 "A" SQL "SELECT {{iteration_value}}";
       withDependsOn "1" (plainStep 2 "B" CONCAT "{{step_1}}")]
  /\ flowWarnings [startNode; a; b] edges true "SELECT id FROM t" = [].
Proof. split; vm_compute; reflexivity. Qed.

(** ** Two remarks on the embedding *)

(** [targetId] is defined for every step record: the arm of
    [dependencyEdges] that finds no target is never taken. *)
Lemma lookup_own_order (stamp : nat -> string) (json : FlowJson) (step : FlowStep.t) :
  In step (steps json) ->
  exists t, snd (rebuildSteps stamp json) !! FlowStep.sequence_order step = Some t.
Proof.
  intros Hin.
  destruct (snd (rebuildSteps stamp json) !! FlowStep.sequence_order step) as [t|] eqn:E;
    [eauto|].
  exfalso. apply (proj1 (lookup_absent stamp json _) E step Hin). reflexivity.
Qed.

Lemma scanClose_shorter (s tag rest : string) :
  scanClose s = Some (tag, rest) -> (String.length rest + 2 <= String.length s)%nat.
Proof.
  revert tag. induction s as [|c r IH]; intros tag; [discriminate|].
  assert (Hstep : (if isLineTerminator c then None
                   else match scanClose r with
                        | Some (tag0, rest0) => Some (String c tag0, rest0)
                        | None => None
                        end) = Some (tag, rest) ->
                  (String.length rest + 2 <= String.length (String c r))%nat).
  { destruct (isLineTerminator c); [discriminate|].
    destruct (scanClose r) as [[tag0 rest0]|] eqn:E; [|discriminate].
    intros [= <- <-]. specialize (IH tag0 eq_refl). simpl. lia. }
  simpl scanClose.
  destruct c as [[] [] [] [] [] [] [] []]; try exact Hstep.
  destruct r as [|c' r']; [exact Hstep|].
  destruct c' as [[] [] [] [] [] [] [] []]; try exact Hstep.
  intros [= <- <-]. simpl. lia.
Qed.

(** The fuel of [matchAllTags] is enough: more fuel finds the same tags. *)
Lemma matchTags_fuel (fuel : nat) (s : string) :
  (String.length s <= fuel)%nat -> matchTags fuel s = matchAllTags s.
Proof.
  unfold matchAllTags.
  assert (H : forall f1 f2 s, (String.length s <= f1)%nat -> (String.length s <= f2)%nat ->
                              matchTags f1 s = matchTags f2 s).
  { intros f1. induction f1 as [|f1 IH]; intros f2 s0 H1 H2.
    - destruct s0; [|simpl in H1; lia]. destruct f2; reflexivity.
    - destruct f2 as [|f2]; [destruct s0; [reflexivity | simpl in H2; lia]|].
      destruct s0 as [|c r]; [reflexivity|]. simpl in H1, H2.
      assert (Hr : matchTags f1 r = matchTags f2 r) by (apply IH; lia).
      simpl matchTags.
      destruct c as [[] [] [] [] [] [] [] []]; try exact Hr.
      destruct r as [|c' r']; [exact Hr|].
      destruct c' as [[] [] [] [] [] [] [] []]; try exact Hr.
      destruct (scanClose r') as [[tag rest]|] eqn:E; [|exact Hr].
      apply scanClose_shorter in E. simpl in H1, H2. f_equal. apply IH; lia. }
  intros Hle. apply H; [exact Hle | lia].
Qed.

(** * Further properties of the editor *)

(** ** Deleting *)

Lemma strictNe_true (s x : string) : strictNe (Some s) x = true <-> x <> s.
Proof. simpl. rewrite negb_true_iff. apply String.eqb_neq. Qed.

(** X1.  Deleting the selected node removes the nodes of that identifier and
    every edge that starts or ends there, and nothing else; a graph whose
    edges all join existing nodes stays such a graph. *)
Theorem delete_node_cascades (st : AppState) (s : string) :
  a_selectedNodeId st = Some s -> s <> "" -> s <> "start" ->
  (forall n, In n (a_nodes (deleteSelected st)) <-> In n (a_nodes st) /\ id n <> s)
  /\ (forall e, In e (a_edges (deleteSelected st))
                <-> In e (a_edges st) /\ source e <> s /\ target e <> s)
  /\ (closedGraph (a_nodes st) (a_edges st) ->
      closedGraph (a_nodes (deleteSelected st)) (a_edges (deleteSelected st))).
Proof.
  intros Hsel Hne Hns.
  assert (Hnodes : forall n, In n (a_nodes (deleteSelected st))
                             <-> In n (a_nodes st) /\ id n <> s).
  { intros n. unfold deleteSelected. rewrite Hsel, (truthy_str_Some s Hne).
    cbn [notStart andb]. apply String.eqb_neq in Hns. rewrite Hns. cbn [negb a_nodes].
    rewrite filter_In, strictNe_true. tauto. }
  assert (Hedges : forall e, In e (a_edges (deleteSelected st))
                             <-> In e (a_edges st) /\ source e <> s /\ target e <> s).
  { intros e. unfold deleteSelected. rewrite Hsel, (truthy_str_Some s Hne).
    cbn [notStart andb]. apply String.eqb_neq in Hns. rewrite Hns. cbn [negb a_edges].
    rewrite filter_In, andb_true_iff, !strictNe_true. tauto. }
  split; [exact Hnodes|]. split; [exact Hedges|].
  intros Hclosed e He. apply Hedges in He. destruct He as (He & Hs & Ht).
  destruct (Hclosed e He) as [Hsrc Htgt].
  apply in_map_iff in Hsrc, Htgt.
  destruct Hsrc as [a [Ha Hain]]. destruct Htgt as [b [Hb Hbin]].
  split; apply in_map_iff.
  - exists a. split; [exact Ha|]. apply Hnodes. split; [exact Hain | congruence].
  - exists b. split; [exact Hb|]. apply Hnodes. split; [exact Hbin | congruence].
Qed.

Lemma delete_node_cascades_witness :
  a_edges (deleteSelected
             {| a_nodes := exampleNodes; a_edges := exampleEdges;
                a_selectedNodeId := Some "q"; a_selectedEdgeId := None;
                a_flowName := "F"; a_iterateFlow := true; a_getIterateList := "" |}) = []
  /\ closedGraph
       (a_nodes (deleteSelected
                   {| a_nodes := exampleNodes; a_edges := exampleEdges;
                      a_selectedNodeId := Some "q"; a_selectedEdgeId := None;
                      a_flowName := "F"; a_iterateFlow := true; a_getIterateList := "" |}))
       (a_edges (deleteSelected
                   {| a_nodes := exampleNodes; a_edges := exampleEdges;
                      a_selectedNodeId := Some "q"; a_selectedEdgeId := None;
                      a_flowName := "F"; a_iterateFlow := true; a_getIterateList := "" |})).
Proof.
  split; [reflexivity|].
  assert (H1 : "q" <> "") by discriminate.
  assert (H2 : "q" <> "start") by discriminate.
  apply (proj2 (proj2 (delete_node_cascades
                         {| a_nodes := exampleNodes; a_edges := exampleEdges;
                            a_selectedNodeId := Some "q"; a_selectedEdgeId := None;
                            a_flowName := "F"; a_iterateFlow := true;
                            a_getIterateList := "" |} "q" eq_refl H1 H2))).
  intros e [<-|[<-|[]]]; simpl; auto 10.
Defined.

(** ** What every reachable state satisfies *)

Lemma filter_length_map {A : Type} (f : A -> bool) (g : A -> A) (l : list A) :
  (forall x, f (g x) = f x) ->
  List.length (List.filter f (map g l)) = List.length (List.filter f l).
Proof.
  intros H. induction l as [|x r IH]; simpl; [reflexivity|].
  rewrite H. destruct (f x); simpl; now rewrite IH.
Qed.

Lemma filter_length_kept {A : Type} (f P : A -> bool) (l : list A) :
  (forall x, In x l -> f x = true -> P x = true) ->
  List.length (List.filter f (List.filter P l)) = List.length (List.filter f l).
Proof.
  induction l as [|x r IH]; intros H; simpl; [reflexivity|].
  assert (Hr : forall y, In y r -> f y = true -> P y = true)
    by (intros y Hy; apply H; now right).
  destruct (f x) eqn:Hf.
  - rewrite (H x (or_introl eq_refl) Hf). simpl. rewrite Hf. simpl. now rewrite IH.
  - destruct (P x); simpl; [rewrite Hf|]; now apply IH.
Qed.

Lemma mergeData_field_start (d : FlowNodeData.t) (f : Field) :
  FlowNodeData.isStartNode (mergeData d (partialOf f)) = FlowNodeData.isStartNode d.
Proof. destruct f; reflexivity. Qed.

Lemma oneStart_initial : oneStart (a_nodes initialState).
Proof.
  split; [reflexivity|]. intros n [<-|[]]. split; reflexivity.
Qed.

Lemma oneStart_addNode (stamp : string) (t : StepType) (nodes : list Node) :
  oneStart nodes -> oneStart (addNode stamp t nodes).
Proof.
  intros [Hlen Hid]. unfold addNode. split.
  - rewrite List.filter_app, length_app, Hlen. reflexivity.
  - intros n Hn. apply in_app_or in Hn. destruct Hn as [Hn|[<-|[]]]; [now apply Hid|].
    split; intros H; discriminate H.
Qed.

Lemma oneStart_update (i : string) (f : Field) (nodes : list Node) :
  oneStart nodes -> oneStart (updateNodeData i (partialOf f) nodes).
Proof.
  intros [Hlen Hid]. unfold updateNodeData.
  set (g := fun node => if String.eqb (id node) i
                        then {| id := id node; data := mergeData (data node) (partialOf f) |}
                        else node).
  assert (Hst : forall n, isStart (g n) = isStart n).
  { intros n. unfold g. destruct (String.eqb (id n) i); [|reflexivity].
    unfold isStart. cbn [data]. apply mergeData_field_start. }
  assert (Hi : forall n, id (g n) = id n).
  { intros n. unfold g. destruct (String.eqb (id n) i); reflexivity. }
  split.
  - rewrite (filter_length_map isStart g nodes Hst). exact Hlen.
  - intros n Hn. apply in_map_iff in Hn. destruct Hn as [x [<- Hx]].
    rewrite Hst, Hi. now apply Hid.
Qed.

Lemma oneStart_delete (s : string) (nodes : list Node) :
  s <> "start" -> oneStart nodes ->
  oneStart (List.filter (fun n => strictNe (Some s) (id n)) nodes).
Proof.
  intros Hs [Hlen Hid]. split.
  - rewrite filter_length_kept; [exact Hlen|].
    intros x Hx Hst. apply strictNe_true. apply Hid in Hst; [|exact Hx]. congruence.
  - intros n Hn. apply filter_In in Hn. now apply Hid.
Qed.

Lemma oneStart_restored (stamp : nat -> string) (json : FlowJson) :
  oneStart (r_nodes (restoreFlowFromJson stamp json)).
Proof.
  rewrite restored_nodes_eq. fold (restoredSteps stamp json). split.
  - simpl. f_equal.
    assert (H : forall l, (forall n, In n l -> isStart n = false) ->
                          List.filter isStart l = []).
    { induction l as [|x r IH]; intros H; simpl; [reflexivity|].
      rewrite (H x (or_introl eq_refl)). apply IH. intros n Hn. apply H. now right. }
    rewrite H; [reflexivity|].
    intros n Hn. apply restoredSteps_In in Hn. destruct Hn as (j & s & _ & ->).
    apply stepNodeAt_not_start.
  - intros n [<-|Hn]; [split; reflexivity|].
    apply restoredSteps_In in Hn. destruct Hn as (j & s & _ & ->).
    rewrite stepNodeAt_not_start. cbn [id stepNodeAt]. split; [discriminate|].
    intros H. now apply freshId_not_start in H.
Qed.

Lemma act_keeps_invariant (a : Action) (st : AppState) :
  oneStart (a_nodes st) /\ selectionExclusive st ->
  oneStart (a_nodes (act a st)) /\ selectionExclusive (act a st).
Proof.
  intros [H1 Hsel]. unfold selectionExclusive in *.
  destruct a; cbn [act a_nodes a_selectedNodeId a_selectedEdgeId]; auto.
  - split; [now apply oneStart_addNode | now right].
  - unfold deleteSelected.
    destruct (truthy_str (a_selectedNodeId st)) eqn:Hn; cbn [andb].
    + destruct (a_selectedNodeId st) as [s|] eqn:Es; [|discriminate Hn].
      cbn [notStart]. destruct (String.eqb_spec s "start") as [->|Hs]; cbn [negb].
      * destruct Hsel as [Hsel|Hsel]; [discriminate Hsel|]. rewrite Hsel, Es.
        split; [exact H1 | now right].
      * cbn [a_nodes a_selectedNodeId a_selectedEdgeId].
        split; [now apply oneStart_delete | now left].
    + destruct (truthy_str (a_selectedEdgeId st));
        cbn [a_nodes a_selectedNodeId a_selectedEdgeId]; split; auto.
  - split; [now apply oneStart_update | exact Hsel].
  - split; [apply oneStart_restored | now left].
Qed.

Lemma run_keeps_invariant (actions : list Action) (st : AppState) :
  oneStart (a_nodes st) /\ selectionExclusive st ->
  oneStart (a_nodes (run actions st)) /\ selectionExclusive (run actions st).
Proof.
  revert st. induction actions as [|a l IH]; intros st H; [exact H|].
  apply (IH (act a st)). now apply act_keeps_invariant.
Qed.

Lemma initial_invariant : oneStart (a_nodes initialState) /\ selectionExclusive initialState.
Proof. split; [apply oneStart_initial | now left]. Qed.

(** X2.  Whatever the user does, and whatever is imported, the graph has
    exactly one start node, it is the only node called [start], and it is
    in the node list. *)
Theorem session_one_start (actions : list Action) :
  oneStart (a_nodes (run actions initialState))
  /\ exists n, In n (a_nodes (run actions initialState))
               /\ id n = "start" /\ isStart n = true.
Proof.
  destruct (run_keeps_invariant actions initialState initial_invariant) as [H _].
  split; [exact H|]. destruct H as [Hlen Hid].
  destruct (List.filter isStart (a_nodes (run actions initialState))) as [|n r] eqn:E;
    [discriminate Hlen|].
  assert (Hn : In n (List.filter isStart (a_nodes (run actions initialState))))
    by (rewrite E; now left).
  apply filter_In in Hn. destruct Hn as [Hn Hst].
  exists n. split; [exact Hn|]. split; [now apply Hid | exact Hst].
Qed.

(** X3.  A node and an edge are never selected together; so with the start
    node selected, deleting changes neither the nodes nor the edges. *)
Theorem session_start_not_deletable (actions : list Action) :
  selectionExclusive (run actions initialState)
  /\ (a_selectedNodeId (run actions initialState) = Some "start" ->
      a_nodes (deleteSelected (run actions initialState))
      = a_nodes (run actions initialState)
      /\ a_edges (deleteSelected (run actions initialState))
         = a_edges (run actions initialState)).
Proof.
  destruct (run_keeps_invariant actions initialState initial_invariant) as [_ Hsel].
  split; [exact Hsel|]. intros Hs. unfold deleteSelected. rewrite Hs.
  cbn [truthy_str notStart String.eqb negb andb].
  destruct Hsel as [Hsel|Hsel]; [rewrite Hs in Hsel; discriminate Hsel|].
  rewrite Hsel. auto.
Qed.

Lemma session_start_not_deletable_witness :
  a_nodes (deleteSelected (run [AddNode "t" SQL; NodeClick "start"] initialState))
  = a_nodes (run [AddNode "t" SQL; NodeClick "start"] initialState).
Proof.
  apply (proj2 (session_start_not_deletable [AddNode "t" SQL; NodeClick "start"])).
  reflexivity.
Defined.

(** ** Adding nodes and connecting *)

Lemma duplicate_warning_iff (nodes : list Node) (edges : list Edge) (it : bool) (q : string) :
  In msgDuplicate (flowWarnings nodes edges it q) <-> hasDuplicates nodes = true.
Proof.
  rewrite (count_occ_In string_dec), duplicate_message_count.
  destruct (hasDuplicates nodes); split; intros H; try lia; congruence.
Qed.

(** X4.  As long as the highest sequence order is a safe integer (below
    2^53, where adding 1 is exact), [addNode] appends one node whose order
    is strictly above the order of every node that was there, the start
    node included; so it never creates a duplicate-order warning, and never
    removes one. *)
Theorem addNode_no_new_duplicate (stamp : string) (t : StepType) (nodes : list Node)
    (edges : list Edge) (it : bool) (q : string) :
  safeInteger (maxOrder nodes) ->
  (exists c, addNode stamp t nodes = (nodes ++ [c])%list
             /\ forall n, In n nodes -> order n < order c)
  /\ (In msgDuplicate (flowWarnings (addNode stamp t nodes) edges it q)
      <-> In msgDuplicate (flowWarnings nodes edges it q)).
Proof.
  intros Hsafe. split.
  { eexists. split; [reflexivity|]. intros n Hn.
    unfold order at 2. cbn [data FlowNodeData.sequence_order].
    rewrite (double_succ _ Hsafe). pose proof (maxOrder_ge nodes n Hn). lia. }
  rewrite !duplicate_warning_iff, !hasDuplicates_iff. unfold addNode. split.
  - intros (i & j & n & m & Hij & Hi & Hj & E).
    assert (Hjl : (j < List.length nodes)%nat \/ j = List.length nodes).
    { assert (j < List.length (nodes ++ [m]))%nat.
      { apply nth_error_Some. rewrite nth_error_app in Hj |- *.
        destruct (Nat.ltb_spec j (List.length nodes)); [congruence|].
        destruct (j - List.length nodes)%nat as [|k] eqn:Ek; simpl in Hj |- *;
          [discriminate | destruct k; discriminate]. }
      rewrite length_app in H. simpl in H. lia. }
    destruct Hjl as [Hjl | ->].
    + exists i, j, n, m. rewrite !nth_error_app1 in Hi, Hj by lia. auto.
    + exfalso. rewrite nth_error_app1 in Hi by lia.
      rewrite nth_error_app2, Nat.sub_diag in Hj by lia. simpl in Hj.
      injection Hj as <-. unfold order at 2 in E. cbn [data FlowNodeData.sequence_order] in E.
      rewrite (double_succ _ Hsafe) in E.
      pose proof (maxOrder_ge nodes n (nth_error_In _ _ Hi)). lia.
  - intros (i & j & n & m & Hij & Hi & Hj & E). exists i, j, n, m.
    assert (j < List.length nodes)%nat by (apply nth_error_Some; congruence).
    rewrite !nth_error_app1 by lia. auto.
Qed.

Lemma addNode_no_new_duplicate_witness :
  ~ In msgDuplicate (flowWarnings (addNode "t" CONCAT exampleNodes) exampleEdges true "q").
Proof.
  assert (Hsafe : safeInteger (maxOrder exampleNodes)) by (vm_compute; reflexivity).
  intros H.
  apply (proj2 (addNode_no_new_duplicate "t" CONCAT exampleNodes exampleEdges true "q" Hsafe))
    in H.
  vm_compute in H. repeat (destruct H as [H|H]; [discriminate H|]). exact H.
Defined.

Lemma startEdges_addEdge (e : Edge) (eds : list Edge) :
  startEdgesCount (addEdge e eds)
  = if existsb (fun el => String.eqb (source el) (source e)
                          && String.eqb (target el) (target e)) eds
    then startEdgesCount eds
    else (startEdgesCount eds + if String.eqb (source e) "start" then 1 else 0)%nat.
Proof.
  unfold addEdge, startEdgesCount. destruct (existsb _ eds); [reflexivity|].
  rewrite List.filter_app, length_app. simpl.
  destruct (String.eqb (source e) "start"); reflexivity.
Qed.

Lemma onConnect_start_edges (params : Connection) (eds : list Edge) :
  (startEdgesCount eds <= 1)%nat ->
  (startEdgesCount (onConnect false params eds) <= 1)%nat.
Proof.
  intros H. unfold onConnect.
  destruct (negb (truthy_str (c_source params)) || negb (truthy_str (c_target params)));
    [exact H|].
  destruct (c_source params) as [s|]; [|exact H].
  destruct (c_target params) as [t|]; [|exact H].
  destruct (validateConnections false s t eds) eqn:Hv; cbn [negb]; [|exact H].
  rewrite startEdges_addEdge. destruct (existsb _ eds); [exact H|].
  cbn [source connectionEdge]. destruct (String.eqb_spec s "start") as [->|Hs]; [|lia].
  unfold validateConnections in Hv. cbn [String.eqb negb andb] in Hv.
  change (String.eqb "start" "start") with true in Hv. cbv iota in Hv.
  fold (startEdgesCount eds) in Hv.
  destruct (Nat.ltb_spec 0 (startEdgesCount eds)); [discriminate Hv | lia].
Qed.

Lemma startEdges_filter (f : Edge -> bool) (eds : list Edge) :
  (startEdgesCount (List.filter f eds) <= startEdgesCount eds)%nat.
Proof.
  unfold startEdgesCount. induction eds as [|e r IH]; simpl; [lia|].
  destruct (f e); simpl; destruct (String.eqb (source e) "start"); simpl; lia.
Qed.

Lemma plain_run_invariant (actions : list Action) (st : AppState) :
  forallb plainAction actions = true ->
  a_iterateFlow st = false -> (startEdgesCount (a_edges st) <= 1)%nat ->
  a_iterateFlow (run actions st) = false
  /\ (startEdgesCount (a_edges (run actions st)) <= 1)%nat.
Proof.
  revert st. induction actions as [|a l IH]; intros st Hp Hit Hc; [auto|].
  simpl in Hp. apply andb_true_iff in Hp. destruct Hp as [Ha Hl].
  apply (IH (act a st) Hl).
  - destruct a; cbn [act a_iterateFlow]; try exact Hit.
    + unfold deleteSelected.
      destruct (truthy_str (a_selectedNodeId st) && notStart (a_selectedNodeId st));
        [exact Hit|]. destruct (truthy_str (a_selectedEdgeId st)); exact Hit.
    + simpl in Ha. now apply negb_true_iff in Ha.
    + discriminate Ha.
  - destruct a; cbn [act a_edges]; try exact Hc.
    + rewrite Hit. now apply onConnect_start_edges.
    + unfold deleteSelected.
      destruct (truthy_str (a_selectedNodeId st) && notStart (a_selectedNodeId st));
        [cbn [a_edges]; etransitivity; [apply startEdges_filter | exact Hc]|].
      destruct (truthy_str (a_selectedEdgeId st));
        [cbn [a_edges]; etransitivity; [apply startEdges_filter | exact Hc] | exact Hc].
    + discriminate Ha.
Qed.

Lemma start_warning_iff (nodes : list Node) (edges : list Edge) (it : bool) (q : string) :
  In msgStart (flowWarnings nodes edges it q)
  <-> it = false /\ (2 <= startEdgesCount edges)%nat.
Proof.
  unfold flowWarnings, globalWarnings. rewrite !in_app_iff.
  assert (E1 : forall b : bool, In msgStart (if b then [msgDuplicate] else []) <-> False).
  { intros []; simpl; [|tauto]. split; [intros [H|[]]; discriminate | tauto]. }
  assert (E3 : In msgStart (match stepNodes nodes with
                            | [] => []
                            | (first :: _) as l =>
                                if isType CONCAT (lastNode first l) then [] else [msgConcat]
                            end) <-> False).
  { destruct (stepNodes nodes) as [|first l]; [simpl; tauto|].
    destruct (isType CONCAT (lastNode first (first :: l))); simpl; [tauto|].
    split; [intros [H|[]]; discriminate | tauto]. }
  assert (E4 : forall b : bool, In msgStart (if b then [msgQuery] else []) <-> False).
  { intros []; simpl; [|tauto]. split; [intros [H|[]]; discriminate | tauto]. }
  assert (E5 : In msgStart (flat_map (nodeWarnings nodes edges it) nodes) <-> False).
  { split; [|tauto]. intros H. apply perNode_step in H. destruct H as [r Hr]. discriminate. }
  rewrite E1, E3, E4, E5.
  destruct it; cbn [negb andb].
  - simpl. split; [tauto | intros [H _]; discriminate].
  - destruct (Nat.ltb_spec 1 (startEdgesCount edges)); simpl.
    + split; [intros _; split; [reflexivity | lia] | tauto].
    + split; [tauto | intros [_ H']; lia].
Qed.

(** X5.  As long as iteration was never switched on and nothing was imported,
    the start node has at most one outgoing edge, the start edges are not
    painted as errors and the start-connection warning does not show. *)
Theorem plain_session_single_start_path (actions : list Action) :
  forallb plainAction actions = true ->
  (startEdgesCount (a_edges (run actions initialState)) <= 1)%nat
  /\ isStartConfigurationValid (a_iterateFlow (run actions initialState))
                               (a_edges (run actions initialState)) = true
  /\ ~ In msgStart (flowWarnings (a_nodes (run actions initialState))
                                 (a_edges (run actions initialState))
                                 (a_iterateFlow (run actions initialState))
                                 (a_getIterateList (run actions initialState))).
Proof.
  intros Hp.
  assert (H0 : (startEdgesCount (a_edges initialState) <= 1)%nat)
    by (unfold initialState, startEdgesCount; simpl; lia).
  destruct (plain_run_invariant actions initialState Hp eq_refl H0) as [Hit Hc].
  split; [exact Hc|]. split.
  - rewrite Hit. cbn [isStartConfigurationValid]. now apply Nat.leb_le.
  - rewrite start_warning_iff. intros [_ H]. lia.
Qed.

Lemma plain_session_single_start_path_witness :
  (startEdgesCount
     (a_edges (run [AddNode "t" SQL; AddNode "u" CONCAT;
                    Connect {| c_source := Some "start"; c_target := Some "node-2-t" |};
                    Connect {| c_source := Some "start"; c_target := Some "node-3-u" |}]
                   initialState)) <= 1)%nat.
Proof.
  apply (plain_session_single_start_path
           [AddNode "t" SQL; AddNode "u" CONCAT;
            Connect {| c_source := Some "start"; c_target := Some "node-2-t" |};
            Connect {| c_source := Some "start"; c_target := Some "node-3-u" |}]).
  reflexivity.
Defined.

(** ** Updating a node *)

Lemma spread_twice {A : Type} (x : A) (a b : option A) :
  spread (spread x a) b = spread x (match b with Some _ => b | None => a end).
Proof. destruct b; reflexivity. Qed.

Lemma mergeData_overlay (d : FlowNodeData.t) (p1 p2 : Partial.t) :
  mergeData (mergeData d p1) p2 = mergeData d (overlay p1 p2).
Proof.
  unfold mergeData, overlay. cbv zeta.
  cbn [FlowNodeData.label FlowNodeData.sequence_order FlowNodeData.type FlowNodeData.value
       FlowNodeData.append_iteration_column FlowNodeData.append_time_column
       FlowNodeData.time_amount FlowNodeData.time_grain FlowNodeData.time_mode
       FlowNodeData.reference_date FlowNodeData.llm_model FlowNodeData.max_retry
       FlowNodeData.isStartNode
       Partial.label Partial.sequence_order Partial.type Partial.value
       Partial.append_iteration_column Partial.append_time_column
       Partial.time_amount Partial.time_grain Partial.time_mode
       Partial.reference_date Partial.llm_model Partial.max_retry Partial.isStartNode].
  rewrite !spread_twice. reflexivity.
Qed.

(** X6.  [updateNodeData] keeps the identifiers and the places of the nodes
    and leaves the nodes of other identifiers alone; two updates of one
    node amount to one update with the second object laid over the first,
    and updates of different nodes can be done in either order. *)
Theorem updateNodeData_laws (i j : string) (p q : Partial.t) (nds : list Node) :
  map id (updateNodeData i p nds) = map id nds
  /\ (forall k n, nth_error nds k = Some n -> id n <> i ->
                  nth_error (updateNodeData i p nds) k = Some n)
  /\ updateNodeData i q (updateNodeData i p nds) = updateNodeData i (overlay p q) nds
  /\ (i <> j ->
      updateNodeData i p (updateNodeData j q nds)
      = updateNodeData j q (updateNodeData i p nds)).
Proof.
  unfold updateNodeData. split; [|split; [|split]].
  - rewrite map_map. apply map_ext. intros n.
    destruct (String.eqb (id n) i); reflexivity.
  - intros k n Hk Hne. rewrite nth_error_map, Hk. simpl.
    apply String.eqb_neq in Hne. now rewrite Hne.
  - rewrite map_map. apply map_ext. intros n.
    destruct (String.eqb (id n) i) eqn:E; cbn [id]; rewrite E; [|reflexivity].
    cbn [data]. now rewrite mergeData_overlay.
  - intros Hij. rewrite !map_map. apply map_ext. intros n.
    destruct (String.eqb (id n) i) eqn:Ei; destruct (String.eqb (id n) j) eqn:Ej;
      cbn [id]; rewrite ?Ei, ?Ej; try reflexivity.
    apply String.eqb_eq in Ei, Ej. congruence.
Qed.

Lemma updateNodeData_laws_witness :
  updateNodeData "q" (partialOf (FLabel "a")) (updateNodeData "c" (partialOf (FValue "v")) exampleNodes)
  = updateNodeData "c" (partialOf (FValue "v")) (updateNodeData "q" (partialOf (FLabel "a")) exampleNodes).
Proof.
  apply (proj2 (proj2 (proj2 (updateNodeData_laws "q" "c" (partialOf (FLabel "a"))
                                (partialOf (FValue "v")) exampleNodes)))).
  discriminate.
Defined.

(** ** The variables offered for the selected node *)

Lemma map_insert_sorted {A : Type} (key : A -> Z) (x : A) (l : list A) :
  map key (insert_sorted key x l) = insert_sorted (fun z => z) (key x) (map key l).
Proof.
  induction l as [|y r IH]; simpl; [reflexivity|].
  destruct (key x <=? key y)%Z; simpl; [reflexivity | now rewrite IH].
Qed.

Lemma map_sort_by {A : Type} (key : A -> Z) (l : list A) :
  map key (sort_by key l) = sort_by (fun z => z) (map key l).
Proof.
  induction l as [|x r IH]; simpl; [reflexivity|].
  now rewrite map_insert_sorted, IH.
Qed.

Lemma selected_dependencies_eq (nodes : list Node) (edges : list Edge) (node : Node) :
  id node <> "" ->
  selectedNodeDependencies (Some (id node)) nodes edges
  = (sort_by sequence
       (map dependencyOf
            (List.filter (fun n => includes (sourceIds edges node) (id n) && negb (isStart n))
                         nodes)),
     isConnectedToStart edges node).
Proof.
  intros Hne. unfold selectedNodeDependencies, isConnectedToStart, sourceIds.
  rewrite (truthy_str_Some _ Hne). cbn [negb strictNe].
  assert (E : List.filter (fun e => negb (negb (String.eqb (target e) (id node)))) edges
              = List.filter (fun e => String.eqb (target e) (id node)) edges).
  { apply List.filter_ext. intros e. apply negb_involutive. }
  rewrite E. reflexivity.
Qed.

Lemma selected_dependencies_In (nodes : list Node) (edges : list Edge) (node : Node)
    (p : Dependency) :
  id node <> "" ->
  In p (fst (selectedNodeDependencies (Some (id node)) nodes edges)) <->
  exists n, In n nodes /\ isStart n = false /\ p = dependencyOf n
            /\ exists e, In e edges /\ target e = id node /\ source e = id n.
Proof.
  intros Hne. rewrite (selected_dependencies_eq nodes edges node Hne). cbn [fst].
  set (l := map dependencyOf _).
  assert (Hp : Permutation (sort_by sequence l) l) by apply sort_by_perm.
  assert (Hl : In p l <->
               exists n, In n nodes /\ isStart n = false /\ p = dependencyOf n
                         /\ exists e, In e edges /\ target e = id node /\ source e = id n).
  { unfold l. rewrite in_map_iff. split.
    - intros [n [<- Hn]]. apply filter_In in Hn. destruct Hn as [Hn Hc].
      apply andb_true_iff in Hc. destruct Hc as [Hi Hs].
      apply negb_true_iff in Hs. apply includes_In, sourceIds_In in Hi.
      exists n. auto.
    - intros [n (Hn & Hs & -> & He)]. exists n. split; [reflexivity|].
      apply filter_In. split; [exact Hn|]. apply andb_true_iff.
      split; [now apply includes_In, sourceIds_In | now apply negb_true_iff]. }
  rewrite <- Hl. split; apply Permutation_in; [exact Hp | now apply Permutation_sym].
Qed.

(** X7.  When only the start node is called [start], the variables that the
    sidebar offers for a node are, in this order, the sequence orders that
    the compiler writes into its [depends_on]; and the sidebar's start
    flag is the one the validator uses. *)
Theorem offered_variables_are_dependencies (nodes : list Node) (edges : list Edge)
    (node : Node) :
  id node <> "" ->
  (forall n, In n nodes -> id n = "start" -> isStart n = true) ->
  map sequence (fst (selectedNodeDependencies (Some (id node)) nodes edges))
  = dependsOnList nodes edges node
  /\ snd (selectedNodeDependencies (Some (id node)) nodes edges)
     = isConnectedToStart edges node.
Proof.
  intros Hne Hstart. rewrite (selected_dependencies_eq nodes edges node Hne).
  cbn [fst snd]. split; [|reflexivity].
  rewrite map_sort_by, map_map, dependsOnList_eq. f_equal.
  change (fun x => sequence (dependencyOf x)) with order. f_equal.
  apply filter_ext_in. intros n Hn. unfold isDirectPred.
  destruct (isStart n) eqn:Hs; [now rewrite !andb_false_r|]. rewrite !andb_true_r.
  apply Bool.eq_iff_eq_true. rewrite !includes_In, sourceIds_In, in_map_iff. split.
  - intros [e (He & Ht & Hsrc)]. exists e. split; [exact Hsrc|].
    unfold incomingDependencyEdges. apply filter_In. split; [exact He|].
    apply andb_true_iff. split; [now apply String.eqb_eq|].
    apply negb_true_iff, String.eqb_neq. intros E.
    assert (isStart n = true) by (apply Hstart; [exact Hn | congruence]). congruence.
  - intros [e [Hsrc He]]. unfold incomingDependencyEdges in He.
    apply filter_In in He. destruct He as [He Hc].
    apply andb_true_iff in Hc. destruct Hc as [Ht _]. apply String.eqb_eq in Ht.
    exists e. auto.
Qed.

Lemma offered_variables_are_dependencies_witness :
  map sequence (fst (selectedNodeDependencies (Some "c") exampleNodes exampleEdges))
  = dependsOnList exampleNodes exampleEdges report.
Proof.
  apply (offered_variables_are_dependencies exampleNodes exampleEdges report).
  - discriminate.
  - intros n [<-|[<-|[<-|[]]]] H; [reflexivity | discriminate H | discriminate H].
Defined.

Lemma sidebar_step_tag (it conn : bool) (deps : list Dependency) (N : Z) :
  safeInteger N ->
  sidebarTagErrors it conn deps ("step_" ++ String_of_Z N) = []
  <-> exists p, In p deps /\ sequence p = N.
Proof.
  intros HN. unfold sidebarTagErrors.
  change (String.eqb ("step_" ++ String_of_Z N) "iteration_value") with false.
  rewrite startsWith_step, removeFirst_step, (parseInt_String_of_Z N HN). cbv zeta iota.
  destruct (existsb (fun p => Z.eqb (sequence p) N) deps) eqn:E.
  - split; [intros _ | reflexivity]. apply existsb_exists in E.
    destruct E as [p [Hp Hs]]. apply Z.eqb_eq in Hs. eauto.
  - split; [discriminate|]. intros [p [Hp Hs]]. exfalso.
    assert (existsb (fun p => Z.eqb (sequence p) N) deps = true).
    { apply existsb_exists. exists p. split; [exact Hp | now apply Z.eqb_eq]. }
    congruence.
Qed.



(** X9.  For a safe integer [N] (below 2^53 in magnitude), the sidebar
    accepts the tag [step_N], [N] in plain decimal, exactly when some edge
    into the node comes from a node of order [N] that is not the start
    node. *)
Theorem sidebar_one_hop_excludes_start (nodes : list Node) (edges : list Edge)
    (it : bool) (node : Node) (N : Z) :
  id node <> "" ->
  safeInteger N ->
  sidebarTagErrors it (snd (selectedNodeDependencies (Some (id node)) nodes edges))
    (fst (selectedNodeDependencies (Some (id node)) nodes edges))
    ("step_" ++ String_of_Z N) = []
  <-> exists n e, In n nodes /\ isStart n = false /\ order n = N
                  /\ In e edges /\ source e = id n /\ target e = id node.
Proof.
  intros Hne HN. rewrite (sidebar_step_tag _ _ _ _ HN). split.
  - intros [p [Hp Hs]]. apply (selected_dependencies_In nodes edges node p Hne) in Hp.
    destruct Hp as [n (Hn & Hst & -> & e & He & Ht & Hsrc)]. exists n, e.
    repeat split; assumption.
  - intros (n & e & Hn & Hst & Ho & He & Hs & Ht). exists (dependencyOf n).
    split; [|exact Ho]. apply (selected_dependencies_In nodes edges node _ Hne).
    exists n. repeat split; auto. eauto.
Qed.

Lemma sidebar_one_hop_excludes_start_witness :
  sidebarTagErrors true
    (snd (selectedNodeDependencies (Some "q") exampleNodes exampleEdges))
    (fst (selectedNodeDependencies (Some "q") exampleNodes exampleEdges))
    ("step_" ++ String_of_Z 0) <> [].
Proof.
  intros H.
  assert (Hne : id timedQuery <> "") by discriminate.
  assert (HN : safeInteger 0) by (vm_compute; reflexivity).
  apply (proj1 (sidebar_one_hop_excludes_start exampleNodes exampleEdges true timedQuery 0
                  Hne HN))
    in H.
  destruct H as (n & e & Hn & Hst & Ho & He & Hs & Ht).
  destruct Hn as [<-|[<-|[<-|[]]]]; discriminate.
Defined.

Lemma tag_warning_shown_in_sidebar (nodes : list Node) (edges : list Edge)
    (it : bool) (node : Node) (tag : string) :
  id node <> "" ->
  tagWarnings nodes edges it node tag <> [] ->
  sidebarTagErrors it (snd (selectedNodeDependencies (Some (id node)) nodes edges))
    (fst (selectedNodeDependencies (Some (id node)) nodes edges)) tag <> [].
Proof.
  intros Hne Hw.
  pose proof (selected_dependencies_In nodes edges node) as Hdeps.
  rewrite (selected_dependencies_eq nodes edges node Hne) in *. cbn [fst snd] in *.
  unfold tagWarnings in Hw. unfold sidebarTagErrors.
  destruct (String.eqb tag "iteration_value").
  - destruct it; cbn [negb orb] in *; [|discriminate].
    destruct (isConnectedToStart edges node); cbn [negb] in *; [congruence | discriminate].
  - destruct (startsWith "step_" tag); [|congruence].
    destruct (parseInt (removeFirst "step_" tag)) as [|z]; [congruence|].
    destruct (existsb (fun p => Z.eqb (order p) z) (predecessors nodes edges node)) eqn:E;
      [congruence|].
    destruct (existsb _ (sort_by sequence _)) eqn:E'; [|discriminate].
    exfalso. apply existsb_exists in E'. destruct E' as [p [Hp Hs]].
    apply Z.eqb_eq in Hs. apply (Hdeps p Hne) in Hp.
    destruct Hp as [n (Hn & _ & -> & e & He & Ht & Hsrc)].
    assert (existsb (fun p => Z.eqb (order p) z) (predecessors nodes edges node) = true).
    { apply existsb_exists. exists n. split; [|now apply Z.eqb_eq].
      apply predecessors_In. split; [exact Hn | eauto]. }
    congruence.
Qed.

Lemma uniq_nil (seen l : list string) : uniq seen l = [] -> forall x, In x l -> In x seen.
Proof.
  revert seen. induction l as [|a l IH]; intros seen H x Hx; [destruct Hx|].
  cbn [uniq] in H. destruct (existsb (String.eqb a) seen) eqn:E; [|discriminate].
  destruct Hx as [<-|Hx]; [|now apply (IH seen H)].
  apply existsb_exists in E. destruct E as [y [Hy Ey]].
  apply String.eqb_eq in Ey. now subst.
Qed.

Lemma uniq_In (seen l : list string) (x : string) : In x (uniq seen l) -> In x l.
Proof.
  revert seen. induction l as [|a l IH]; intros seen H; [destruct H|].
  cbn [uniq] in H. destruct (existsb (String.eqb a) seen).
  - right. eapply IH; eassumption.
  - destruct H as [<-|H]; [now left | right; eapply IH; eassumption].
Qed.

Lemma flat_map_nil {A B : Type} (f : A -> list B) (l : list A) :
  flat_map f l = [] <-> forall x, In x l -> f x = [].
Proof.
  induction l as [|a l IH]; cbn [flat_map].
  - split; [intros _ x [] | reflexivity].
  - split.
    + intros H. apply app_eq_nil in H. destruct H as [Ha Hl].
      intros x [<-|Hx]; [exact Ha | now apply IH].
    + intros H. rewrite (H a (or_introl eq_refl)). cbn [app]. apply IH.
      intros x Hx. apply H. now right.
Qed.

(** X10.  When the sidebar lists no unavailable variable for a step, the
    validator has no placeholder warning for it either. *)
Theorem sidebar_clean_implies_validator_clean (nodes : list Node) (edges : list Edge)
    (it : bool) (node : Node) :
  id node <> "" -> isStart node = false ->
  invalidPlaceholders (Some (data node)) it
    (snd (selectedNodeDependencies (Some (id node)) nodes edges))
    (fst (selectedNodeDependencies (Some (id node)) nodes edges)) = [] ->
  flat_map (tagWarnings nodes edges it node) (uniqueTags node) = [].
Proof.
  intros Hne Hst H. apply flat_map_nil. intros tag Htag.
  unfold uniqueTags in Htag. apply uniq_In in Htag.
  destruct (tagWarnings nodes edges it node tag) as [|w ws] eqn:E; [reflexivity|].
  exfalso.
  apply (tag_warning_shown_in_sidebar nodes edges it node tag Hne); [congruence|].
  unfold invalidPlaceholders in H. unfold isStart in Hst. rewrite Hst in H.
  cbn [orb] in H.
  destruct (String.eqb (FlowNodeData.value (data node)) "") eqn:Ev.
  - apply String.eqb_eq in Ev. rewrite Ev in Htag. destruct Htag.
  - assert (Hall := uniq_nil [] _ H).
    destruct (sidebarTagErrors _ _ _ tag) as [|m ms] eqn:Es; [reflexivity|].
    exfalso. apply (Hall m). apply in_flat_map. exists tag. split; [exact Htag|].
    rewrite Es. now left.
Qed.

Lemma sidebar_clean_implies_validator_clean_witness :
  flat_map (tagWarnings exampleNodes exampleEdges true report) (uniqueTags report) = [].
Proof.
  apply (sidebar_clean_implies_validator_clean exampleNodes exampleEdges true report).
  - discriminate.
  - reflexivity.
  - vm_compute. reflexivity.
Defined.

(** ** The staircase layout *)

Lemma orderCounts_fold (l : list Node) (m : gmap Z nat) (k : Z) :
  fold_left (fun (m : gmap Z nat) n =>
               <[order n := (match m !! order n with Some c => c | None => 0%nat end + 1)%nat]> m)
            l m !! k
  = match List.length (List.filter (fun p => Z.eqb (order p) k) l) with
    | O => m !! k
    | S c => Some (match m !! k with Some c0 => c0 | None => 0%nat end + S c)%nat
    end.
Proof.
  revert m. induction l as [|a l IH]; intros m; [reflexivity|].
  cbn [fold_left List.filter]. rewrite IH. destruct (Z.eqb (order a) k) eqn:E.
  - apply Z.eqb_eq in E. subst k. rewrite lookup_insert_eq. cbn [List.length].
    destruct (List.length _); f_equal; lia.
  - apply Z.eqb_neq in E. rewrite lookup_insert_ne by exact E. reflexivity.
Qed.

Lemma placeNode_hasError (nodes : list Node) (n : Node) :
  hasError (placeNode nodes n)
  = Nat.ltb 1 (List.length (List.filter (fun p => Z.eqb (order p) (order n)) nodes)).
Proof.
  assert (E : match orderCounts nodes !! order n with
              | Some c => Nat.ltb 1 c
              | None => false
              end
              = Nat.ltb 1 (List.length (List.filter (fun p => Z.eqb (order p) (order n)) nodes))).
  { unfold orderCounts. rewrite orderCounts_fold, lookup_empty.
    destruct (List.length _); reflexivity. }
  unfold placeNode. cbv zeta.
  destruct (Nat.ltb 1 (List.length (List.filter _ nodes))); cbn [hasError]; exact E.
Qed.

Lemma two_kept {A : Type} (f : A -> bool) (l : list A) :
  (2 <= List.length (List.filter f l))%nat <->
  exists i j a b, (i < j)%nat /\ nth_error l i = Some a /\ nth_error l j = Some b
                  /\ f a = true /\ f b = true.
Proof.
  induction l as [|x l IH].
  - simpl. split; [lia|]. intros (i & j & a & b & _ & Hi & _). destruct i; discriminate.
  - cbn [List.filter]. destruct (f x) eqn:Hx.
    + cbn [List.length]. split.
      * intros H. assert (H1 : (0 < List.length (List.filter f l))%nat) by lia.
        apply length_filter_pos in H1. destruct H1 as [b [Hb Hfb]].
        apply In_nth_error in Hb. destruct Hb as [k Hk].
        exists 0%nat, (S k), x, b. repeat split; auto. lia.
      * intros (i & j & a & b & Hij & Hi & Hj & Ha & Hb).
        destruct j as [|j]; [lia|]. cbn [nth_error] in Hj.
        assert (0 < List.length (List.filter f l))%nat; [|lia].
        apply length_filter_pos. exists b. split; [|exact Hb].
        eapply nth_error_In; eassumption.
    + rewrite IH. split.
      * intros (i & j & a & b & Hij & Hi & Hj & Ha & Hb).
        exists (S i), (S j), a, b. repeat split; auto. lia.
      * intros (i & j & a & b & Hij & Hi & Hj & Ha & Hb).
        destruct j as [|j]; [lia|]. destruct i as [|i].
        { cbn [nth_error] in Hi. congruence. }
        exists i, j, a, b. repeat split; auto. lia.
Qed.

(** X11.  The red mark of the layout effect and the banner of the top bar agree:
    a node is marked exactly when another position of the node list has
    its order, and the duplicate-order warning is shown exactly when some
    node is marked. *)
Theorem conflict_mark_matches_banner (nodes : list Node) (edges : list Edge)
    (it : bool) (q : string) :
  (forall n, hasError (placeNode nodes n) = true <->
             exists i j a b, (i < j)%nat /\ nth_error nodes i = Some a
                             /\ nth_error nodes j = Some b
                             /\ order a = order n /\ order b = order n)
  /\ (In msgDuplicate (flowWarnings nodes edges it q) <->
      exists p, In p (updatedNodes nodes) /\ hasError p = true).
Proof.
  assert (Hmark : forall n, hasError (placeNode nodes n) = true <->
             exists i j a b, (i < j)%nat /\ nth_error nodes i = Some a
                             /\ nth_error nodes j = Some b
                             /\ order a = order n /\ order b = order n).
  { intros n. rewrite placeNode_hasError, Nat.ltb_lt.
    change (1 < ?x)%nat with (2 <= x)%nat. rewrite two_kept.
    split; intros (i & j & a & b & Hij & Hi & Hj & Ha & Hb); exists i, j, a, b;
      repeat split; auto; first [now apply Z.eqb_eq | now apply Z.eqb_eq in Ha
                                | now apply Z.eqb_eq in Hb]. }
  split; [exact Hmark|].
  rewrite duplicate_warning_iff, hasDuplicates_iff. unfold updatedNodes. split.
  - intros (i & j & n & m & Hij & Hi & Hj & E).
    exists (placeNode nodes n). split.
    + apply in_map. eapply nth_error_In; eassumption.
    + apply Hmark. exists i, j, n, m. auto.
  - intros (p & Hp & He). apply in_map_iff in Hp. destruct Hp as [n [<- Hn]].
    apply Hmark in He. destruct He as (i & j & a & b & Hij & Hi & Hj & Ha & Hb).
    exists i, j, a, b. repeat split; auto. congruence.
Qed.

Lemma findIndex_lower (s : string) (l : list Node) : -1 <= findIndex s l.
Proof.
  induction l as [|p r IH]; cbn [findIndex]; [lia|].
  destruct (String.eqb (id p) s); [lia|]. cbv zeta.
  destruct (Z.ltb (findIndex s r) 0) eqn:E; [lia|]. apply Z.ltb_ge in E. lia.
Qed.

Lemma findIndex_found (s : string) (l : list Node) :
  0 <= findIndex s l ->
  exists p, nth_error l (Z.to_nat (findIndex s l)) = Some p /\ id p = s.
Proof.
  induction l as [|p r IH]; cbn [findIndex]; [lia|].
  destruct (String.eqb (id p) s) eqn:E.
  - intros _. exists p. split; [reflexivity | now apply String.eqb_eq].
  - cbv zeta. destruct (Z.ltb (findIndex s r) 0) eqn:El; [lia|]. intros _.
    apply Z.ltb_ge in El. destruct (IH El) as [x [Hx Hs]]. exists x. split; [|exact Hs].
    replace (Z.to_nat (findIndex s r + 1)) with (S (Z.to_nat (findIndex s r))) by lia.
    exact Hx.
Qed.

Lemma findIndex_In (n : Node) (l : list Node) : In n l -> 0 <= findIndex (id n) l.
Proof.
  induction l as [|p r IH]; [intros []|]. intros H. cbn [findIndex].
  destruct (String.eqb (id p) (id n)) eqn:E; [lia|]. cbv zeta.
  destruct H as [->|H]; [rewrite String.eqb_refl in E; discriminate|].
  specialize (IH H). destruct (Z.ltb (findIndex (id n) r) 0) eqn:El.
  - apply Z.ltb_lt in El. lia.
  - lia.
Qed.

Lemma findIndex_upper (s : string) (l : list Node) :
  findIndex s l < Z.of_nat (List.length l) \/ l = [].
Proof.
  induction l as [|p r IH]; [now right|]. left. cbn [findIndex List.length].
  destruct (String.eqb (id p) s); [lia|]. cbv zeta.
  destruct (Z.ltb (findIndex s r) 0) eqn:E; [lia|].
  destruct IH as [IH| ->]; [lia|]. cbn [findIndex] in E. discriminate E.
Qed.

Lemma filter_length_le {A : Type} (f : A -> bool) (l : list A) :
  (List.length (List.filter f l) <= List.length l)%nat.
Proof.
  induction l as [|a l IH]; [reflexivity|]. cbn [List.filter].
  destruct (f a); cbn [List.length]; lia.
Qed.

(** Within these bounds the arithmetic of the layout is exact. *)
Lemma placeNode_position (nodes : list Node) (n : Node) :
  In n nodes ->
  Z.abs (order n) <= 2 ^ 44 ->
  Z.of_nat (List.length nodes) <= 2 ^ 32 ->
  let peers := List.filter (fun p => Z.eqb (order p) (order n)) nodes in
  pos_x (placeNode nodes n) = Fin (50 + order n * 300 + findIndex (id n) peers * 20)
  /\ pos_y (placeNode nodes n) = Fin (50 + order n * 150 + findIndex (id n) peers * 20).
Proof.
  intros Hn Ho Hlen peers.
  change (2 ^ 44) with 17592186044416 in Ho.
  change (2 ^ 32) with 4294967296 in Hlen.
  assert (Hp : In n peers).
  { apply filter_In. split; [exact Hn | apply Z.eqb_refl]. }
  assert (Hi : 0 <= findIndex (id n) peers <= 4294967296).
  { split; [now apply findIndex_In|].
    pose proof (filter_length_le (fun p => Z.eqb (order p) (order n)) nodes) as Hle.
    fold peers in Hle.
    destruct (findIndex_upper (id n) peers) as [Hu|Hu]; [lia|].
    rewrite Hu in Hp. destruct Hp. }
  assert (Hx : plus (number (order n * 300)) 50 = Fin (50 + order n * 300)).
  { rewrite number_exact by (change (2 ^ 53) with 9007199254740992; lia).
    cbn [plus]. rewrite number_exact by (change (2 ^ 53) with 9007199254740992; lia).
    f_equal. lia. }
  assert (Hy : plus (number (order n * 150)) 50 = Fin (50 + order n * 150)).
  { rewrite number_exact by (change (2 ^ 53) with 9007199254740992; lia).
    cbn [plus]. rewrite number_exact by (change (2 ^ 53) with 9007199254740992; lia).
    f_equal. lia. }
  unfold placeNode. cbv zeta. fold peers. rewrite Hx, Hy.
  destruct (Nat.ltb 1 (List.length peers)) eqn:E; cbn [pos_x pos_y plus].
  - rewrite !number_exact by (change (2 ^ 53) with 9007199254740992; lia).
    split; reflexivity.
  - apply Nat.ltb_ge in E. destruct peers as [|a [|b r]]; [destruct Hp | | simpl in E; lia].
    destruct Hp as [->|[]]. cbn [findIndex]. rewrite String.eqb_refl.
    split; f_equal; lia.
Qed.

(** X12.  Where the arithmetic of the layout is exact (sequence orders up
    to 2^44 in magnitude, and no more nodes than an array can hold), two
    nodes with different ids are never drawn at the same place: nodes of
    different orders are on different stairs, and nodes sharing an order
    are shifted by their rank among the nodes of that order. *)
Theorem layout_separates_nodes (nodes : list Node) (n m : Node) :
  In n nodes -> In m nodes -> id n <> id m ->
  Z.abs (order n) <= 2 ^ 44 -> Z.abs (order m) <= 2 ^ 44 ->
  Z.of_nat (List.length nodes) <= 2 ^ 32 ->
  (pos_x (placeNode nodes n), pos_y (placeNode nodes n))
  <> (pos_x (placeNode nodes m), pos_y (placeNode nodes m)).
Proof.
  intros Hn Hm Hid Hon Hom Hlen E.
  destruct (placeNode_position nodes n Hn Hon Hlen) as [Xn Yn].
  destruct (placeNode_position nodes m Hm Hom Hlen) as [Xm Ym].
  cbv zeta in Xn, Yn, Xm, Ym. rewrite Xn, Yn, Xm, Ym in E. clear Xn Yn Xm Ym.
  injection E as Ex Ey.
  assert (Eo : order n = order m) by lia.
  rewrite Eo in Ex.
  set (peers := List.filter (fun p => Z.eqb (order p) (order m)) nodes) in *.
  assert (Ei : findIndex (id n) peers = findIndex (id m) peers) by lia.
  assert (Hpn : In n peers).
  { apply filter_In. split; [exact Hn | now apply Z.eqb_eq]. }
  assert (Hpm : In m peers).
  { apply filter_In. split; [exact Hm | apply Z.eqb_refl]. }
  destruct (findIndex_found _ _ (findIndex_In n peers Hpn)) as [a [Ha Ia]].
  destruct (findIndex_found _ _ (findIndex_In m peers Hpm)) as [b [Hb Ib]].
  rewrite Ei in Ha. congruence.
Qed.

Lemma layout_separates_nodes_witness :
  (pos_x (placeNode exampleNodes timedQuery), pos_y (placeNode exampleNodes timedQuery))
  <> (pos_x (placeNode exampleNodes report), pos_y (placeNode exampleNodes report)).
Proof.
  apply (layout_separates_nodes exampleNodes timedQuery report).
  - right. left. reflexivity.
  - right. right. left. reflexivity.
  - discriminate.
  - vm_compute. discriminate.
  - vm_compute. discriminate.
  - vm_compute. discriminate.
Defined.

(** ** The exported document *)

Lemma includes_same (l l' : list string) (s : string) :
  (forall x, In x l <-> In x l') -> includes l s = includes l' s.
Proof.
  intros H. destruct (includes l s) eqn:E, (includes l' s) eqn:E'; try reflexivity.
  - apply includes_In, H, includes_In in E. congruence.
  - apply includes_In, H, includes_In in E'. congruence.
Qed.

Lemma perm_keyed_eq {A : Type} (f : A -> Z) (l1 l2 : list A) :
  List.NoDup (map f l1) -> Permutation l1 l2 -> map f l1 = map f l2 -> l1 = l2.
Proof.
  revert l2. induction l1 as [|a l1 IH]; intros l2 Hnd Hp Hm.
  - apply Permutation_nil in Hp. now subst.
  - destruct l2 as [|b l2]; [discriminate|]. cbn [map] in Hm, Hnd.
    injection Hm as Hab Hm. inversion Hnd as [|? ? Hna Hnd']; subst.
    assert (Hb : In b (a :: l1)).
    { eapply Permutation_in; [apply Permutation_sym; exact Hp | now left]. }
    destruct Hb as [->|Hb].
    + f_equal. apply IH; [exact Hnd' | | exact Hm].
      eapply Permutation_cons_inv; exact Hp.
    + exfalso. apply Hna. rewrite Hab. now apply in_map.
Qed.

Lemma isDirectPred_same (edges edges' : list Edge) (node p : Node) :
  Permutation edges edges' -> isDirectPred edges node p = isDirectPred edges' node p.
Proof.
  intros Hp. unfold isDirectPred. f_equal. apply includes_same. intros x.
  unfold incomingDependencyEdges. split; intros H; apply in_map_iff in H;
    destruct H as [e [He Hin]]; apply in_map_iff; exists e; split; try exact He;
    apply filter_In in Hin; apply filter_In; destruct Hin as [Hin Hf]; split;
    try exact Hf; eapply Permutation_in; try exact Hin;
    [exact Hp | apply Permutation_sym; exact Hp].
Qed.

Lemma dependsOnList_same (nodes nodes' : list Node) (edges edges' : list Edge) (node : Node) :
  Permutation nodes nodes' -> Permutation edges edges' ->
  dependsOnList nodes edges node = dependsOnList nodes' edges' node.
Proof.
  intros Hn He. apply sorted_perm_eq; try apply dependsOnList_sorted.
  rewrite !dependsOnList_eq.
  eapply Permutation_trans; [apply sort_by_perm|].
  eapply Permutation_trans; [|apply Permutation_sym, sort_by_perm].
  apply Permutation_map.
  rewrite (filter_ext (isDirectPred edges node) (isDirectPred edges' node)
             (fun p => isDirectPred_same edges edges' node p He)).
  now apply filter_perm.
Qed.

Lemma stepJson_same (nodes nodes' : list Node) (edges edges' : list Edge) (node : Node) :
  Permutation nodes nodes' -> Permutation edges edges' ->
  stepJson nodes edges node = stepJson nodes' edges' node.
Proof.
  intros Hn He. unfold stepJson, dependsOnOrders.
  now rewrite (dependsOnList_same nodes nodes' edges edges' node Hn He).
Qed.

Lemma sortedSteps_same (nodes nodes' : list Node) :
  distinctOrders nodes -> Permutation nodes nodes' -> sortedSteps nodes = sortedSteps nodes'.
Proof.
  intros Hd Hp.
  assert (Hperm : Permutation (sortedSteps nodes) (sortedSteps nodes')).
  { eapply Permutation_trans; [apply sortedSteps_perm|].
    eapply Permutation_trans; [|apply Permutation_sym, sortedSteps_perm].
    now apply filter_perm. }
  apply (perm_keyed_eq order); [| exact Hperm |].
  - eapply Permutation_NoDup; [|exact Hd].
    apply Permutation_map, Permutation_sym, sortedSteps_perm.
  - apply sorted_perm_eq.
    + apply (proj1 (Sorted_map_key order _)), sort_by_sorted.
    + apply (proj1 (Sorted_map_key order _)), sort_by_sorted.
    + now apply Permutation_map.
Qed.

(** X13.  The exported document depends on the graph only, not on the order in
    which its nodes and edges are stored, as long as no two steps share a
    sequence order. *)
Theorem export_is_canonical (nodes nodes' : list Node) (edges edges' : list Edge)
    (cfg : GlobalConfig) :
  distinctOrders nodes ->
  Permutation nodes nodes' -> Permutation edges edges' ->
  generateFlowJson nodes edges cfg = generateFlowJson nodes' edges' cfg.
Proof.
  intros Hd Hn He. unfold generateFlowJson. cbv zeta.
  rewrite <- (sortedSteps_same nodes nodes' Hd Hn).
  assert (Hit : List.filter (fun n => includes (iterableStepIds edges) (id n)) (sortedSteps nodes)
                = List.filter (fun n => includes (iterableStepIds edges') (id n))
                    (sortedSteps nodes)).
  { apply filter_ext. intros n. apply includes_same. intros x. unfold iterableStepIds.
    split; intros H; apply in_map_iff in H; destruct H as [e [Hx Hin]];
      apply in_map_iff; exists e; split; try exact Hx;
      apply filter_In in Hin; apply filter_In; destruct Hin as [Hin Hf]; split;
      try exact Hf; eapply Permutation_in; try exact Hin;
      [exact He | apply Permutation_sym; exact He]. }
  rewrite Hit.
  rewrite (map_ext (stepJson nodes edges) (stepJson nodes' edges')
             (fun n => stepJson_same nodes nodes' edges edges' n Hn He)).
  reflexivity.
Qed.

Lemma export_is_canonical_witness :
  generateFlowJson exampleNodes exampleEdges exampleConfig
  = generateFlowJson [report; timedQuery; startNode] (List.rev exampleEdges) exampleConfig.
Proof.
  apply (export_is_canonical exampleNodes [report; timedQuery; startNode]
           exampleEdges (List.rev exampleEdges) exampleConfig).
  - unfold distinctOrders. vm_compute. repeat constructor; simpl; intuition discriminate.
  - change exampleNodes with (List.rev [report; timedQuery; startNode]).
    apply Permutation_sym, Permutation_rev.
  - apply Permutation_rev.
Defined.

(** X14.  The steps of the exported document come in ascending sequence order,
    one for every node that is not a start node, and none for a start
    node. *)
Theorem export_steps_cover_nodes (nodes : list Node) (edges : list Edge)
    (cfg : GlobalConfig) :
  Sorted Z.le (map FlowStep.sequence_order (steps (generateFlowJson nodes edges cfg)))
  /\ Permutation (steps (generateFlowJson nodes edges cfg))
       (map (stepJson nodes edges) (List.filter (fun n => negb (isStart n)) nodes))
  /\ (List.length (steps (generateFlowJson nodes edges cfg))
       + List.length (List.filter isStart nodes))%nat = List.length nodes.
Proof.
  split; [apply compiled_orders_sorted|]. unfold generateFlowJson. cbn [steps]. split.
  - apply Permutation_map, sortedSteps_perm.
  - rewrite length_map, (Permutation_length (sortedSteps_perm nodes)). unfold stepNodes.
    clear. induction nodes as [|n l IH]; [reflexivity|].
    cbn [List.filter]. destruct (isStart n); cbn [negb List.length]; lia.
Qed.

(** X15.  [iterable_steps] and [get_iterate_list] are there exactly when the flow
    iterates; then [iterable_steps] lists, in ascending order, the
    sequence orders of the steps that an edge from start enters. *)
Theorem export_iterable_steps (nodes : list Node) (edges : list Edge) (cfg : GlobalConfig) :
  (iterateFlow cfg = false ->
   iterable_steps (generateFlowJson nodes edges cfg) = None
   /\ get_iterate_list (generateFlowJson nodes edges cfg) = None)
  /\ (iterateFlow cfg = true ->
      exists l, iterable_steps (generateFlowJson nodes edges cfg) = Some l
                /\ get_iterate_list (generateFlowJson nodes edges cfg)
                   = Some (getIterateList cfg)
                /\ Sorted Z.le l
                /\ forall z, In z l <->
                     exists n e, In n nodes /\ isStart n = false /\ order n = z
                                 /\ In e edges /\ source e = "start" /\ target e = id n).
Proof.
  unfold generateFlowJson. cbv zeta. cbn [iterable_steps get_iterate_list]. split.
  - intros ->. split; reflexivity.
  - intros ->. eexists. split; [reflexivity|]. split; [reflexivity|]. split.
    + apply (proj1 (Sorted_map_key order _)), Sorted_filter, sort_by_sorted.
    + intros z. rewrite in_map_iff. split.
      * intros [n [Ho Hin]]. apply filter_In in Hin. destruct Hin as [Hin Hinc].
        apply sortedSteps_In in Hin. unfold stepNodes in Hin. apply filter_In in Hin.
        destruct Hin as [Hn Hst]. apply negb_true_iff in Hst.
        apply includes_In in Hinc. unfold iterableStepIds in Hinc.
        apply in_map_iff in Hinc. destruct Hinc as [e [Ht He]].
        apply filter_In in He. destruct He as [He Hs]. apply String.eqb_eq in Hs.
        exists n, e. repeat split; assumption.
      * intros (n & e & Hn & Hst & Ho & He & Hs & Ht). exists n. split; [exact Ho|].
        apply filter_In. split.
        -- apply sortedSteps_In. unfold stepNodes. apply filter_In.
           split; [exact Hn | now rewrite Hst].
        -- apply includes_In. unfold iterableStepIds. apply in_map_iff. exists e.
           split; [exact Ht|]. apply filter_In. split; [exact He | now apply String.eqb_eq].
Qed.

Lemma export_iterable_steps_witness :
  iterable_steps (generateFlowJson exampleNodes exampleEdges
                    {| iterateFlow := false; getIterateList := "SELECT 1"; flowName := "f" |})
  = None.
Proof.
  apply (proj1 (export_iterable_steps exampleNodes exampleEdges
                  {| iterateFlow := false; getIterateList := "SELECT 1"; flowName := "f" |})).
  reflexivity.
Defined.

(** X16.  When the sequence orders of the steps are safe integers (below
    2^53 in magnitude, so that export writes them in plain decimal), every
    [depends_on] of the exported document, read the way import reads it,
    names sequence orders of steps of the same document only. *)
Theorem export_references_resolve (nodes : list Node) (edges : list Edge)
    (cfg : GlobalConfig) (s : FlowStep.t) (d : DependsOn) (x : num) :
  (forall p, In p nodes -> isStart p = false -> safeInteger (order p)) ->
  In s (steps (generateFlowJson nodes edges cfg)) ->
  FlowStep.depends_on s = Some d ->
  In x (depSources d) ->
  exists z, x = Num z
            /\ In z (map FlowStep.sequence_order (steps (generateFlowJson nodes edges cfg))).
Proof.
  intros Hsafe Hs Hd Hx. rewrite compiled_orders.
  unfold generateFlowJson in Hs. cbn [steps] in Hs. apply in_map_iff in Hs.
  destruct Hs as [n [<- Hn]]. rewrite stepJson_depends_on in Hd.
  pose proof (dependsOnList_safe nodes edges n Hsafe) as Hdl.
  destruct (dependsOnList nodes edges n) as [|z0 l] eqn:El; [discriminate|].
  injection Hd as <-.
  assert (Hx' : In x (map Num (z0 :: l))).
  { rewrite <- (depSources_compiled (z0 :: l)); [exact Hx | discriminate | exact Hdl]. }
  clear Hx. rename Hx' into Hx. apply in_map_iff in Hx. destruct Hx as [z [<- Hz]]. exists z. split; [reflexivity|].
  rewrite <- El in Hz. apply dependsOnList_In in Hz.
  destruct Hz as [p (Hp & Hd & <-)]. apply in_map. apply sortedSteps_In.
  unfold stepNodes. apply filter_In. split; [exact Hp|].
  unfold isDirectPred in Hd. apply andb_true_iff in Hd. tauto.
Qed.

Lemma export_references_resolve_witness :
  exists z, Num 1 = Num z
            /\ In z (map FlowStep.sequence_order
                       (steps (generateFlowJson exampleNodes exampleEdges exampleConfig))).
Proof.
  apply (export_references_resolve exampleNodes exampleEdges exampleConfig
           (stepJson exampleNodes exampleEdges report) (DepString "1") (Num 1)).
  - intros p [<-|[<-|[<-|[]]]] _; vm_compute; reflexivity.
  - right. left. reflexivity.
  - reflexivity.
  - left. reflexivity.
Defined.

Lemma stepJson_fields (nodes : list Node) (edges : list Edge) (n : Node) :
  let s := stepJson nodes edges n in
  (FlowStep.type s <> SQL ->
   FlowStep.append_iteration_column s = None /\ FlowStep.append_time_column s = None
   /\ FlowStep.time_range s = None /\ FlowStep.time_grain s = None
   /\ FlowStep.time_mode s = None /\ FlowStep.reference_date s = None)
  /\ (FlowStep.type s <> LLM -> FlowStep.llm_model s = None)
  /\ (FlowStep.time_range s <> None ->
      FlowStep.append_time_column s <> None /\ FlowStep.time_grain s <> None)
  /\ (FlowStep.time_grain s <> None \/ FlowStep.time_mode s <> None ->
      FlowStep.append_time_column s <> None)
  /\ FlowStep.append_iteration_column s <> Some ""
  /\ FlowStep.append_time_column s <> Some ""
  /\ FlowStep.time_grain s <> Some ""
  /\ FlowStep.time_mode s <> Some ""
  /\ FlowStep.reference_date s <> Some ""
  /\ FlowStep.llm_model s <> Some ""
  /\ FlowStep.max_retry s <> Some (Num 0) /\ FlowStep.max_retry s <> Some NaN.
Proof.
  assert (Hk : forall o, keep_str o <> Some "").
  { intros o H. apply keep_str_Some in H. now destruct H. }
  assert (Hn : forall o, keep_num o <> Some (Num 0) /\ keep_num o <> Some NaN).
  { intros [[|z]|]; unfold keep_num; cbn; [split; discriminate| |split; discriminate].
    destruct (Z.eqb_spec z 0); cbn; split; congruence. }
  assert (Ht : forall o, truthy_str o = true -> keep_str o <> None).
  { intros o H. unfold keep_str. rewrite H. destruct o; [discriminate | discriminate H]. }
  cbv zeta. unfold stepJson. cbv zeta.
  cbn [FlowStep.type FlowStep.append_iteration_column FlowStep.append_time_column
       FlowStep.time_range FlowStep.time_grain FlowStep.time_mode FlowStep.reference_date
       FlowStep.llm_model FlowStep.max_retry].
  destruct (Hn (FlowNodeData.max_retry (data n))) as [Hn0 HnN].
  destruct (FlowNodeData.type (data n)) as [[| |]|]; cbn [andb];
    (destruct (truthy_str (FlowNodeData.append_time_column (data n))) eqn:Ea);
    repeat split; intros; try congruence; try apply Hk; try tauto; try discriminate;
    try (apply Ht; assumption).
  - destruct (FlowNodeData.time_amount (data n)) as [a|]; [|congruence].
    destruct (FlowNodeData.time_grain (data n)) as [g|]; [|congruence].
    destruct (truthy_num (Some a)); [|cbn [andb] in *; congruence].
    cbn [andb] in *. destruct (truthy_str (Some g)) eqn:Eg; [|congruence].
    now apply Ht.
Qed.

(** X17.  The optional fields of an exported step fit its type: the SQL fields
    are there for SQL steps only and [llm_model] for LLM steps only; a
    [time_range], [time_grain] or [time_mode] comes with an
    [append_time_column], a [time_range] also with a [time_grain]; and no
    optional field is written empty, nor [max_retry] as [0] or [NaN]. *)
Theorem export_fields_consistent (nodes : list Node) (edges : list Edge)
    (cfg : GlobalConfig) (s : FlowStep.t) :
  In s (steps (generateFlowJson nodes edges cfg)) ->
  (FlowStep.type s <> SQL ->
   FlowStep.append_iteration_column s = None /\ FlowStep.append_time_column s = None
   /\ FlowStep.time_range s = None /\ FlowStep.time_grain s = None
   /\ FlowStep.time_mode s = None /\ FlowStep.reference_date s = None)
  /\ (FlowStep.type s <> LLM -> FlowStep.llm_model s = None)
  /\ (FlowStep.time_range s <> None ->
      FlowStep.append_time_column s <> None /\ FlowStep.time_grain s <> None)
  /\ (FlowStep.time_grain s <> None \/ FlowStep.time_mode s <> None ->
      FlowStep.append_time_column s <> None)
  /\ FlowStep.append_iteration_column s <> Some ""
  /\ FlowStep.append_time_column s <> Some ""
  /\ FlowStep.time_grain s <> Some ""
  /\ FlowStep.time_mode s <> Some ""
  /\ FlowStep.reference_date s <> Some ""
  /\ FlowStep.llm_model s <> Some ""
  /\ FlowStep.max_retry s <> Some (Num 0) /\ FlowStep.max_retry s <> Some NaN.
Proof.
  intros Hs. unfold generateFlowJson in Hs. cbn [steps] in Hs.
  apply in_map_iff in Hs. destruct Hs as [n [<- _]]. apply stepJson_fields.
Qed.

Lemma export_fields_consistent_witness :
  FlowStep.llm_model (stepJson exampleNodes exampleEdges report) = None.
Proof.
  assert (Hin : In (stepJson exampleNodes exampleEdges report)
                  (steps (generateFlowJson exampleNodes exampleEdges exampleConfig)))
    by (right; left; reflexivity).
  apply (proj1 (proj2 (export_fields_consistent exampleNodes exampleEdges exampleConfig
                         (stepJson exampleNodes exampleEdges report) Hin))).
  discriminate.
Defined.

(** ** The imported graph *)

Lemma lookup_is_node (stamp : nat -> string) (json : FlowJson) (z : Z) (x : string) :
  snd (rebuildSteps stamp json) !! z = Some x ->
  x <> "start" /\ x <> "" /\ In x (map id (r_nodes (restoreFlowFromJson stamp json))).
Proof.
  intros H. apply lookup_is_last in H. destruct H as (j & s & [Hj _] & _ & ->).
  split; [apply freshId_not_start|]. split; [apply freshId_nonempty|].
  change (freshId stamp j s) with (id (stepNodeAt stamp j s)).
  apply in_map. now apply stepNodeAt_In.
Qed.

(** X18.  Whatever the document, import gives a well-formed graph: the start
    node and one node for every step record, in the order of the records;
    every edge joins two nodes of the graph, and none enters the start
    node. *)
Theorem restored_graph_wellformed (stamp : nat -> string) (json : FlowJson) :
  oneStart (r_nodes (restoreFlowFromJson stamp json))
  /\ List.length (r_nodes (restoreFlowFromJson stamp json)) = S (List.length (steps json))
  /\ map order (stepNodes (r_nodes (restoreFlowFromJson stamp json)))
     = map FlowStep.sequence_order (steps json)
  /\ closedGraph (r_nodes (restoreFlowFromJson stamp json))
       (r_edges (restoreFlowFromJson stamp json))
  /\ forall e, In e (r_edges (restoreFlowFromJson stamp json)) -> target e <> "start".
Proof.
  split; [apply oneStart_restored|]. split.
  { rewrite restored_nodes_eq. cbn [List.length]. rewrite length_map. f_equal.
    generalize 0%nat. induction (steps json) as [|s l IH]; intros k; [reflexivity|].
    cbn [indexed List.length]. now rewrite IH. }
  split; [rewrite stepNodes_restored; apply restoredSteps_orders|].
  assert (Hends : forall e, In e (r_edges (restoreFlowFromJson stamp json)) ->
            (In (source e) (map id (r_nodes (restoreFlowFromJson stamp json)))
             /\ In (target e) (map id (r_nodes (restoreFlowFromJson stamp json))))
            /\ target e <> "start").
  { intros e He. apply restored_edges_ends in He. destruct He as [Hs [z Ht]].
    apply lookup_is_node in Ht. destruct Ht as (Hns & _ & Hin).
    split; [split; [|exact Hin] | exact Hns].
    destruct Hs as [->|[z' Hs]].
    - rewrite restored_nodes_eq. now left.
    - now apply lookup_is_node in Hs. }
  split; [intros e He; now apply Hends | intros e He; now apply Hends].
Qed.

Lemma startEdges_app (a b : list Edge) :
  startEdgesCount (a ++ b) = (startEdgesCount a + startEdgesCount b)%nat.
Proof. unfold startEdgesCount. now rewrite List.filter_app, length_app. Qed.

Lemma startEdges_none (l : list Edge) :
  (forall e, In e l -> source e <> "start") -> startEdgesCount l = 0%nat.
Proof.
  unfold startEdgesCount. induction l as [|e l IH]; intros H; [reflexivity|].
  cbn [List.filter]. destruct (String.eqb_spec (source e) "start") as [E|_].
  - exfalso. now apply (H e (or_introl eq_refl)).
  - apply IH. intros x Hx. apply H. now right.
Qed.

(** A record that import connects to start by position: order [1] and no
    usable [depends_on]. *)
Lemma startEdges_of_step (stamp : nat -> string) (json : FlowJson) (step : FlowStep.t) :
  iterate_flow json = false -> In step (steps json) ->
  startEdgesCount (dependencyEdges json (snd (rebuildSteps stamp json)) step)
  = if Z.eqb (FlowStep.sequence_order step) 1 && negb (truthy_dep (FlowStep.depends_on step))
    then 1%nat else 0%nat.
Proof.
  intros Hit Hin. set (m := snd (rebuildSteps stamp json)).
  destruct (lookup_own_order stamp json step Hin) as [t Ht]. fold m in Ht.
  unfold dependencyEdges. cbv zeta. rewrite Ht.
  assert (Hm : forall z x, m !! z = Some x -> x <> "start").
  { intros z x H. now apply lookup_is_node in H. }
  destruct (truthy_dep (FlowStep.depends_on step)).
  - rewrite andb_false_r. apply startEdges_none. intros e He.
    destruct (FlowStep.depends_on step) as [dep|]; [|destruct He].
    apply in_flat_map in He. destruct He as [x [_ He]].
    destruct (lookupSeq m x) as [sid|] eqn:El; [|destruct He].
    destruct He as [<-|[]]. cbn [source stepEdge].
    destruct x as [|z]; [discriminate El|]. cbn [lookupSeq] in El. eapply Hm; eassumption.
  - rewrite andb_true_r. destruct (Z.eqb (FlowStep.sequence_order step) 1).
    + unfold isIterated. rewrite Hit. reflexivity.
    + apply startEdges_none. intros e He.
      destruct (m !! double (FlowStep.sequence_order step - 1)) as [sid|] eqn:El;
        [|destruct He].
      destruct He as [<-|[]]. cbn [source stepEdge]. eapply Hm; eassumption.
Qed.

Lemma startEdges_restored (stamp : nat -> string) (json : FlowJson) :
  iterate_flow json = false ->
  startEdgesCount (r_edges (restoreFlowFromJson stamp json))
  = List.length
      (List.filter (fun s => Z.eqb (FlowStep.sequence_order s) 1
                             && negb (truthy_dep (FlowStep.depends_on s))) (steps json)).
Proof.
  intros Hit. rewrite restored_edges_eq, startEdges_app.
  unfold iterationEdges at 1. rewrite Hit. change (startEdgesCount []) with 0%nat.
  cbn [Nat.add].
  assert (H : forall l, (forall s, In s l -> In s (steps json)) ->
            startEdgesCount (flat_map (dependencyEdges json (snd (rebuildSteps stamp json))) l)
            = List.length
                (List.filter (fun s => Z.eqb (FlowStep.sequence_order s) 1
                                       && negb (truthy_dep (FlowStep.depends_on s))) l)).
  { induction l as [|s l IH]; intros Hl; [reflexivity|].
    cbn [flat_map List.filter]. rewrite startEdges_app.
    rewrite (startEdges_of_step stamp json s Hit (Hl s (or_introl eq_refl))).
    rewrite IH by (intros x Hx; apply Hl; now right).
    destruct (_ && _); reflexivity. }
  apply H. auto.
Qed.

Lemma keyed_at_most_one {A : Type} (f : A -> Z) (g : A -> bool) (k : Z) (l : list A) :
  List.NoDup (map f l) ->
  (List.length (List.filter (fun s => Z.eqb (f s) k && g s) l) <= 1)%nat.
Proof.
  induction l as [|a l IH]; intros Hnd; [simpl; lia|].
  cbn [map] in Hnd. inversion Hnd as [|? ? Hna Hnd']; subst.
  cbn [List.filter]. destruct (Z.eqb_spec (f a) k) as [E|_]; cbn [andb]; [|now apply IH].
  assert (Hz : List.filter (fun s => Z.eqb (f s) k && g s) l = []).
  { clear IH Hnd Hnd'. induction l as [|b l IH]; [reflexivity|].
    cbn [List.filter]. destruct (Z.eqb_spec (f b) k) as [E'|_]; cbn [andb].
    - exfalso. apply Hna. left. congruence.
    - apply IH. intros H. apply Hna. now right. }
  destruct (g a); rewrite Hz; simpl; lia.
Qed.

(** X19.  After the import of a document that does not iterate, the warning
    about several start paths is shown exactly when two records of order
    [1] have no usable [depends_on]; a document whose records have
    distinct orders never raises it. *)
Theorem import_start_warning (stamp : nat -> string) (json : FlowJson) (q : string) :
  iterate_flow json = false ->
  (In msgStart (flowWarnings (r_nodes (restoreFlowFromJson stamp json))
                  (r_edges (restoreFlowFromJson stamp json))
                  (r_iterateFlow (restoreFlowFromJson stamp json)) q)
   <-> (2 <= List.length
              (List.filter (fun s => Z.eqb (FlowStep.sequence_order s) 1
                                     && negb (truthy_dep (FlowStep.depends_on s)))
                 (steps json)))%nat)
  /\ (List.NoDup (map FlowStep.sequence_order (steps json)) ->
      ~ In msgStart (flowWarnings (r_nodes (restoreFlowFromJson stamp json))
                       (r_edges (restoreFlowFromJson stamp json))
                       (r_iterateFlow (restoreFlowFromJson stamp json)) q)).
Proof.
  intros Hit.
  assert (Hr : r_iterateFlow (restoreFlowFromJson stamp json) = false).
  { unfold restoreFlowFromJson. destruct (rebuildSteps stamp json). exact Hit. }
  rewrite start_warning_iff, Hr, (startEdges_restored stamp json Hit). split.
  - tauto.
  - intros Hnd [_ H].
    pose proof (keyed_at_most_one FlowStep.sequence_order
                  (fun s => negb (truthy_dep (FlowStep.depends_on s))) 1 (steps json) Hnd).
    lia.
Qed.

Lemma import_start_warning_witness :
  ~ In msgStart
      (flowWarnings
         (r_nodes (restoreFlowFromJson decimalStamp
                     (plainJson "f" [plainStep 1 "a" SQL "x"; plainStep 2 "b" CONCAT "y"])))
         (r_edges (restoreFlowFromJson decimalStamp
                     (plainJson "f" [plainStep 1 "a" SQL "x"; plainStep 2 "b" CONCAT "y"])))
         (r_iterateFlow (restoreFlowFromJson decimalStamp
                     (plainJson "f" [plainStep 1 "a" SQL "x"; plainStep 2 "b" CONCAT "y"])))
         "").
Proof.
  apply (import_start_warning decimalStamp
           (plainJson "f" [plainStep 1 "a" SQL "x"; plainStep 2 "b" CONCAT "y"]) "").
  - reflexivity.
  - constructor; [simpl; intros [H|[]]; discriminate H|].
    constructor; [intros [] | constructor].
Defined.

(** ** The delivery dialog *)

Lemma append_assoc' (a b c : string) : ((a ++ b) ++ c)%string = (a ++ (b ++ c))%string.
Proof.
  induction a as [|x a IH]; [reflexivity|].
  change (String x ((a ++ b) ++ c) = String x (a ++ (b ++ c)))%string. now f_equal.
Qed.

Lemma append_nil_r (a : string) : (a ++ "")%string = a.
Proof.
  induction a as [|x a IH]; [reflexivity|].
  change (String x (a ++ "") = String x a)%string. now f_equal.
Qed.

Lemma rev_string_acc (s acc : string) :
  rev_string s acc = (rev_string s "" ++ acc)%string.
Proof.
  revert acc. induction s as [|c r IH]; intros acc; [reflexivity|].
  cbn [rev_string]. rewrite (IH (String c acc)), (IH (String c "")), append_assoc'.
  reflexivity.
Qed.

Lemma rev_string_app (a b : string) :
  rev_string (a ++ b) "" = (rev_string b "" ++ rev_string a "")%string.
Proof.
  induction a as [|c a IH]; simpl.
  - now rewrite append_nil_r.
  - rewrite (rev_string_acc (a ++ b)), (rev_string_acc a), IH, append_assoc'. reflexivity.
Qed.

Lemma trimStart_idem (s : string) : trimStart (trimStart s) = trimStart s.
Proof.
  induction s as [|c r IH]; [reflexivity|]. cbn [trimStart].
  destruct (isWhiteSpace c) eqn:E; [exact IH|]. cbn [trimStart]. now rewrite E.
Qed.

Lemma trimStart_keeps_last (a : string) (c : ascii) :
  isWhiteSpace c = false ->
  exists a', trimStart (a ++ String c "") = (a' ++ String c "")%string.
Proof.
  intros Hc. induction a as [|x a IH].
  - exists ""%string. simpl. now rewrite Hc.
  - change (String x a ++ String c "")%string with (String x (a ++ String c "")).
    cbn [trimStart]. destruct (isWhiteSpace x); [exact IH|].
    now exists (String x a).
Qed.

Lemma trimEnd_keeps_first (c : ascii) (r : string) :
  isWhiteSpace c = false -> exists r', trimEnd (String c r) = String c r'.
Proof.
  intros Hc. unfold trimEnd. cbn [rev_string]. rewrite (rev_string_acc r).
  destruct (trimStart_keeps_last (rev_string r "") c Hc) as [a' ->].
  rewrite rev_string_app. now eexists.
Qed.

Lemma trimEnd_idem (s : string) : trimEnd (trimEnd s) = trimEnd s.
Proof. unfold trimEnd. now rewrite rev_string_involutive, trimStart_idem. Qed.

Lemma trimStart_shape (s : string) :
  trimStart s = ""%string
  \/ exists c r, trimStart s = String c r /\ isWhiteSpace c = false.
Proof.
  induction s as [|c r IH]; [now left|]. cbn [trimStart].
  destruct (isWhiteSpace c) eqn:E; [exact IH|]. right. now exists c, r.
Qed.

Lemma trim_idem (s : string) : trim (trim s) = trim s.
Proof.
  unfold trim. destruct (trimStart_shape s) as [->|(c & r & -> & Hc)]; [reflexivity|].
  destruct (trimEnd_keeps_first c r Hc) as [r' Hr]. rewrite Hr.
  cbn [trimStart]. rewrite Hc, <- Hr. apply trimEnd_idem.
Qed.

Lemma trimStart_chars (P : ascii -> bool) (s : string) :
  allChars P s = true -> allChars P (trimStart s) = true.
Proof.
  induction s as [|c r IH]; [reflexivity|]. intros H. cbn [trimStart].
  destruct (isWhiteSpace c); [|exact H]. apply IH. simpl in H.
  apply andb_true_iff in H. tauto.
Qed.

Lemma trim_chars (P : ascii -> bool) (s : string) :
  allChars P s = true -> allChars P (trim s) = true.
Proof.
  intros H. unfold trim, trimEnd.
  apply rev_string_chars; [|reflexivity]. apply trimStart_chars.
  apply rev_string_chars; [|reflexivity]. now apply trimStart_chars.
Qed.

Lemma hasChar_allChars (c : ascii) (s : string) :
  hasChar c s = false <-> allChars (fun a => negb (Ascii.eqb a c)) s = true.
Proof.
  induction s as [|a r IH]; simpl; [tauto|].
  rewrite orb_false_iff, andb_true_iff, negb_true_iff, IH. tauto.
Qed.

Lemma trim_no_char (c : ascii) (s : string) :
  hasChar c s = false -> hasChar c (trim s) = false.
Proof. rewrite !hasChar_allChars. apply trim_chars. Qed.

Lemma split_space (s : string) :
  map trim (split "," (String " " s)) = map trim (split "," s).
Proof.
  cbn [split]. change (Ascii.eqb " " ",") with false. cbv iota.
  pose proof (split_nonempty "," s) as Hn.
  destruct (split "," s) as [|p ps]; [congruence|]. reflexivity.
Qed.

Lemma handleArrayInput_join (l : list string) :
  Forall (fun s => hasChar "," s = false /\ trim s = s /\ s <> ""%string) l ->
  handleArrayInput (join ", " l) = l.
Proof.
  induction l as [|x l IH]; intros H; [reflexivity|].
  inversion H as [|? ? (Hx & Ht & Hne) Hl]; subst. specialize (IH Hl).
  assert (Hkeep : negb (String.eqb x "") = true).
  { apply negb_true_iff, String.eqb_neq, Hne. }
  destruct l as [|y l].
  - unfold handleArrayInput. cbn [join]. rewrite (split_no_sep "," x Hx).
    cbn [map List.filter]. now rewrite Ht, Hkeep.
  - unfold handleArrayInput in *. rewrite join_cons.
    change (", " ++ join ", " (y :: l))%string
      with (String "," (String " " (join ", " (y :: l)))).
    rewrite (split_app_sep "," x _ Hx). cbn [map List.filter].
    rewrite Ht, Hkeep, split_space. f_equal. exact IH.
Qed.

(** X20.  What the dialog keeps of a typed list has no empty entry, no comma
    and no white space around an entry; shown again, joined by a comma and
    a space, and read again, it is the same list. *)
Theorem recipients_round_trip (text : string) :
  Forall (fun s => hasChar "," s = false /\ trim s = s /\ s <> ""%string)
    (handleArrayInput text)
  /\ handleArrayInput (join ", " (handleArrayInput text)) = handleArrayInput text.
Proof.
  assert (H : Forall (fun s => hasChar "," s = false /\ trim s = s /\ s <> ""%string)
                (handleArrayInput text)).
  { apply List.Forall_forall. intros s Hs. unfold handleArrayInput in Hs.
    apply filter_In in Hs. destruct Hs as [Hs Hne]. apply in_map_iff in Hs.
    destruct Hs as [p [<- Hp]]. split; [|split].
    - apply trim_no_char.
      exact (proj1 (List.Forall_forall _ _) (split_pieces "," text) p Hp).
    - apply trim_idem.
    - apply negb_true_iff, String.eqb_neq in Hne. exact Hne. }
  split; [exact H | now apply handleArrayInput_join].
Qed.

Lemma removeRule_from {A : Type} (idx k : nat) (l : list A) :
  map snd (List.filter (fun ix => negb (Nat.eqb (fst ix) idx)) (indexed k l))
  = if Nat.ltb idx k then l else (firstn (idx - k) l ++ skipn (S (idx - k)) l)%list.
Proof.
  revert k. induction l as [|x l IH]; intros k.
  - destruct (Nat.ltb idx k); [reflexivity|]. now rewrite firstn_nil, skipn_nil.
  - cbn [indexed List.filter fst].
    destruct (Nat.eqb_spec k idx) as [->|Hne]; cbn [negb map snd]; rewrite (IH (S _)).
    + rewrite Nat.ltb_irrefl, Nat.sub_diag.
      assert (E : Nat.ltb idx (S idx) = true) by (apply Nat.ltb_lt; lia).
      rewrite E. reflexivity.
    + destruct (Nat.ltb idx k) eqn:E.
      * apply Nat.ltb_lt in E.
        assert (E' : Nat.ltb idx (S k) = true) by (apply Nat.ltb_lt; lia).
        now rewrite E'.
      * apply Nat.ltb_ge in E.
        assert (E' : Nat.ltb idx (S k) = false) by (apply Nat.ltb_ge; lia).
        rewrite E'. replace (idx - k)%nat with (S (idx - S k)) by lia. reflexivity.
Qed.

(** X21.  Removing a rule takes out the entry at that place and keeps the
    others in order; a place beyond the list removes nothing; removing
    the rule just added gives the list back. *)
Theorem removeRule_drops_one (idx : nat) (tempConfig : list DeliveryConfig) :
  removeRule idx tempConfig = (firstn idx tempConfig ++ skipn (S idx) tempConfig)%list
  /\ ((List.length tempConfig <= idx)%nat -> removeRule idx tempConfig = tempConfig)
  /\ removeRule (List.length tempConfig) (addRule tempConfig) = tempConfig.
Proof.
  assert (H : forall i (l : list DeliveryConfig),
            removeRule i l = (firstn i l ++ skipn (S i) l)%list).
  { intros i l. unfold removeRule. rewrite removeRule_from.
    change (Nat.ltb i 0) with false. cbv iota. now rewrite Nat.sub_0_r. }
  split; [apply H|]. split.
  - intros Hle. rewrite H, firstn_all2 by exact Hle.
    rewrite skipn_all2 by lia. apply app_nil_r.
  - rewrite H. unfold addRule. rewrite firstn_app, Nat.sub_diag, firstn_all, firstn_O.
    rewrite skipn_all2 by (rewrite length_app; simpl; lia).
    now rewrite !app_nil_r.
Qed.

Lemma removeRule_drops_one_witness :
  removeRule 5 (addRule []) = addRule [].
Proof.
  apply (proj1 (proj2 (removeRule_drops_one 5 (addRule [])))). simpl. lia.
Defined.

(** ** The variable buttons of the sidebar *)

Lemma scanClose_step (c : ascii) (r : string) :
  Ascii.eqb c "}" = false ->
  scanClose (String c r)
  = if isLineTerminator c then None
    else match scanClose r with
         | Some (tag, rest) => Some (String c tag, rest)
         | None => None
         end.
Proof.
  destruct c as [[] [] [] [] [] [] [] []]; intros H; try discriminate H; reflexivity.
Qed.

Lemma scanClose_tag (t rest : string) :
  tagText t -> scanClose (t ++ String "}" (String "}" rest)) = Some (t, rest).
Proof.
  intros [Hb Hl]. induction t as [|c r IH]; [reflexivity|].
  simpl in Hb, Hl. apply orb_false_iff in Hb. destruct Hb as [Hc Hb].
  apply andb_true_iff in Hl. destruct Hl as [Hlc Hl]. apply negb_true_iff in Hlc.
  change (String c r ++ String "}" (String "}" rest))%string
    with (String c (r ++ String "}" (String "}" rest))).
  rewrite (scanClose_step c _ Hc), Hlc, (IH Hb Hl). reflexivity.
Qed.

Lemma matchTags_skip (f : nat) (c : ascii) (r : string) :
  Ascii.eqb c "{" = false -> matchTags (S f) (String c r) = matchTags f r.
Proof.
  destruct c as [[] [] [] [] [] [] [] []]; intros H; try discriminate H; reflexivity.
Qed.

Lemma matchTags_open (f : nat) (r : string) :
  matchTags (S f) (String "{" (String "{" r))
  = match scanClose r with
    | Some (tag, rest) => tag :: matchTags f rest
    | None => matchTags f (String "{" r)
    end.
Proof. reflexivity. Qed.

Lemma matchTags_plain (f : nat) (v : string) : plainText v -> matchTags f v = [].
Proof.
  unfold plainText. revert v. induction f as [|f IH]; intros v H; [reflexivity|].
  destruct v as [|c r]; [reflexivity|]. simpl in H. apply orb_false_iff in H.
  destruct H as [Hc Hr]. rewrite (matchTags_skip f c r Hc). now apply IH.
Qed.

Lemma matchAllTags_segment (v t rest : string) :
  plainText v -> tagText t ->
  matchAllTags (v ++ "{{" ++ t ++ "}}" ++ rest) = t :: matchAllTags rest.
Proof.
  unfold plainText. intros Hv Ht. induction v as [|c r IH].
  - change ("" ++ "{{" ++ t ++ "}}" ++ rest)%string
      with (String "{" (String "{" (t ++ String "}" (String "}" rest)))).
    unfold matchAllTags at 1.
    change (String.length (String "{" (String "{" (t ++ String "}" (String "}" rest)))))
      with (S (S (String.length (t ++ String "}" (String "}" rest))))).
    rewrite matchTags_open, (scanClose_tag t rest Ht). f_equal. apply matchTags_fuel.
    clear. induction t as [|c t IH]; simpl; lia.
  - simpl in Hv. apply orb_false_iff in Hv. destruct Hv as [Hc Hr].
    change (String c r ++ "{{" ++ t ++ "}}" ++ rest)%string
      with (String c (r ++ "{{" ++ t ++ "}}" ++ rest)).
    unfold matchAllTags at 1. cbn [String.length].
    rewrite (matchTags_skip _ c _ Hc). fold (matchAllTags (r ++ "{{" ++ t ++ "}}" ++ rest)).
    now apply IH.
Qed.

Lemma matchAllTags_template (segs : list (string * string)) (rest : string) :
  wellFormed segs rest -> matchAllTags (template segs rest) = map snd segs.
Proof.
  intros [Hs Hr]. induction Hs as [|[v t] segs [Hv Ht] Hs IH].
  - apply matchTags_plain, Hr.
  - cbn [template map snd]. cbn [fst snd] in Hv, Ht.
    rewrite (matchAllTags_segment v t _ Hv Ht). now f_equal.
Qed.

Lemma template_insert (segs : list (string * string)) (rest tag : string) :
  insertVariable (template segs rest) tag = template (segs ++ [(rest, tag)]) "".
Proof.
  unfold insertVariable. induction segs as [|[v t] segs IH].
  - cbn [template app]. now rewrite append_nil_r.
  - cbn [template app]. rewrite <- IH. rewrite !append_assoc'. reflexivity.
Qed.

Lemma offered_tag (it conn : bool) (deps : list Dependency) (tag : string) :
  offered it conn deps tag -> tagText tag /\ sidebarTagErrors it conn deps tag = [].
Proof.
  intros [(-> & -> & ->)|[p (Hp & Hsafe & ->)]].
  - split; [split; reflexivity | reflexivity].
  - split; [|apply (sidebar_step_tag _ _ _ _ Hsafe); eauto]. split.
    + change (hasChar "}" (String_of_Z (sequence p)) = false).
      apply (allChars_hasChar numChar); [|apply String_of_Z_chars].
      intros c. destruct c as [[] [] [] [] [] [] [] []]; intros H; try discriminate H;
        reflexivity.
    + change (allChars (fun c => negb (isLineTerminator c)) (String_of_Z (sequence p)) = true).
      apply (allChars_weaken numChar); [|apply String_of_Z_chars].
      intros c. destruct c as [[] [] [] [] [] [] [] []]; intros H; try discriminate H;
        reflexivity.
Qed.

Lemma uniq_nil_iff (l : list string) : uniq [] l = [] <-> l = [].
Proof.
  split; [|intros ->; reflexivity]. intros H.
  destruct l as [|x l]; [reflexivity|]. destruct (uniq_nil [] _ H x (or_introl eq_refl)).
Qed.

(** X22.  On a text written with the variable buttons, one more press, of
    the [iteration_value] button or of the button of a step whose sequence
    number is a safe integer (below 2^53 in magnitude), adds its tag at
    the end of the tags the checks see, and a text in which the sidebar
    found no unavailable variable has none afterwards. *)
Theorem insert_offered_variable (d : FlowNodeData.t) (it conn : bool)
    (deps : list Dependency) (segs : list (string * string)) (rest tag : string) :
  wellFormed segs rest ->
  FlowNodeData.value d = template segs rest ->
  offered it conn deps tag ->
  matchAllTags
    (FlowNodeData.value
       (mergeData d (partialOf (FValue (insertVariable (FlowNodeData.value d) tag)))))
  = (matchAllTags (FlowNodeData.value d) ++ [tag])%list
  /\ (invalidPlaceholders (Some d) it conn deps = [] ->
      invalidPlaceholders
        (Some (mergeData d (partialOf (FValue (insertVariable (FlowNodeData.value d) tag)))))
        it conn deps = []).
Proof.
  intros Hwf Hv Hoff. destruct (offered_tag it conn deps tag Hoff) as [Htag Hclean].
  assert (Hnew : matchAllTags (insertVariable (FlowNodeData.value d) tag)
                 = (matchAllTags (FlowNodeData.value d) ++ [tag])%list).
  { rewrite Hv, template_insert, !matchAllTags_template; [| exact Hwf |].
    - now rewrite map_app.
    - destruct Hwf as [Hs Hr]. split; [|reflexivity].
      apply Forall_app. split; [exact Hs|]. constructor; [|constructor]. now split. }
  unfold mergeData, invalidPlaceholders.
  cbn [FlowNodeData.value FlowNodeData.isStartNode partialOf Partial.value
       Partial.isStartNode spread].
  split; [exact Hnew|]. rewrite Hnew.
  destruct (FlowNodeData.isStartNode d); [reflexivity|]. cbn [orb].
  assert (Hne : String.eqb (insertVariable (FlowNodeData.value d) tag) "" = false).
  { apply String.eqb_neq. unfold insertVariable.
    destruct (FlowNodeData.value d); discriminate. }
  rewrite Hne, flat_map_app. cbn [flat_map]. rewrite Hclean, !app_nil_r.
  destruct (String.eqb (FlowNodeData.value d) "") eqn:Ev; [|tauto].
  apply String.eqb_eq in Ev. rewrite Ev. intros _. reflexivity.
Qed.

Lemma insert_offered_variable_witness :
  matchAllTags
    (FlowNodeData.value
       (mergeData (data report)
          (partialOf (FValue (insertVariable (FlowNodeData.value (data report))
                                "step_1")))))
  = ["step_1"; "step_1"]%string.
Proof.
  assert (Hwf : wellFormed [(""%string, "step_1"%string)] "").
  { split; [|reflexivity]. constructor; [|constructor].
    split; [reflexivity | split; reflexivity]. }
  assert (Hoff : offered false false [dependencyOf timedQuery] "step_1").
  { right. exists (dependencyOf timedQuery).
    split; [now left | split; [vm_compute; reflexivity | reflexivity]]. }
  exact (proj1 (insert_offered_variable (data report) false false [dependencyOf timedQuery]
                  [(""%string, "step_1"%string)] "" "step_1" Hwf eq_refl Hoff)).
Defined.

(** ** What a flow without the duplicate warning exports *)

Lemma no_duplicates_NoDup (nodes : list Node) :
  hasDuplicates nodes = false -> List.NoDup (map order nodes).
Proof.
  intros H. apply NoDup_nth_error. intros i j Hi E.
  rewrite length_map in Hi.
  destruct (nth_error nodes i) as [n|] eqn:En; [|apply nth_error_None in En; lia].
  rewrite !nth_error_map, En in E. cbn [option_map] in E.
  destruct (nth_error nodes j) as [m|] eqn:Em; [|discriminate E].
  cbn [option_map] in E. injection E as E.
  destruct (Nat.lt_trichotomy i j) as [Hlt|[Heq|Hgt]]; [|exact Heq|]; exfalso.
  - assert (Hd : hasDuplicates nodes = true).
    { apply hasDuplicates_iff. exists i, j, n, m. auto. }
    congruence.
  - assert (Hd : hasDuplicates nodes = true).
    { apply hasDuplicates_iff. exists j, i, m, n. auto. }
    congruence.
Qed.

Lemma NoDup_filter_map {A : Type} (f : A -> Z) (g : A -> bool) (l : list A) :
  List.NoDup (map f l) -> List.NoDup (map f (List.filter g l)).
Proof.
  induction l as [|a l IH]; intros H; [constructor|].
  cbn [map] in H. inversion H as [|? ? Hna Hnd]; subst. cbn [List.filter].
  destruct (g a); [|now apply IH]. cbn [map]. constructor; [|now apply IH].
  intros Hin. apply Hna. apply in_map_iff in Hin. destruct Hin as [x [Hx Hin]].
  apply filter_In in Hin. apply in_map_iff. exists x. tauto.
Qed.

Lemma Sorted_strict (l : list Z) : Sorted Z.le l -> List.NoDup l -> Sorted Z.lt l.
Proof.
  intros Hs Hnd. apply Sorted_StronglySorted in Hs; [|intros x y z; apply Z.le_trans].
  apply StronglySorted_Sorted.
  induction Hs as [|a l Hs IH Hall]; [constructor|].
  inversion Hnd as [|? ? Hna Hnd']; subst. constructor; [now apply IH|].
  apply List.Forall_forall. intros x Hx.
  pose proof (proj1 (List.Forall_forall _ _) Hall x Hx) as Hle.
  assert (a <> x) by (intros ->; contradiction). lia.
Qed.

(** X23.  When the duplicate-order warning is not shown, the exported steps
    carry strictly ascending sequence orders. *)
Theorem checked_flow_exports_strict_orders (nodes : list Node) (edges : list Edge)
    (it : bool) (q : string) (cfg : GlobalConfig) :
  ~ In msgDuplicate (flowWarnings nodes edges it q) ->
  Sorted Z.lt (map FlowStep.sequence_order (steps (generateFlowJson nodes edges cfg))).
Proof.
  intros H. rewrite duplicate_warning_iff in H.
  assert (Hd : hasDuplicates nodes = false) by (destruct (hasDuplicates nodes); congruence).
  apply Sorted_strict; [apply compiled_orders_sorted|].
  apply compiled_orders_distinct. unfold distinctOrders, stepNodes.
  apply NoDup_filter_map. now apply no_duplicates_NoDup.
Qed.

Lemma checked_flow_exports_strict_orders_witness :
  Sorted Z.lt
    (map FlowStep.sequence_order
       (steps (generateFlowJson exampleNodes exampleEdges exampleConfig))).
Proof.
  apply (checked_flow_exports_strict_orders exampleNodes exampleEdges true "SELECT 1"
           exampleConfig).
  vm_compute. intros H. repeat (destruct H as [H|H]; [discriminate H|]). exact H.
Defined.

(** ** The colour of the edges *)

(** X24.  An edge is drawn red exactly when it leaves start and the warning
    about several start paths is shown, so some edge is red exactly when
    that warning is shown; an edge is dashed exactly when it leaves start
    and the flow iterates. *)
Theorem red_edges_match_start_warning (nodes : list Node) (edges : list Edge)
    (it : bool) (q : string) :
  (forall v, In v (visibleEdges it edges) ->
     (stroke v = "#ef4444"%string <->
      source (styled v) = "start"%string /\ In msgStart (flowWarnings nodes edges it q))
     /\ (strokeDasharray v = "5,5"%string <->
         source (styled v) = "start"%string /\ it = true))
  /\ ((exists v, In v (visibleEdges it edges) /\ stroke v = "#ef4444"%string)
      <-> In msgStart (flowWarnings nodes edges it q)).
Proof.
  assert (Hvalid : isStartConfigurationValid it edges = false
                   <-> In msgStart (flowWarnings nodes edges it q)).
  { rewrite start_warning_iff. unfold isStartConfigurationValid.
    destruct it; [split; [discriminate | intros [H _]; discriminate H]|].
    rewrite Nat.leb_gt. split; [intros H; split; [reflexivity | lia] | intros [_ H]; lia]. }
  assert (Hone : forall v, In v (visibleEdges it edges) ->
     (stroke v = "#ef4444"%string <->
      source (styled v) = "start"%string /\ In msgStart (flowWarnings nodes edges it q))
     /\ (strokeDasharray v = "5,5"%string <->
         source (styled v) = "start"%string /\ it = true)).
  { intros v Hv. unfold visibleEdges in Hv. apply in_map_iff in Hv.
    destruct Hv as [e [<- He]]. rewrite <- Hvalid. unfold visibleEdge. cbv zeta.
    destruct (String.eqb_spec (source e) "start") as [Es|Es].
    - unfold isStartConfigurationValid.
      destruct it; cbn [negb]; [cbn [styled stroke strokeDasharray]; split; split;
        try discriminate; try tauto; intros [_ H]; discriminate H|].
      destruct (Nat.leb (startEdgesCount edges) 1); cbn [negb styled stroke strokeDasharray];
        split; split; try discriminate; try tauto; intros [_ H]; discriminate H.
    - cbn [styled stroke strokeDasharray]. split; split; try discriminate; tauto. }
  split; [exact Hone|]. split.
  - intros [v [Hv Hred]]. now apply (Hone v Hv) in Hred.
  - intros Hw. pose proof Hw as Hc. apply start_warning_iff in Hc. destruct Hc as [_ Hc].
    unfold startEdgesCount in Hc.
    assert (Hpos : (0 < List.length (List.filter (fun e => String.eqb (source e) "start") edges))%nat)
      by lia.
    apply length_filter_pos in Hpos. destruct Hpos as [e [He Hs]].
    apply String.eqb_eq in Hs.
    exists (visibleEdge it (isStartConfigurationValid it edges) e).
    assert (Hin : In (visibleEdge it (isStartConfigurationValid it edges) e)
                    (visibleEdges it edges)) by (apply in_map; exact He).
    split; [exact Hin|]. apply (Hone _ Hin). split; [|exact Hw].
    assert (Hst : forall a b e0, styled (visibleEdge a b e0) = e0).
    { intros a b e0. unfold visibleEdge. cbv zeta.
      destruct (String.eqb (source e0) "start"), b, a; reflexivity. }
    rewrite Hst. exact Hs.
Qed.

(** ** Beyond the safe integers *)

(** What the bounds in the statements above keep out: from 2^53 on the
    arithmetic of the program rounds. *)
Example double_rounds :
  double (9007199254740992 + 1) = 9007199254740992
  /\ double (9007199254740994 - 1) = 9007199254740992
  /\ parseInt "9007199254740993" = Num 9007199254740992.
Proof. repeat split; vm_compute; reflexivity. Qed.

(** At the highest order 2^53 the node that [addNode] appends repeats
    that order, and the duplicate warning appears. *)
Example addNode_beyond_safe :
  let nodes := [startNode;
                {| id := "a"; data := plainData "A" 9007199254740992 CONCAT "x" |}] in
  map order (addNode "t" CONCAT nodes) = [0; 9007199254740992; 9007199254740992]
  /\ ~ In msgDuplicate (flowWarnings nodes [] false "")
  /\ In msgDuplicate (flowWarnings (addNode "t" CONCAT nodes) [] false "").
Proof.
  split; [vm_compute; reflexivity|]. split.
  - vm_compute. intros H. repeat (destruct H as [H|H]; [discriminate H|]). exact H.
  - vm_compute. left. reflexivity.
Qed.

(** A record of order 2^53 + 2 without [depends_on] is wired to the record
    of order 2^53, two below it. *)
Example fallback_beyond_safe :
  map (fun e => (source e, target e))
      (r_edges (restoreFlowFromJson decimalStamp
                  (plainJson "F" [plainStep 9007199254740992 "A" SQL "q";
                                  plainStep 9007199254740994 "B" CONCAT "x"])))
  = [("node-9007199254740992-0", "node-9007199254740994-1")].
Proof. vm_compute. reflexivity. Qed.

(** Two nodes of neighbouring orders near 2^53 are drawn at one place. *)
Example layout_beyond_exact :
  let a := {| id := "a"; data := plainData "A" 7881299347898369 SQL "x" |} in
  let b := {| id := "b"; data := plainData "B" 7881299347898370 SQL "y" |} in
  (pos_x (placeNode [a; b] a), pos_y (placeNode [a; b] a))
  = (pos_x (placeNode [a; b] b), pos_y (placeNode [a; b] b)).
Proof. vm_compute. reflexivity. Qed.
